(** * abt-dashboard: the flexible ingestion and transformation pipeline

    A shallow embedding of the Go package [internal/transform]
    (format converter, transformation engine, data handler and the built-in
    optimization stages) together with the properties proved about it.

    Conventions.
    - Go [string] is a byte string: [string] of Stdlib, one [ascii] per byte.
    - Go [int64] / [int] is [Z]; where the code can overflow the wrap-around
      is written out with [wrap64].
    - Go [float64] is [spec_float] of the Standard Library at precision 53 and
      maximal exponent 1024 (IEEE 754 binary64, round to nearest even).
    - Go [map[string]T] is [gmap string T]; reading a missing key gives the
      zero value of [T], written [default zero (m !! k)].
    - [error] results are [Result], with the message kept as a string. *)

From Stdlib Require Import ZArith Ascii String List Bool Lia.
From Stdlib Require Import Floats.SpecFloat.
From stdpp Require Import base option list gmap strings pretty sorting.

Local Open Scope Z_scope.
Set Warnings "-register-all".

(** String concatenation computes in the proofs below. *)
#[local] Arguments String.append !_ _ / : simpl nomatch.

(* ===================================================================== *)
(** * Common result type                                                  *)
(* ===================================================================== *)

Inductive Result (A : Type) : Type :=
| Ok (a : A)
| Err (msg : string).
Arguments Ok {A} a.
Arguments Err {A} msg.

Definition is_Ok {A} (r : Result A) : bool :=
  match r with Ok _ => true | Err _ => false end.

(** Two's complement wrap-around of a 64 bit signed integer. *)
Definition wrap64 (z : Z) : Z := (z + 2 ^ 63) mod 2 ^ 64 - 2 ^ 63.

Definition minInt64 : Z := - 2 ^ 63.
Definition maxInt64 : Z := 2 ^ 63 - 1.

(* ===================================================================== *)
(** * package time (the part the pipeline uses)                            *)
(* ===================================================================== *)

Module GoTime.

(** A [*time.Location]: UTC, the process-local zone, or a zone fabricated
    by [time.Parse] from an offset or abbreviation in the input. *)
Inductive Location : Type :=
| UTC
| Local
| FixedZone (name : string) (offset : Z).

(** [time.Time]: seconds and nanoseconds since January 1, year 1,
    00:00:00 UTC, and the location the instant is presented in. *)
Record Time : Type := mkTime {
  t_sec : Z;
  t_nsec : Z;
  t_loc : Location
}.

(** seconds from year 1 to 1970, [unixToInternal] in package time *)
Definition unixToInternal : Z := 62135596800.

(** The zero value [time.Time{}]. *)
Definition zeroTime : Time := mkTime 0 0 UTC.

Definition IsZero (t : Time) : bool := (t_sec t =? 0) && (t_nsec t =? 0).

(** [t.UTC()] keeps the instant and sets the location to UTC. *)
Definition toUTC (t : Time) : Time := mkTime (t_sec t) (t_nsec t) UTC.

(** [t.Unix()] *)
Definition Unix_of (t : Time) : Z := wrap64 (t_sec t - unixToInternal).

(** [time.Unix(sec, nsec)]: the local Time of the given Unix time; [nsec]
    outside [0, 1e9) is carried into the seconds. *)
Definition Unix (sec nsec : Z) : Time :=
  let '(sec, nsec) :=
    if (nsec <? 0) || (1000000000 <=? nsec) then
      let n := Z.quot nsec 1000000000 in
      let sec := wrap64 (sec + n) in
      let nsec := nsec - n * 1000000000 in
      if nsec <? 0 then (wrap64 (sec - 1), nsec + 1000000000) else (sec, nsec)
    else (sec, nsec) in
  mkTime (wrap64 (sec + unixToInternal)) nsec Local.

End GoTime.

(* ===================================================================== *)
(** * package models                                                       *)
(* ===================================================================== *)

Module Models.

(** [models.Transaction] *)
Record Transaction : Type := mkTransaction {
  ID : string;
  Country : string;
  Region : string;
  ProductName : string;
  UnitPriceCents : Z;
  Quantity : Z;
  TxTime : GoTime.Time
}.

(** The zero value [models.Transaction{}]. *)
Definition zeroTransaction : Transaction :=
  mkTransaction "" "" "" "" 0 0 GoTime.zeroTime.

End Models.

(* ===================================================================== *)
(** * Optimization stages (transformations.go)                             *)
(* ===================================================================== *)

Module Optimizations.
Import Models.

(** Reading a [map[string]bool]: a missing key reads as [false]. *)
Definition seen_get (seen : gmap string bool) (k : string) : bool :=
  default false (seen !! k).

(** ** DuplicateRemoval.Optimize

    [seen] and [unique] are the two locals of the Go loop. *)
Fixpoint DuplicateRemoval_loop (seen : gmap string bool)
    (unique : list Transaction) (transactions : list Transaction)
    : list Transaction :=
  match transactions with
  | [] => unique
  | tx :: rest =>
      if negb (seen_get seen (ID tx))
      then DuplicateRemoval_loop (<[ID tx := true]> seen) (unique ++ [tx]) rest
      else DuplicateRemoval_loop seen unique rest
  end.

Definition DuplicateRemoval_Optimize (transactions : list Transaction)
    : list Transaction :=
  DuplicateRemoval_loop ∅ [] transactions.

(** ** DataDeduplication.Optimize *)

(** [fmt.Sprintf("%s:%s:%s:%s:%d:%d:%d", ...)] *)
Definition compositeKey (tx : Transaction) : string :=
  ID tx +:+ ":" +:+ Country tx +:+ ":" +:+ Region tx +:+ ":" +:+
  ProductName tx +:+ ":" +:+ pretty (UnitPriceCents tx) +:+ ":" +:+
  pretty (Quantity tx) +:+ ":" +:+ pretty (GoTime.Unix_of (TxTime tx)).

Fixpoint DataDeduplication_loop (seen : gmap string bool)
    (unique : list Transaction) (transactions : list Transaction)
    : list Transaction :=
  match transactions with
  | [] => unique
  | tx :: rest =>
      let key := compositeKey tx in
      if negb (seen_get seen key)
      then DataDeduplication_loop (<[key := true]> seen) (unique ++ [tx]) rest
      else DataDeduplication_loop seen unique rest
  end.

Definition DataDeduplication_Optimize (transactions : list Transaction)
    : list Transaction :=
  DataDeduplication_loop ∅ [] transactions.

(** ** IndexOptimization.Optimize returns its input as it is. *)
Definition IndexOptimization_Optimize (transactions : list Transaction)
    : list Transaction := transactions.

End Optimizations.


(* ===================================================================== *)
(** * packages strings, unicode/utf8 and path/filepath                     *)
(* ===================================================================== *)

Module GoStrings.

Definition byte_val (c : ascii) : Z := Z.of_N (N_of_ascii c).
Definition byte_of (z : Z) : ascii := ascii_of_N (Z.to_N z).

Definition str_len (s : string) : nat := String.length s.

Fixpoint str_drop (n : nat) (s : string) : string :=
  match n, s with
  | O, _ => s
  | S n', String _ s' => str_drop n' s'
  | S _, EmptyString => EmptyString
  end.

Fixpoint str_take (n : nat) (s : string) : string :=
  match n, s with
  | O, _ => EmptyString
  | S n', String c s' => String c (str_take n' s')
  | S _, EmptyString => EmptyString
  end.

(** [s[i]], for [i] in range *)
Definition byte_at (s : string) (i : nat) : Z :=
  match String.get i s with Some c => byte_val c | None => 0 end.

(** ** strings.HasPrefix, strings.HasSuffix, strings.Contains *)

Fixpoint HasPrefix (s prefix : string) {struct prefix} : bool :=
  match prefix with
  | EmptyString => true
  | String c prefix' =>
      match s with
      | EmptyString => false
      | String d s' => if Ascii.eqb c d then HasPrefix s' prefix' else false
      end
  end.

(** [len(s) >= len(suffix) && s[len(s)-len(suffix):] == suffix] *)
Definition HasSuffix (s suffix : string) : bool :=
  (str_len suffix <=? str_len s)%nat &&
  String.eqb (str_drop (str_len s - str_len suffix) s) suffix.

(** [strings.Contains(s, substr)], that is [strings.Index(s, substr) >= 0]:
    [substr] starts at some byte offset of [s]. *)
Fixpoint Contains (s substr : string) : bool :=
  HasPrefix s substr ||
  match s with
  | EmptyString => false
  | String _ s' => Contains s' substr
  end.

(** ** unicode/utf8 *)

Definition RuneError : Z := 65533.
Definition RuneSelf : Z := 128.
Definition MaxRune : Z := 1114111.

(** The table [first] of package utf8 with its accept ranges: for a leading
    byte of a multi-byte sequence, the length of the sequence and the range
    allowed for the second byte. *)
Definition first (b : Z) : option (nat * Z * Z) :=
  if b <? 194 then None
  else if b <=? 223 then Some (2%nat, 128, 191)
  else if b =? 224 then Some (3%nat, 160, 191)
  else if b <=? 236 then Some (3%nat, 128, 191)
  else if b =? 237 then Some (3%nat, 128, 159)
  else if b <=? 239 then Some (3%nat, 128, 191)
  else if b =? 240 then Some (4%nat, 144, 191)
  else if b <=? 243 then Some (4%nat, 128, 191)
  else if b =? 244 then Some (4%nat, 128, 143)
  else None.

Definition is_cont (b : Z) : bool := (128 <=? b) && (b <=? 191).

(** [utf8.DecodeRuneInString]: the first rune of [s] and its width in bytes;
    [(RuneError, 0)] on the empty string, [(RuneError, 1)] on an invalid
    encoding. *)
Definition DecodeRuneInString (s : string) : Z * nat :=
  match s with
  | EmptyString => (RuneError, 0%nat)
  | String c0 r0 =>
      let b0 := byte_val c0 in
      if b0 <? RuneSelf then (b0, 1%nat) else
      match first b0 with
      | None => (RuneError, 1%nat)
      | Some (sz, lo, hi) =>
          match r0 with
          | EmptyString => (RuneError, 1%nat)
          | String c1 r1 =>
              let b1 := byte_val c1 in
              if (b1 <? lo) || (hi <? b1) then (RuneError, 1%nat) else
              if (sz =? 2)%nat then
                (Z.lor (Z.shiftl (Z.land b0 31) 6) (Z.land b1 63), 2%nat)
              else
              match r1 with
              | EmptyString => (RuneError, 1%nat)
              | String c2 r2 =>
                  let b2 := byte_val c2 in
                  if negb (is_cont b2) then (RuneError, 1%nat) else
                  if (sz =? 3)%nat then
                    (Z.lor (Z.lor (Z.shiftl (Z.land b0 15) 12)
                                  (Z.shiftl (Z.land b1 63) 6))
                           (Z.land b2 63), 3%nat)
                  else
                  match r2 with
                  | EmptyString => (RuneError, 1%nat)
                  | String c3 _ =>
                      let b3 := byte_val c3 in
                      if negb (is_cont b3) then (RuneError, 1%nat) else
                      (Z.lor (Z.lor (Z.lor (Z.shiftl (Z.land b0 7) 18)
                                           (Z.shiftl (Z.land b1 63) 12))
                                    (Z.shiftl (Z.land b2 63) 6))
                             (Z.land b3 63), 4%nat)
                  end
              end
          end
      end
  end.

(** [utf8.RuneStart] *)
Definition RuneStart (b : Z) : bool := negb (Z.land b 192 =? 128).

(** The backwards scan of [utf8.DecodeLastRuneInString]: from [start] down
    to [lim], stop at the first byte that can start a rune. *)
Fixpoint lastRune_scan (s : string) (lim start : Z) (fuel : nat) : Z :=
  match fuel with
  | O => start
  | S fuel' =>
      if start <? lim then start
      else if RuneStart (byte_at s (Z.to_nat start)) then start
      else lastRune_scan s lim (start - 1) fuel'
  end.

(** [utf8.DecodeLastRuneInString] *)
Definition DecodeLastRuneInString (s : string) : Z * nat :=
  let end_ := Z.of_nat (str_len s) in
  if end_ =? 0 then (RuneError, 0%nat) else
  let r := byte_at s (Z.to_nat (end_ - 1)) in
  if r <? RuneSelf then (r, 1%nat) else
  let lim := Z.max 0 (end_ - 4) in
  let start := Z.max 0 (lastRune_scan s lim (end_ - 2) 4) in
  let '(r, size) := DecodeRuneInString (str_drop (Z.to_nat start) s) in
  if start + Z.of_nat size =? end_ then (r, size) else (RuneError, 1%nat).

(** [utf8.AppendRune]: the UTF-8 encoding of a rune; surrogates and values
    out of range (a negative rune is out of range as [uint32]) are encoded
    as [RuneError]. *)
Definition encode3 (r : Z) : string :=
  String (byte_of (Z.lor 224 (Z.shiftr r 12)))
  (String (byte_of (Z.lor 128 (Z.land (Z.shiftr r 6) 63)))
  (String (byte_of (Z.lor 128 (Z.land r 63))) EmptyString)).

Definition EncodeRune (r : Z) : string :=
  if (0 <=? r) && (r <=? 127) then String (byte_of r) EmptyString
  else if (0 <=? r) && (r <=? 2047) then
    String (byte_of (Z.lor 192 (Z.shiftr r 6)))
    (String (byte_of (Z.lor 128 (Z.land r 63))) EmptyString)
  else if (r <? 0) || (MaxRune <? r) || ((55296 <=? r) && (r <=? 57343)) then
    encode3 RuneError
  else if r <=? 65535 then encode3 r
  else
    String (byte_of (Z.lor 240 (Z.shiftr r 18)))
    (String (byte_of (Z.lor 128 (Z.land (Z.shiftr r 12) 63)))
    (String (byte_of (Z.lor 128 (Z.land (Z.shiftr r 6) 63)))
    (String (byte_of (Z.lor 128 (Z.land r 63))) EmptyString))).

(** The runes of a string as [for _, r := range s] yields them: an invalid
    byte is one [RuneError]. *)
Fixpoint runes_go (fuel : nat) (s : string) : list Z :=
  match fuel with
  | O => []
  | S fuel' =>
      match s with
      | EmptyString => []
      | _ => let '(r, w) := DecodeRuneInString s in
             r :: runes_go fuel' (str_drop w s)
      end
  end.

Definition runes (s : string) : list Z := runes_go (str_len s) s.

Fixpoint concat_str (l : list string) : string :=
  match l with
  | [] => EmptyString
  | s :: l' => s +:+ concat_str l'
  end.

(** [strings.Map(mapping, s)]: a negative result drops the rune. *)
Definition Map (mapping : Z -> Z) (s : string) : string :=
  concat_str (List.map (fun r => let r' := mapping r in
                                 if r' <? 0 then EmptyString else EncodeRune r')
                       (runes s)).

(** ** unicode.IsSpace *)
Definition IsSpace (r : Z) : bool :=
  if (0 <=? r) && (r <=? 255) then
    ((9 <=? r) && (r <=? 13)) || (r =? 32) || (r =? 133) || (r =? 160)
  else
    (r =? 5760) || ((8192 <=? r) && (r <=? 8202)) || (r =? 8232) ||
    (r =? 8233) || (r =? 8239) || (r =? 8287) || (r =? 12288).

(** The table [asciiSpace] of package strings. *)
Definition asciiSpace (b : Z) : bool :=
  ((9 <=? b) && (b <=? 13)) || (b =? 32).

(** ** strings.TrimLeftFunc, strings.TrimRightFunc, strings.TrimFunc *)

Fixpoint TrimLeftFunc_go (f : Z -> bool) (fuel : nat) (s : string) : string :=
  match fuel with
  | O => s
  | S fuel' =>
      match s with
      | EmptyString => EmptyString
      | _ => let '(r, w) := DecodeRuneInString s in
             if f r then TrimLeftFunc_go f fuel' (str_drop w s) else s
      end
  end.

Definition TrimLeftFunc (s : string) (f : Z -> bool) : string :=
  TrimLeftFunc_go f (str_len s) s.

(** [lastIndexFunc(s, f, false)]: the byte index of the last rune that does
    not satisfy [f], or [-1]. *)
Fixpoint lastIndexFunc_go (f : Z -> bool) (fuel : nat) (s : string) (i : nat)
    : Z :=
  match fuel with
  | O => -1
  | S fuel' =>
      match i with
      | O => -1
      | _ => let '(r, size) := DecodeLastRuneInString (str_take i s) in
             let i' := (i - size)%nat in
             if negb (f r) then Z.of_nat i'
             else lastIndexFunc_go f fuel' s i'
      end
  end.

Definition TrimRightFunc (s : string) (f : Z -> bool) : string :=
  let i := lastIndexFunc_go f (str_len s) s (str_len s) in
  let i :=
    if (0 <=? i) && (RuneSelf <=? byte_at s (Z.to_nat i)) then
      i + Z.of_nat (snd (DecodeRuneInString (str_drop (Z.to_nat i) s)))
    else i + 1 in
  str_take (Z.to_nat i) s.

Definition TrimFunc (s : string) (f : Z -> bool) : string :=
  TrimRightFunc (TrimLeftFunc s f) f.

(** ** strings.TrimSpace

    The ASCII fast path scans bytes from both ends and falls back to the
    rune-aware functions at the first byte outside ASCII. *)
Fixpoint TrimSpace_start (s : string) : string * bool :=
  match s with
  | EmptyString => (s, false)
  | String c s' =>
      let b := byte_val c in
      if RuneSelf <=? b then (s, true)
      else if asciiSpace b then TrimSpace_start s' else (s, false)
  end.

(** Scanning [stop] down from the end; [inr] is the fallback result. *)
Fixpoint TrimSpace_stop (s : string) (stop : nat) : string :=
  match stop with
  | O => EmptyString
  | S stop' =>
      let b := byte_at s stop' in
      if RuneSelf <=? b then TrimRightFunc (str_take stop s) IsSpace
      else if asciiSpace b then TrimSpace_stop s stop'
      else str_take stop s
  end.

Definition TrimSpace (s : string) : string :=
  let '(s1, fallback) := TrimSpace_start s in
  if fallback then TrimFunc s1 IsSpace
  else TrimSpace_stop s1 (str_len s1).

(** ** strings.ToLower

    [unicode_ToLower] stands for [unicode.ToLower], the case table of the Go
    standard library; it is only consulted for strings with a byte outside
    ASCII. *)
Definition isASCII_str (s : string) : bool :=
  forallb (fun c => byte_val c <? RuneSelf) (list_ascii_of_string s).

Definition lower_byte (c : ascii) : ascii :=
  let b := byte_val c in
  if (65 <=? b) && (b <=? 90) then byte_of (b + 32) else c.

Fixpoint map_bytes (f : ascii -> ascii) (s : string) : string :=
  match s with
  | EmptyString => EmptyString
  | String c s' => String (f c) (map_bytes f s')
  end.

Definition ToLower (unicode_ToLower : Z -> Z) (s : string) : string :=
  if isASCII_str s then map_bytes lower_byte s
  else Map unicode_ToLower s.

(** ** strings.ReplaceAll

    For a non-empty [old], the non-overlapping occurrences of [old] are
    replaced from left to right; [skip] counts the bytes of a matched
    occurrence still to be passed over. For an empty [old], [new] is
    inserted before every rune and at the end. *)
Fixpoint ReplaceAll_go (old new : string) (skip : nat) (s : string) : string :=
  match s with
  | EmptyString => EmptyString
  | String c s' =>
      match skip with
      | S k => ReplaceAll_go old new k s'
      | O =>
          if HasPrefix s old
          then new +:+ ReplaceAll_go old new (str_len old - 1) s'
          else String c (ReplaceAll_go old new 0 s')
      end
  end.

Fixpoint ReplaceAll_empty (new : string) (fuel : nat) (s : string) : string :=
  match fuel with
  | O => new
  | S fuel' =>
      match s with
      | EmptyString => new
      | _ => let w := snd (DecodeRuneInString s) in
             new +:+ str_take w s +:+ ReplaceAll_empty new fuel' (str_drop w s)
      end
  end.

Definition ReplaceAll (s old new : string) : string :=
  match old with
  | EmptyString => ReplaceAll_empty new (str_len s) s
  | _ => ReplaceAll_go old new 0 s
  end.

(** ** filepath.Ext (with [/] as the path separator)

    The suffix beginning at the final dot of the final path element. *)
Fixpoint Ext_go (path : string) (i : nat) : string :=
  match i with
  | O => EmptyString
  | S i' =>
      let b := byte_at path i' in
      if b =? 47 then EmptyString
      else if b =? 46 then str_drop i' path
      else Ext_go path i'
  end.

Definition Ext (path : string) : string := Ext_go path (str_len path).

End GoStrings.

(* ===================================================================== *)
(** * float64 and package strconv                                          *)
(* ===================================================================== *)

Module GoFloat.

(** IEEE 754 binary64. *)
Abbreviation float64 := spec_float.

Definition prec : Z := 53.
Definition emax : Z := 1024.

Definition f64_zero : float64 := S754_zero false.

(** [float64(n)] for an integer [n]: the nearest float, ties to even. *)
Definition f64_of_Z (n : Z) : float64 := binary_normalize prec emax n 0 false.

Definition f64_mul (x y : float64) : float64 := SFmul prec emax x y.
Definition f64_div (x y : float64) : float64 := SFdiv prec emax x y.
Definition f64_add (x y : float64) : float64 := SFadd prec emax x y.
Definition f64_ltb (x y : float64) : bool := SFltb x y.
Definition f64_leb (x y : float64) : bool := SFleb x y.
Definition f64_eqb (x y : float64) : bool := SFeqb x y.

Definition f64_is_zero (x : float64) : bool :=
  match x with S754_zero _ => true | _ => false end.

(** [int64(f)]: the fraction is discarded. The Go specification leaves the
    result open when the value does not fit; this is the result on amd64,
    where the conversion instruction answers with the smallest [int64]. *)
Definition int64_of_f64 (f : float64) : Z :=
  match f with
  | S754_zero _ => 0
  | S754_finite s m e =>
      let mag := if 0 <=? e then Zpos m * 2 ^ e else Z.shiftr (Zpos m) (- e) in
      let v := if s then - mag else mag in
      if (minInt64 <=? v) && (v <=? maxInt64) then v else minInt64
  | _ => minInt64
  end.

(** The float nearest to [± num / den] (ties to even). *)
Definition f64_of_ratio (neg : bool) (num : Z) (den : positive) : float64 :=
  match num with
  | Zpos n =>
      match den with
      | xH => binary_normalize prec emax (if neg then Zneg n else Zpos n) 0 neg
      | _ => f64_div (S754_finite neg n 0) (S754_finite false den 0)
      end
  | _ => S754_zero neg
  end.

End GoFloat.

Module Strconv.
Import GoStrings GoFloat.

Definition is_digit (b : Z) : bool := (48 <=? b) && (b <=? 57).

(** [lower(c)] of package strconv: [c | ('x' ^ 'X')] *)
Definition lower (b : Z) : Z := Z.lor b 32.

Definition is_hex_letter (b : Z) : bool := (97 <=? lower b) && (lower b <=? 102).

(** ** strconv.ParseInt(s, 10, 64) *)

Fixpoint parse_digits (s : string) (acc : Z) : option Z :=
  match s with
  | EmptyString => Some acc
  | String c s' =>
      let b := byte_val c in
      if is_digit b then parse_digits s' (acc * 10 + (b - 48)) else None
  end.

(** [ParseUint(s, 10, 64)] without its range check, which [ParseInt] redoes *)
Definition ParseUint_digits (s : string) : option Z :=
  match s with
  | EmptyString => None
  | _ => parse_digits s 0
  end.

Definition ErrSyntax : string := "invalid syntax".
Definition ErrRange : string := "value out of range".

Definition ParseInt (s : string) : Result Z :=
  match s with
  | EmptyString => Err ErrSyntax
  | String c s' =>
      let b := byte_val c in
      let '(neg, digits) :=
        if b =? 43 then (false, s')
        else if b =? 45 then (true, s')
        else (false, s) in
      match ParseUint_digits digits with
      | None => Err ErrSyntax
      | Some un =>
          if negb neg && (2 ^ 63 <=? un) then Err ErrRange
          else if neg && (2 ^ 63 <? un) then Err ErrRange
          else Ok (if neg then - un else un)
      end
  end.

(** ** strconv.ParseFloat(s, 64) *)

(** [special]: the spellings of infinity and not-a-number. *)
Definition special (s : string) : option float64 :=
  let low := map_bytes lower_byte s in
  let is_inf (t : string) := String.eqb t "inf" || String.eqb t "infinity" in
  match low with
  | String c rest =>
      let b := byte_val c in
      if b =? 43 then (if is_inf rest then Some (S754_infinity false) else None)
      else if b =? 45 then (if is_inf rest then Some (S754_infinity true) else None)
      else if is_inf low then Some (S754_infinity false)
      else if String.eqb low "nan" then Some S754_nan
      else None
  | EmptyString => None
  end.

(** The mantissa scanned by [readFloat]: the digits read as one integer,
    the number of digits after the point, and the flags of the scan. *)
Record mantissa : Type := mkMantissa {
  m_val : Z;
  m_frac : Z;
  m_sawdot : bool;
  m_sawdigits : bool;
  m_underscores : bool
}.

Definition push_digit (base d : Z) (st : mantissa) : mantissa :=
  mkMantissa (m_val st * base + d)
             (if m_sawdot st then m_frac st + 1 else m_frac st)
             (m_sawdot st) true (m_underscores st).

Fixpoint readMantissa (hex : bool) (s : string) (st : mantissa)
    : mantissa * string :=
  match s with
  | EmptyString => (st, s)
  | String c s' =>
      let b := byte_val c in
      if b =? 95 then
        readMantissa hex s'
          (mkMantissa (m_val st) (m_frac st) (m_sawdot st) (m_sawdigits st) true)
      else if b =? 46 then
        if m_sawdot st then (st, s)
        else readMantissa hex s'
          (mkMantissa (m_val st) (m_frac st) true (m_sawdigits st)
                      (m_underscores st))
      else if is_digit b then
        readMantissa hex s' (push_digit (if hex then 16 else 10) (b - 48) st)
      else if hex && is_hex_letter b then
        readMantissa hex s' (push_digit 16 (lower b - 97 + 10) st)
      else (st, s)
  end.

(** The exponent digits: [e] stops growing once it has reached 10000. *)
Fixpoint readExpDigits (s : string) (e : Z) (us : bool) : Z * bool * string :=
  match s with
  | EmptyString => (e, us, s)
  | String c s' =>
      let b := byte_val c in
      if b =? 95 then readExpDigits s' e true
      else if is_digit b then
        readExpDigits s' (if e <? 10000 then e * 10 + (b - 48) else e) us
      else (e, us, s)
  end.

(** [underscoreOK]: an underscore may only stand between digits, or between
    a base prefix and a digit. *)
Inductive saw : Type := SawStart | SawDigit | SawUnderscore | SawOther.

Definition saw_is_underscore (w : saw) : bool :=
  match w with SawUnderscore => true | _ => false end.
Definition saw_is_digit (w : saw) : bool :=
  match w with SawDigit => true | _ => false end.

Fixpoint underscoreOK_go (hex : bool) (w : saw) (s : string) : bool :=
  match s with
  | EmptyString => negb (saw_is_underscore w)
  | String c s' =>
      let b := byte_val c in
      if is_digit b || (hex && is_hex_letter b) then underscoreOK_go hex SawDigit s'
      else if b =? 95 then
        if negb (saw_is_digit w) then false
        else underscoreOK_go hex SawUnderscore s'
      else if saw_is_underscore w then false
      else underscoreOK_go hex SawOther s'
  end.

Definition strip_sign (s : string) : bool * string :=
  match s with
  | String c s' =>
      let b := byte_val c in
      if b =? 43 then (false, s') else if b =? 45 then (true, s') else (false, s)
  | EmptyString => (false, s)
  end.

Definition underscoreOK (s : string) : bool :=
  let s := snd (strip_sign s) in
  match s with
  | String c0 (String c1 rest) =>
      let l := lower (byte_val c1) in
      if (byte_val c0 =? 48) && ((l =? 98) || (l =? 111) || (l =? 120))
      then underscoreOK_go (l =? 120) SawDigit rest
      else underscoreOK_go false SawStart s
  | _ => underscoreOK_go false SawStart s
  end.

(** What [readFloat] hands on: sign, base, the mantissa as an integer, the
    exponent of the base (10, or 2 for a hexadecimal mantissa) and the
    unread rest of the input. *)
Record scanned : Type := mkScanned {
  sc_neg : bool;
  sc_hex : bool;
  sc_mant : Z;
  sc_exp : Z;
  sc_rest : string
}.

Definition readFloat (s : string) : option scanned :=
  match s with
  | EmptyString => None
  | _ =>
    let '(neg, s1) := strip_sign s in
    let '(hex, s2) :=
      match s1 with
      | String c0 (String c1 (String c2 r)) =>
          if (byte_val c0 =? 48) && (lower (byte_val c1) =? 120)
          then (true, String c2 r) else (false, s1)
      | _ => (false, s1)
      end in
    let '(m, s3) := readMantissa hex s2 (mkMantissa 0 0 false false false) in
    if negb (m_sawdigits m) then None else
    let expChar := if hex then 112 else 101 in
    let scale := if hex then 4 else 1 in
    let finish (e : Z) (us : bool) (rest : string) : option scanned :=
      let consumed := str_take (str_len s - str_len rest) s in
      if us && negb (underscoreOK consumed) then None
      else Some (mkScanned neg hex (m_val m) (e - scale * m_frac m) rest) in
    match s3 with
    | String c r =>
        if lower (byte_val c) =? expChar then
          match r with
          | EmptyString => None
          | String d r' =>
              let bd := byte_val d in
              let '(esign, r1) :=
                if bd =? 43 then (1, r') else if bd =? 45 then (-1, r') else (1, r) in
              match r1 with
              | EmptyString => None
              | String d1 _ =>
                  if negb (is_digit (byte_val d1)) then None else
                  let '(e, us, rest) := readExpDigits r1 0 (m_underscores m) in
                  finish (e * esign) us rest
              end
          end
        else if hex then None
        else finish 0 (m_underscores m) s3
    | EmptyString => if hex then None else finish 0 (m_underscores m) s3
    end
  end.

(** [strconv.ParseFloat(s, 64)]: the float nearest to the number written in
    [s] (decimal, or hexadecimal with a binary exponent), ties to even; an
    error when [s] is not a number or the number rounds to an infinity. *)
Definition ParseFloat (s : string) : Result float64 :=
  match special s with
  | Some f => Ok f
  | None =>
      match readFloat s with
      | None => Err ErrSyntax
      | Some sc =>
          match sc_rest sc with
          | String _ _ => Err ErrSyntax
          | EmptyString =>
              let f :=
                if sc_hex sc then
                  binary_normalize prec emax
                    (if sc_neg sc then - sc_mant sc else sc_mant sc)
                    (sc_exp sc) (sc_neg sc)
                else if 0 <=? sc_exp sc then
                  f64_of_ratio (sc_neg sc) (sc_mant sc * 10 ^ sc_exp sc) 1
                else
                  f64_of_ratio (sc_neg sc) (sc_mant sc)
                               (Z.to_pos (10 ^ (- sc_exp sc))) in
              match f with
              | S754_infinity _ => Err ErrRange
              | _ => Ok f
              end
          end
      end
  end.

End Strconv.


(* ===================================================================== *)
(** * package transform: configuration (engine.go)                         *)
(* ===================================================================== *)

Module Config.
Import GoFloat.

(** [TransformConfig] *)
Record TransformConfig : Type := mkConfig {
  EnableValidation : bool;
  EnableOptimization : bool;
  DateFormats : list string;
  CurrencyFormats : list string;
  NullValues : list string;
  DefaultCountry : string;
  DefaultRegion : string;
  PriceMultiplier : float64;
  CustomMappings : gmap string string;
  DataTypes : gmap string string
}.

(** ConfigLoader.getDefaultConfig (config_loader.go) *)
Definition getDefaultConfig : TransformConfig :=
  mkConfig true true
    [ "2006-01-02T15:04:05Z"; "2006-01-02"; "2006-01-02 15:04:05"; "01/02/2006";
      "02-01-2006"; "2006/01/02"; "Jan 2, 2006"; "2 Jan 2006";
      "2006-01-02T15:04:05-07:00" ]
    [ "USD"; "EUR"; "GBP"; "JPY"; "INR"; "AUD"; "CAD" ]
    [ ""; "NULL"; "null"; "N/A"; "n/a"; "NA"; "na"; "-"; "None"; "none";
      "undefined"; "UNDEFINED" ]
    "" ""
    (f64_of_Z 100)
    (list_to_map
       [ ("usa", "United States"); ("us", "United States");
         ("america", "United States"); ("uk", "United Kingdom");
         ("britain", "United Kingdom"); ("england", "United Kingdom");
         ("region_n", "North"); ("region_s", "South"); ("region_e", "East");
         ("region_w", "West"); ("region_ne", "Northeast");
         ("region_nw", "Northwest"); ("region_se", "Southeast");
         ("region_sw", "Southwest") ])
    (list_to_map
       [ ("transaction_id", "string"); ("country", "string");
         ("region", "string"); ("product_name", "string"); ("price", "float");
         ("quantity", "integer"); ("transaction_date", "datetime") ]).

End Config.

(* ===================================================================== *)
(** * package transform: format converter (converter.go)                   *)
(* ===================================================================== *)

Module Converter.
Import GoStrings GoFloat Strconv GoTime Models Config.

(** [DataFormat] *)
Inductive DataFormat : Type :=
| FormatCSV | FormatJSON | FormatYAML | FormatTSV | FormatXML.

(** ** FormatConverter.DetectFormat *)
Definition DetectFormat (data : string) : DataFormat :=
  let dataStr := TrimSpace data in
  if (HasPrefix dataStr "{" && HasSuffix dataStr "}") ||
     (HasPrefix dataStr "[" && HasSuffix dataStr "]") then FormatJSON
  else if HasPrefix dataStr "<" && Contains dataStr ">" then FormatXML
  else if Contains dataStr ":" &&
          (Contains dataStr (String (byte_of 10) "-") || Contains dataStr "---")
       then FormatYAML
  else if Contains dataStr (String (byte_of 9) EmptyString) then FormatTSV
  else FormatCSV.

(** ** FormatConverter.parseFlexiblePrice *)
Definition currencySymbols : list string :=
  ["$"; "€"; "£"; "¥"; "₹"; "₽"; "₩"; "₪"; "₦"; "₡"; "₵"; "₴"; "₸"; "₱"; "₫"; "₨"].

Definition parseFlexiblePrice (config : TransformConfig) (priceStr : string)
    : Result Z :=
  let cleanPrice :=
    fold_left (fun acc symbol => ReplaceAll acc symbol "") currencySymbols priceStr in
  let cleanPrice := ReplaceAll cleanPrice "," "" in
  let cleanPrice := ReplaceAll cleanPrice " " "" in
  let cleanPrice := ReplaceAll cleanPrice "%" "" in
  match ParseFloat cleanPrice with
  | Err e => Err e
  | Ok price => Ok (int64_of_f64 (f64_mul price (PriceMultiplier config)))
  end.

(** ** FormatConverter.createColumnMapping *)

(** The literal [columnVariations], as the list of its entries. A Go map is
    iterated in an unspecified order: the functions below take the order
    as the list [order] of entries that is walked. *)
Definition columnVariations : list (string * list string) :=
  [ ("transaction_id", ["transaction_id"; "id"; "trans_id"; "txn_id"; "transaction"; "order_id"]);
    ("country", ["country"; "nation"; "country_name"; "country_code"]);
    ("region", ["region"; "state"; "province"; "area"; "zone"; "territory"]);
    ("product_name", ["product_name"; "product"; "item"; "item_name"; "product_title"]);
    ("price", ["price"; "unit_price"; "cost"; "amount"; "unit_cost"; "price_per_unit"]);
    ("quantity", ["quantity"; "qty"; "amount"; "count"; "units"; "number"]);
    ("transaction_date", ["transaction_date"; "date"; "timestamp"; "time"; "tx_date"; "order_date"]) ].

(** The inner loop over one entry's variations, with its [break]. *)
Fixpoint mapVariations (normalizedCol standardField : string) (i : nat)
    (variations : list string) (columnMap : gmap string nat) : gmap string nat :=
  match variations with
  | [] => columnMap
  | variation :: rest =>
      if String.eqb normalizedCol variation
      then <[standardField := i]> columnMap
      else mapVariations normalizedCol standardField i rest columnMap
  end.

(** The loop over the entries of [columnVariations], walked in [order]. *)
Fixpoint mapStandardFields (normalizedCol : string) (i : nat)
    (order : list (string * list string)) (columnMap : gmap string nat)
    : gmap string nat :=
  match order with
  | [] => columnMap
  | (standardField, variations) :: rest =>
      mapStandardFields normalizedCol i rest
        (mapVariations normalizedCol standardField i variations columnMap)
  end.

Section ColumnMapping.
Variable unicode_ToLower : Z -> Z.

(** The loop over the header; [orders] gives, for each header column, the
    order in which the map literal is walked at that column (a column past
    the end of [orders] walks it in the written order). *)
Fixpoint createColumnMapping_loop (orders : list (list (string * list string)))
    (i : nat) (header : list string) (columnMap : gmap string nat)
    : gmap string nat :=
  match header with
  | [] => columnMap
  | col :: rest =>
      let normalizedCol := ToLower unicode_ToLower (TrimSpace col) in
      let columnMap := <[normalizedCol := i]> columnMap in
      let columnMap :=
        mapStandardFields normalizedCol i (hd columnVariations orders) columnMap in
      createColumnMapping_loop (tl orders) (S i) rest columnMap
  end.

Definition createColumnMapping_ordered (orders : list (list (string * list string)))
    (header : list string) : gmap string nat :=
  createColumnMapping_loop orders 0 header ∅.

Definition createColumnMapping (header : list string) : gmap string nat :=
  createColumnMapping_ordered [] header.

End ColumnMapping.

(** ** Loosely typed data decoded from JSON or YAML *)

(** The dynamic values [encoding/json] and [yaml.v2] decode into. A
    [map[interface{}]interface{}] is kept as its entries with a string key
    and the list of its other entries. *)
Inductive Value : Type :=
| VNil
| VBool (b : bool)
| VFloat (f : float64)
| VInt (z : Z)
| VInt64 (z : Z)
| VString (s : string)
| VList (l : list Value)
| VMapS (m : gmap string Value)
| VMapI (m : gmap string Value) (others : list (Value * Value)).

Definition newline : string := String (byte_of 10) EmptyString.

Section Parsing.

(** [unicode.ToLower], the case table of the Go standard library *)
Variable unicode_ToLower : Z -> Z.
(** [time.Parse(layout, value)], [None] when it returns an error *)
Variable time_Parse : string -> string -> option Time.
(** [fmt.Sprintf("%v", val)] for a value that is not a string *)
Variable Sprint_v : Value -> string.

Variable config : TransformConfig.

(** ** FormatConverter.parseFlexibleDate *)

Definition additionalFormats : list string :=
  [ "January 2, 2006";
    "Jan 2, 2006 15:04:05";
    "2006-01-02T15:04:05.000Z";
    "2006-01-02T15:04:05.000000Z";
    "Mon Jan 2 15:04:05 MST 2006";
    "Mon, 02 Jan 2006 15:04:05 MST" ].

(** [for _, format := range formats { if date, err := time.Parse(...); err == nil { return } }] *)
Fixpoint tryFormats (formats : list string) (dateStr : string) : option Time :=
  match formats with
  | [] => None
  | format :: rest =>
      match time_Parse format dateStr with
      | Some date => Some date
      | None => tryFormats rest dateStr
      end
  end.

Definition parseFlexibleDate (dateStr : string) : Result Time :=
  match tryFormats (DateFormats config) dateStr with
  | Some date => Ok date
  | None =>
      match tryFormats additionalFormats dateStr with
      | Some date => Ok date
      | None =>
          match ParseInt dateStr with
          | Ok timestamp =>
              if 10000000000 <? timestamp
              then Ok (Unix (Z.quot timestamp 1000)
                            (wrap64 (Z.rem timestamp 1000 * 1000000)))
              else Ok (Unix timestamp 0)
          | Err _ => Err "unable to parse date format"
          end
      end
  end.

(** ** FormatConverter.parseRecordToTransaction *)

(** The closure [getField]. *)
Definition getField (record : list string) (columnMap : gmap string nat)
    (fieldName : string) : string :=
  match columnMap !! fieldName with
  | Some idx =>
      match record !! idx with
      | Some v => TrimSpace v
      | None => ""
      end
  | None => ""
  end.

Definition parseRecordToTransaction (record : list string)
    (columnMap : gmap string nat) : Result Transaction :=
  let getField := getField record columnMap in
  let id := getField "transaction_id" in
  if String.eqb id "" then Err "transaction ID is required" else
  let country := getField "country" in
  let country := if String.eqb country "" then DefaultCountry config else country in
  let region := getField "region" in
  let region := if String.eqb region "" then DefaultRegion config else region in
  let productName := getField "product_name" in
  if String.eqb productName "" then Err "product name is required" else
  let priceStr := getField "price" in
  if String.eqb priceStr "" then Err "price is required" else
  match parseFlexiblePrice config priceStr with
  | Err e => Err ("invalid price '" +:+ priceStr +:+ "': " +:+ e)
  | Ok price =>
      let quantityStr := getField "quantity" in
      let quantityStr := if String.eqb quantityStr "" then "1" else quantityStr in
      match ParseInt quantityStr with
      | Err e => Err ("invalid quantity '" +:+ quantityStr +:+ "': " +:+ e)
      | Ok quantity =>
          let dateStr := getField "transaction_date" in
          if String.eqb dateStr "" then Err "transaction date is required" else
          match parseFlexibleDate dateStr with
          | Err e => Err ("invalid date '" +:+ dateStr +:+ "': " +:+ e)
          | Ok date =>
              Ok (mkTransaction id country region productName price quantity date)
          end
      end
  end.

(** ** FormatConverter.parseCSV

    [reads] are the results of the successive calls of [csvReader.Read]
    before it reports [io.EOF]. The function returns its result and the
    lines it prints on standard output. *)
Fixpoint parseCSV_loop (columnMap : gmap string nat)
    (reads : list (Result (list string))) (transactions : list Transaction)
    (lineNumber : Z) (stdout : list string)
    : Result (list Transaction) * list string :=
  match reads with
  | [] => (Ok transactions, stdout)
  | Err e :: _ =>
      (Err ("error reading line " +:+ pretty lineNumber +:+ ": " +:+ e), stdout)
  | Ok record :: rest =>
      match parseRecordToTransaction record columnMap with
      | Err e =>
          parseCSV_loop columnMap rest transactions lineNumber
            (stdout ++ ["Warning: Failed to parse line " +:+ pretty lineNumber
                        +:+ ": " +:+ e +:+ newline])
      | Ok transaction =>
          parseCSV_loop columnMap rest (transactions ++ [transaction])
            (wrap64 (lineNumber + 1)) stdout
      end
  end.

Definition parseCSV (reads : list (Result (list string)))
    : Result (list Transaction) * list string :=
  match reads with
  | [] => (Err "failed to read header: EOF", [])
  | Err e :: _ => (Err ("failed to read header: " +:+ e), [])
  | Ok header :: rest =>
      let columnMap := createColumnMapping unicode_ToLower header in
      parseCSV_loop columnMap rest [] 1 []
  end.

(** ** FormatConverter.getFieldValue, getFieldNumericValue *)

Fixpoint getFieldValue (data : gmap string Value) (fieldNames : list string)
    : string :=
  match fieldNames with
  | [] => ""
  | fieldName :: rest =>
      match data !! fieldName with
      | Some (VString str) => str
      | Some val => Sprint_v val
      | None => getFieldValue data rest
      end
  end.

Fixpoint getFieldNumericValue (data : gmap string Value)
    (fieldNames : list string) : Result float64 :=
  match fieldNames with
  | [] => Err "numeric field not found"
  | fieldName :: rest =>
      match data !! fieldName with
      | Some (VFloat v) => Ok v
      | Some (VInt v) => Ok (f64_of_Z v)
      | Some (VInt64 v) => Ok (f64_of_Z v)
      | Some (VString v) =>
          match ParseFloat v with
          | Ok parsed => Ok parsed
          | Err _ => getFieldNumericValue data rest
          end
      | _ => getFieldNumericValue data rest
      end
  end.

(** ** FormatConverter.mapToTransaction *)

(** The literal [fieldMappings]. *)
Definition fieldMappings : list (string * list string) :=
  [ ("id", ["transaction_id"; "id"; "trans_id"; "txn_id"]);
    ("country", ["country"; "nation"; "country_name"]);
    ("region", ["region"; "state"; "province"; "area"]);
    ("product_name", ["product_name"; "product"; "item"; "item_name"]);
    ("price", ["price"; "unit_price"; "cost"; "amount"]);
    ("quantity", ["quantity"; "qty"; "amount"; "count"]);
    ("date", ["transaction_date"; "date"; "timestamp"; "time"]) ].

(** [fieldMappings[key]] *)
Definition fieldMapping (key : string) : list string :=
  default [] ((list_to_map fieldMappings : gmap string (list string)) !! key).

Definition mapToTransaction (data : gmap string Value) : Result Transaction :=
  let id := getFieldValue data (fieldMapping "id") in
  if String.eqb id "" then Err "transaction ID is required" else
  let country := getFieldValue data (fieldMapping "country") in
  let country := if String.eqb country "" then DefaultCountry config else country in
  let region := getFieldValue data (fieldMapping "region") in
  let region := if String.eqb region "" then DefaultRegion config else region in
  let productName := getFieldValue data (fieldMapping "product_name") in
  if String.eqb productName "" then Err "product name is required" else
  match getFieldNumericValue data (fieldMapping "price") with
  | Err e => Err ("price is required: " +:+ e)
  | Ok priceVal =>
      let price := int64_of_f64 (f64_mul priceVal (PriceMultiplier config)) in
      let quantityVal :=
        match getFieldNumericValue data (fieldMapping "quantity") with
        | Ok q => q
        | Err _ => f64_of_Z 1
        end in
      let quantity := int64_of_f64 quantityVal in
      let dateStr := getFieldValue data (fieldMapping "date") in
      if String.eqb dateStr "" then Err "transaction date is required" else
      match parseFlexibleDate dateStr with
      | Err e => Err ("invalid date: " +:+ e)
      | Ok date =>
          Ok (mkTransaction id country region productName price quantity date)
      end
  end.

(** ** FormatConverter.extractTransactionsFromData *)

(** The loop over the items of an array: an item that is a map is
    converted, a failing conversion is reported on standard output and the
    item left out; any other item is passed over. *)
Fixpoint extractItems (items : list Value) (i : Z)
    (transactions : list Transaction) (stdout : list string)
    : list Transaction * list string :=
  match items with
  | [] => (transactions, stdout)
  | item :: rest =>
      let convert (m : gmap string Value) :=
        match mapToTransaction m with
        | Err e =>
            extractItems rest (i + 1) transactions
              (stdout ++ ["Warning: Failed to parse transaction " +:+ pretty i
                          +:+ ": " +:+ e +:+ newline])
        | Ok tx => extractItems rest (i + 1) (transactions ++ [tx]) stdout
        end in
      match item with
      | VMapI m _ => convert m
      | VMapS m => convert m
      | _ => extractItems rest (i + 1) transactions stdout
      end
  end.

(** The recursive calls on the value under the key [transactions] or
    [data] are taken from the map of the results for all entries, which
    keeps the recursion structural; [extractTransactionsFromData_map] below
    states the equation in the shape of the Go code. *)
Fixpoint extractTransactionsFromData (data : Value)
    : Result (list Transaction) * list string :=
  let fromMap (v : gmap string Value) :=
    let results := extractTransactionsFromData <$> v in
    match results !! "transactions" with
    | Some result => result
    | None =>
        match results !! "data" with
        | Some result => result
        | None =>
            match mapToTransaction v with
            | Err e => (Err e, [])
            | Ok tx => (Ok [tx], [])
            end
        end
    end in
  match data with
  | VList v => let '(txs, out) := extractItems v 0 [] [] in (Ok txs, out)
  | VMapS v => fromMap v
  | VMapI v _ => fromMap v
  | _ => (Err "unsupported data structure type", [])
  end.

(** ** FormatConverter.ConvertToTransactions

    The reader is given by what the decoders of the standard library make
    of it: the records of [encoding/csv] for the delimiter, and the decoded
    document of [encoding/json] and [yaml.v2]. *)
Record Reader : Type := mkReader {
  csv_reads : ascii -> list (Result (list string));
  json_decode : Result Value;
  yaml_decode : Result Value
}.

Definition parseJSON (reader : Reader) : Result (list Transaction) * list string :=
  match json_decode reader with
  | Err e => (Err ("failed to parse JSON: " +:+ e), [])
  | Ok data => extractTransactionsFromData data
  end.

Definition parseYAML (reader : Reader) : Result (list Transaction) * list string :=
  match yaml_decode reader with
  | Err e => (Err ("failed to parse YAML: " +:+ e), [])
  | Ok data => extractTransactionsFromData data
  end.

Definition ConvertToTransactions (reader : Reader) (format : DataFormat)
    : Result (list Transaction) * list string :=
  match format with
  | FormatCSV => parseCSV (csv_reads reader (byte_of 44))
  | FormatTSV => parseCSV (csv_reads reader (byte_of 9))
  | FormatJSON => parseJSON reader
  | FormatYAML => parseYAML reader
  | FormatXML => (Err "unsupported format: xml", [])
  end.

End Parsing.

End Converter.

(* ===================================================================== *)
(** * package transform: pipeline stages and results (engine.go)           *)
(* ===================================================================== *)

Module Stages.
Import GoStrings GoFloat GoTime Models Config Optimizations.

(** ** The stage interfaces

    A stage is an object behind an interface; the state it keeps between
    calls is passed explicitly. [TS] is the state of the registered
    transformations, [VS] that of the registered validators. *)

(** [Transformation]. [Transform] is called with a pointer to the record:
    the result gives the record as the call leaves it behind the pointer,
    and what the call returns: an error, a [*models.Transaction] with its
    value, or a value of another type ([None]). *)
Record Transformation (TS : Type) : Type := mkTransformation {
  T_Name : string;
  T_Transform : Transaction -> TS -> Transaction * Result (option Transaction) * TS
}.
Arguments mkTransformation {TS} _ _.
Arguments T_Name {TS} _.
Arguments T_Transform {TS} _ _ _.

(** [Validator]. [Validate] is called with a pointer to the record, as
    [Transform] is: the result gives the record as the call leaves it
    behind the pointer, and the error it returns ([None] for [nil]). *)
Record Validator (VS : Type) : Type := mkValidator {
  V_Name : string;
  V_Validate : Transaction -> VS -> Transaction * option string * VS
}.
Arguments mkValidator {VS} _ _.
Arguments V_Name {VS} _.
Arguments V_Validate {VS} _ _ _.

(** [Optimization], on a [[]models.Transaction]. *)
Record Optimization : Type := mkOptimization {
  O_Name : string;
  O_Optimize : list Transaction -> Result (list Transaction)
}.

(** ** Built-in stages *)

(** CurrencyNormalization.Transform returns the record it is given. *)
Definition CurrencyNormalization {TS} : Transformation TS :=
  mkTransformation "CurrencyNormalization"
    (fun tx st => (tx, Ok (Some tx), st)).

(** DateNormalization.Transform *)
Definition DateNormalization_apply (tx : Transaction) : Transaction :=
  if negb (IsZero (TxTime tx))
  then mkTransaction (ID tx) (Country tx) (Region tx) (ProductName tx)
                     (UnitPriceCents tx) (Quantity tx) (toUTC (TxTime tx))
  else tx.

Definition DateNormalization {TS} : Transformation TS :=
  mkTransformation "DateNormalization"
    (fun tx st => let tx' := DateNormalization_apply tx in (tx', Ok (Some tx'), st)).

(** RequiredFieldValidator.Validate *)
Definition RequiredFieldValidator_check (tx : Transaction) : option string :=
  if String.eqb (ID tx) "" then Some "transaction ID is required"
  else if String.eqb (Country tx) "" then Some "country is required"
  else if String.eqb (ProductName tx) "" then Some "product name is required"
  else if UnitPriceCents tx <=? 0 then Some "unit price must be positive"
  else if Quantity tx <=? 0 then Some "quantity must be positive"
  else if IsZero (TxTime tx) then Some "transaction time is required"
  else None.

Definition RequiredFieldValidator {VS} : Validator VS :=
  mkValidator "RequiredFieldValidator"
    (fun tx st => (tx, RequiredFieldValidator_check tx, st)).

(** RangeValidator.Validate *)
Definition RangeValidator_check (tx : Transaction) : option string :=
  if (UnitPriceCents tx <? 1) || (50000000 <? UnitPriceCents tx) then
    Some ("unit price " +:+ pretty (UnitPriceCents tx) +:+
          " cents is outside acceptable range")
  else if (Quantity tx <? 1) || (100000 <? Quantity tx) then
    Some ("quantity " +:+ pretty (Quantity tx) +:+ " is outside acceptable range")
  else None.

Definition RangeValidator {VS} : Validator VS :=
  mkValidator "RangeValidator" (fun tx st => (tx, RangeValidator_check tx, st)).

(** UniquenessValidator.Validate; the state is the field [seenIDs] (a nil
    map reads as the empty map and is allocated on the first call). *)
Definition UniquenessValidator_Validate (tx : Transaction)
    (seenIDs : gmap string bool) : option string * gmap string bool :=
  if seen_get seenIDs (ID tx)
  then (Some ("duplicate transaction ID: " +:+ ID tx), seenIDs)
  else (None, <[ID tx := true]> seenIDs).

Definition UniquenessValidator : Validator (gmap string bool) :=
  mkValidator "UniquenessValidator"
    (fun tx seenIDs =>
       let '(r, seenIDs) := UniquenessValidator_Validate tx seenIDs in
       (tx, r, seenIDs)).

Definition DuplicateRemoval : Optimization :=
  mkOptimization "DuplicateRemoval" (fun txs => Ok (DuplicateRemoval_Optimize txs)).
Definition DataDeduplication : Optimization :=
  mkOptimization "DataDeduplication" (fun txs => Ok (DataDeduplication_Optimize txs)).
Definition IndexOptimization : Optimization :=
  mkOptimization "IndexOptimization" (fun txs => Ok (IndexOptimization_Optimize txs)).

(** ** Results *)

(** [DataQualityMetrics]; a nil [FieldMetrics] reads as the empty map. *)
Record DataQualityMetrics : Type := mkMetrics {
  Completeness : float64;
  Consistency : float64;
  Validity : float64;
  Uniqueness : float64;
  FieldMetrics : gmap string float64
}.

(** The zero value [DataQualityMetrics{}]. *)
Definition zeroMetrics : DataQualityMetrics :=
  mkMetrics f64_zero f64_zero f64_zero f64_zero ∅.

(** [TransformationResult], without [ProcessingTime] (a wall-clock
    duration). *)
Record TransformationResult : Type := mkResult {
  OriginalRecords : Z;
  TransformedRecords : Z;
  SkippedRecords : Z;
  Errors : list string;
  Warnings : list string;
  Transformations : list string;
  DataQuality : DataQualityMetrics
}.

(** [DataTransformationEngine] *)
Record Engine (TS VS : Type) : Type := mkEngine {
  transformations : list (Transformation TS);
  validators : list (Validator VS);
  optimizations : list Optimization;
  e_config : TransformConfig
}.
Arguments mkEngine {TS VS} _ _ _ _.
Arguments transformations {TS VS} _.
Arguments validators {TS VS} _.
Arguments optimizations {TS VS} _.
Arguments e_config {TS VS} _.

End Stages.

(* ===================================================================== *)
(** * package transform: the quality scorer (engine.go)                    *)
(* ===================================================================== *)

Module Quality.
Import GoStrings GoFloat GoTime Models Config Stages.

(** ** Iterating over a Go map

    [for k, v := range m] visits the entries of [m] in an order the
    language leaves open. [iter_order order m] is the walk that visits the
    keys named in [order] first, in that order, and then the others: every
    [order] gives a walk over all entries, and every walk is given by some
    [order] (the list of its keys). *)
Definition iter_order {V} (order : list string) (m : gmap string V)
    : list (string * V) :=
  omap (fun k => (fun v => (k, v)) <$> m !! k) (remove_dups order) ++
  filter (fun kv => kv.1 ∉ order) (map_to_list m).

(** ** DataTransformationEngine.calculateDataQuality *)

(** [completenessScores[k]++] *)
Definition incr (k : string) (m : gmap string Z) : gmap string Z :=
  <[k := default 0 (m !! k) + 1]> m.

Definition when (b : bool) (f : gmap string Z -> gmap string Z)
    (m : gmap string Z) : gmap string Z := if b then f m else m.

(** The body of the first loop over the transactions. *)
Definition countFields (scores : gmap string Z) (tx : Transaction)
    : gmap string Z :=
  let scores := when (negb (String.eqb (ID tx) "")) (incr "id") scores in
  let scores := when (negb (String.eqb (Country tx) "")) (incr "country") scores in
  let scores := when (negb (String.eqb (Region tx) "")) (incr "region") scores in
  let scores := when (negb (String.eqb (ProductName tx) "")) (incr "product_name") scores in
  let scores := when (0 <? UnitPriceCents tx) (incr "price") scores in
  let scores := when (0 <? Quantity tx) (incr "quantity") scores in
  when (negb (IsZero (TxTime tx))) (incr "date") scores.

Definition completenessScores (transactions : list Transaction) : gmap string Z :=
  fold_left countFields transactions ∅.

(** A float division that also records its divisor, so that the divisors
    the scorer uses can be inspected. *)
Definition div_logged (x y : float64) (divisors : list float64)
    : float64 * list float64 :=
  (f64_div x y, divisors ++ [y]).

(** The loop over [completenessScores]. *)
Fixpoint completenessLoop (n : Z) (entries : list (string * Z))
    (fieldMetrics : gmap string float64) (totalCompleteness : float64)
    (divisors : list float64)
    : gmap string float64 * float64 * list float64 :=
  match entries with
  | [] => (fieldMetrics, totalCompleteness, divisors)
  | (field, count) :: rest =>
      let '(completeness, divisors) :=
        div_logged (f64_of_Z count) (f64_of_Z n) divisors in
      completenessLoop n rest
        (<[field +:+ "_completeness" := completeness]> fieldMetrics)
        (f64_add totalCompleteness completeness) divisors
  end.

Definition uniqueIDs (transactions : list Transaction) : gmap string bool :=
  fold_left (fun m tx => <[ID tx := true]> m) transactions ∅.

Definition validTransactions (transactions : list Transaction) : Z :=
  fold_left (fun n tx =>
               if (0 <=? UnitPriceCents tx) && (0 <=? Quantity tx)
               then n + 1 else n) transactions 0.

(** The constant [0.95] as a [float64]. *)
Definition consistencyPlaceholder : float64 := f64_of_ratio false 95 100.

Definition totalFields : Z := 7.

(** The scorer together with the divisors of its divisions; [order] is the
    order in which the map [completenessScores] is walked. *)
Definition calculateDataQuality_run (order : list string)
    (transactions : list Transaction) : DataQualityMetrics * list float64 :=
  match transactions with
  | [] => (zeroMetrics, [])
  | _ =>
      let n := Z.of_nat (length transactions) in
      let '(fieldMetrics, totalCompleteness, divisors) :=
        completenessLoop n (iter_order order (completenessScores transactions))
                         ∅ f64_zero [] in
      let '(completeness, divisors) :=
        div_logged totalCompleteness (f64_of_Z totalFields) divisors in
      let '(uniqueness, divisors) :=
        div_logged (f64_of_Z (Z.of_nat (size (uniqueIDs transactions))))
                   (f64_of_Z n) divisors in
      let '(validity, divisors) :=
        div_logged (f64_of_Z (validTransactions transactions))
                   (f64_of_Z n) divisors in
      (mkMetrics completeness consistencyPlaceholder validity uniqueness
                 fieldMetrics, divisors)
  end.

Definition calculateDataQuality (order : list string)
    (transactions : list Transaction) : DataQualityMetrics :=
  (calculateDataQuality_run order transactions).1.

(** [metrics.FieldMetrics[key]]: a missing key reads as [0]. *)
Definition fieldMetric (metrics : DataQualityMetrics) (key : string) : float64 :=
  default f64_zero (FieldMetrics metrics !! key).

End Quality.

(* ===================================================================== *)
(** * package transform: the engine (engine.go)                            *)
(* ===================================================================== *)

Module EngineM.
Import GoStrings GoFloat Strconv GoTime Models Config Optimizations Stages Quality.

Section Engine.

(** [unicode.ToLower] and [strings.Title] of the Go standard library *)
Variable unicode_ToLower : Z -> Z.
Variable strings_Title : string -> string.
(** [time.Parse(layout, value)], [None] when it returns an error *)
Variable time_Parse : string -> string -> option Time.

Context {TS VS : Type}.
Variable e : Engine TS VS.

(** ** Helper methods *)

Definition cleanString (s : string) : string :=
  let s := TrimSpace s in
  if existsb (String.eqb s) (NullValues (e_config e)) then "" else s.

Definition countryMappings : list (string * string) :=
  [ ("usa", "United States"); ("us", "United States");
    ("america", "United States"); ("uk", "United Kingdom");
    ("britain", "United Kingdom"); ("england", "United Kingdom");
    ("uae", "United Arab Emirates"); ("south korea", "Korea");
    ("north korea", "Korea") ].

Definition mapCountry (country : string) : string :=
  if String.eqb country "" && negb (String.eqb (DefaultCountry (e_config e)) "")
  then DefaultCountry (e_config e) else
  match CustomMappings (e_config e) !! ToLower unicode_ToLower country with
  | Some mapped => mapped
  | None =>
      match (list_to_map countryMappings : gmap string string)
              !! ToLower unicode_ToLower country with
      | Some mapped => mapped
      | None => country
      end
  end.

Definition mapRegion (region : string) : string :=
  if String.eqb region "" && negb (String.eqb (DefaultRegion (e_config e)) "")
  then DefaultRegion (e_config e) else
  match CustomMappings (e_config e) !! ToLower unicode_ToLower ("region_" +:+ region) with
  | Some mapped => mapped
  | None => region
  end.

Definition normalizeProductName (productName : string) : string :=
  let productName := cleanString productName in
  match CustomMappings (e_config e)
          !! ToLower unicode_ToLower ("product_" +:+ productName) with
  | Some mapped => mapped
  | None => strings_Title (ToLower unicode_ToLower productName)
  end.

Definition parsePrice (priceStr : string) : Result Z :=
  let priceStr := cleanString priceStr in
  let priceStr :=
    fold_left (fun acc symbol => ReplaceAll acc symbol "")
              ["$"; "€"; "£"; "¥"; "₹"; "₽"] priceStr in
  let priceStr := ReplaceAll priceStr "," "" in
  match ParseFloat priceStr with
  | Err err => Err err
  | Ok price => Ok (int64_of_f64 (f64_mul price (PriceMultiplier (e_config e))))
  end.

Fixpoint parseDate_loop (formats : list string) (dateStr : string) : Result Time :=
  match formats with
  | [] => Err "unable to parse date with any format"
  | format :: rest =>
      match time_Parse format dateStr with
      | Some date => Ok date
      | None => parseDate_loop rest dateStr
      end
  end.

Definition parseDate (dateStr : string) : Result Time :=
  parseDate_loop (DateFormats (e_config e)) (cleanString dateStr).

(** ** The loop over the registered transformations

    A failing transformation is passed over; the record is then the one
    the call left behind the pointer. *)
Fixpoint applyTransformations (ts : list (Transformation TS))
    (transaction : Transaction) (st : TS) : Transaction * TS :=
  match ts with
  | [] => (transaction, st)
  | transformation :: rest =>
      let '(inplace, ret, st) := T_Transform transformation transaction st in
      match ret with
      | Ok (Some t) => applyTransformations rest t st
      | _ => applyTransformations rest inplace st
      end
  end.

(** ** DataTransformationEngine.transformRecord *)

(** [if idx, ok := columnMap[name]; ok && idx < len(record)] *)
Definition column (record : list string) (columnMap : gmap string nat)
    (name : string) : option string :=
  match columnMap !! name with
  | Some idx => record !! idx
  | None => None
  end.

Definition transformRecord (record : list string) (columnMap : gmap string nat)
    (st : TS) : Result Transaction * TS :=
  let col := column record columnMap in
  let id := match col "transaction_id" with Some v => cleanString v | None => "" end in
  let country :=
    match col "country" with Some v => mapCountry (cleanString v) | None => "" end in
  let region :=
    match col "region" with Some v => mapRegion (cleanString v) | None => "" end in
  let productName :=
    match col "product_name" with Some v => normalizeProductName v | None => "" end in
  match match col "price" with
        | Some v =>
            match parsePrice v with
            | Err err => Err ("invalid price '" +:+ v +:+ "': " +:+ err)
            | Ok price => Ok price
            end
        | None => Ok 0
        end with
  | Err err => (Err err, st)
  | Ok price =>
  match match col "quantity" with
        | Some v =>
            match ParseInt (cleanString v) with
            | Err err => Err ("invalid quantity '" +:+ v +:+ "': " +:+ err)
            | Ok quantity => Ok quantity
            end
        | None => Ok 0
        end with
  | Err err => (Err err, st)
  | Ok quantity =>
  match match col "transaction_date" with
        | Some v =>
            match parseDate v with
            | Err err => Err ("invalid date '" +:+ v +:+ "': " +:+ err)
            | Ok date => Ok date
            end
        | None => Ok zeroTime
        end with
  | Err err => (Err err, st)
  | Ok date =>
      let transaction :=
        mkTransaction id country region productName price quantity date in
      let '(transaction, st) :=
        applyTransformations (transformations e) transaction st in
      (Ok transaction, st)
  end end end.

(** ** DataTransformationEngine.validateTransaction: the first failure

    The result gives the record as the validators that were called leave
    it behind the pointer. *)
Fixpoint validateTransaction_loop (vs : list (Validator VS))
    (transaction : Transaction) (st : VS) : Transaction * option string * VS :=
  match vs with
  | [] => (transaction, None, st)
  | validator :: rest =>
      let '(transaction, r, st) := V_Validate validator transaction st in
      match r with
      | Some err =>
          (transaction,
           Some ("validation " +:+ V_Name validator +:+ " failed: " +:+ err), st)
      | None => validateTransaction_loop rest transaction st
      end
  end.

Definition validateTransaction (transaction : Transaction) (st : VS)
    : Transaction * option string * VS :=
  validateTransaction_loop (validators e) transaction st.

(** ** DataTransformationEngine.optimizeData *)
Fixpoint optimize_loop (os : list Optimization) (data : list Transaction)
    : Result (list Transaction) :=
  match os with
  | [] => Ok data
  | optimization :: rest =>
      match O_Optimize optimization data with
      | Err err =>
          Err ("optimization " +:+ O_Name optimization +:+ " failed: " +:+ err)
      | Ok optimized => optimize_loop rest optimized
      end
  end.

Definition optimizeData (transactions : list Transaction)
    : Result (list Transaction) :=
  optimize_loop (optimizations e) transactions.

(** ** DataTransformationEngine.TransformCSVData *)

(** The column mapping of the engine: the trimmed, lower-cased header. *)
Fixpoint headerMap (i : nat) (header : list string) (columnMap : gmap string nat)
    : gmap string nat :=
  match header with
  | [] => columnMap
  | col :: rest =>
      headerMap (S i) rest (<[ToLower unicode_ToLower (TrimSpace col) := i]> columnMap)
  end.

Definition add_error (err : string) (r : TransformationResult) : TransformationResult :=
  mkResult (OriginalRecords r) (TransformedRecords r) (SkippedRecords r)
           (Errors r ++ [err]) (Warnings r) (Transformations r) (DataQuality r).
Definition add_warning (w : string) (r : TransformationResult) : TransformationResult :=
  mkResult (OriginalRecords r) (TransformedRecords r) (SkippedRecords r)
           (Errors r) (Warnings r ++ [w]) (Transformations r) (DataQuality r).
Definition incr_original (r : TransformationResult) : TransformationResult :=
  mkResult (OriginalRecords r + 1) (TransformedRecords r) (SkippedRecords r)
           (Errors r) (Warnings r) (Transformations r) (DataQuality r).
Definition incr_transformed (r : TransformationResult) : TransformationResult :=
  mkResult (OriginalRecords r) (TransformedRecords r + 1) (SkippedRecords r)
           (Errors r) (Warnings r) (Transformations r) (DataQuality r).
Definition incr_skipped (r : TransformationResult) : TransformationResult :=
  mkResult (OriginalRecords r) (TransformedRecords r) (SkippedRecords r + 1)
           (Errors r) (Warnings r) (Transformations r) (DataQuality r).
Definition set_transformed (n : Z) (r : TransformationResult) : TransformationResult :=
  mkResult (OriginalRecords r) n (SkippedRecords r)
           (Errors r) (Warnings r) (Transformations r) (DataQuality r).
Definition set_quality (q : DataQualityMetrics) (r : TransformationResult)
    : TransformationResult :=
  mkResult (OriginalRecords r) (TransformedRecords r) (SkippedRecords r)
           (Errors r) (Warnings r) (Transformations r) q.
Definition add_transformations (names : list string) (r : TransformationResult)
    : TransformationResult :=
  mkResult (OriginalRecords r) (TransformedRecords r) (SkippedRecords r)
           (Errors r) (Warnings r) (Transformations r ++ names) (DataQuality r).

Definition emptyResult : TransformationResult :=
  mkResult 0 0 0 [] [] [] zeroMetrics.

(** The loop reading all records. *)
Fixpoint readAll (reads : list (Result (list string)))
    (rawRecords : list (list string)) (result : TransformationResult)
    : list (list string) * TransformationResult :=
  match reads with
  | [] => (rawRecords, result)
  | Err err :: rest =>
      readAll rest rawRecords (add_error ("CSV read error: " +:+ err) result)
  | Ok record :: rest =>
      readAll rest (rawRecords ++ [record]) (incr_original result)
  end.

(** The loop processing each record. *)
Fixpoint processRecords (rawRecords : list (list string))
    (columnMap : gmap string nat) (transactions : list Transaction)
    (result : TransformationResult) (ts : TS) (vs : VS)
    : list Transaction * TransformationResult * TS * VS :=
  match rawRecords with
  | [] => (transactions, result, ts, vs)
  | record :: rest =>
      let '(r, ts) := transformRecord record columnMap ts in
      match r with
      | Err err =>
          processRecords rest columnMap transactions
            (incr_skipped (add_error err result)) ts vs
      | Ok transaction =>
          let '(transaction, result, vs) :=
            if EnableValidation (e_config e) then
              let '(transaction, v, vs) := validateTransaction transaction vs in
              match v with
              | Some err => (transaction, add_warning err result, vs)
              | None => (transaction, result, vs)
              end
            else (transaction, result, vs) in
          processRecords rest columnMap (transactions ++ [transaction])
            (incr_transformed result) ts vs
      end
  end.

(** The records after the per-record stage, before the optimizations. *)
Definition TransformCSVData_records (reads : list (Result (list string)))
    (ts : TS) (vs : VS)
    : Result (list Transaction * TransformationResult * TS * VS) :=
  match reads with
  | [] => Err "failed to read CSV header: EOF"
  | Err err :: _ => Err ("failed to read CSV header: " +:+ err)
  | Ok header :: rest =>
      let columnMap := headerMap 0 header ∅ in
      let '(rawRecords, result) := readAll rest [] emptyResult in
      Ok (processRecords rawRecords columnMap [] result ts vs)
  end.

(** [reads] are the results of [csvReader.Read] before [io.EOF], [order]
    the order in which the scorer walks its map. On an error the Go
    function returns the empty result next to it. *)
Definition TransformCSVData (order : list string)
    (reads : list (Result (list string))) (ts : TS) (vs : VS)
    : Result (list Transaction * TransformationResult * TS * VS) :=
  match TransformCSVData_records reads ts vs with
  | Err err => Err err
  | Ok (transactions, result, ts, vs) =>
      let '(transactions, result) :=
        if EnableOptimization (e_config e) then
          match optimizeData transactions with
          | Err err =>
              (transactions, add_warning ("Optimization warning: " +:+ err) result)
          | Ok optimizedTransactions => (optimizedTransactions, result)
          end
        else (transactions, result) in
      let result := set_quality (calculateDataQuality order transactions) result in
      let result := add_transformations (T_Name <$> transformations e) result in
      Ok (transactions, result, ts, vs)
  end.

End Engine.

End EngineM.

(* ===================================================================== *)
(** * package transform: engine construction and the data handler          *)
(* ===================================================================== *)

Module Handler.
Import GoStrings GoFloat Strconv GoTime Models Config Optimizations Stages
       Quality Converter EngineM.

Section Construction.
Context {TS : Type}.

(** The registered stages that are built on package [regexp], on the
    Unicode tables or on the clock are taken as they are. *)
Variable StringCleaning CountryMapping RegionMapping ProductNameNormalization
  : Transformation TS.

(** DataTypeValidator.Validate reads the record and compares it with
    regular expressions and with the clock; the answers are taken as they
    are. *)
Variable DataTypeValidator_Validate
  : Transaction -> gmap string bool -> option string * gmap string bool.

Definition DataTypeValidator : Validator (gmap string bool) :=
  mkValidator "DataTypeValidator"
    (fun tx st => let '(r, st) := DataTypeValidator_Validate tx st in (tx, r, st)).

Definition RFC3339 : string := "2006-01-02T15:04:05Z07:00".

(** ** NewDataTransformationEngine *)
Definition NewDataTransformationEngine (config : TransformConfig)
    : Engine TS (gmap string bool) :=
  let dateFormats :=
    match DateFormats config with
    | [] => [RFC3339; "2006-01-02"; "2006-01-02 15:04:05"; "01/02/2006";
             "02-01-2006"; "2006/01/02"]
    | l => l
    end in
  let nullValues :=
    match NullValues config with
    | [] => [""; "NULL"; "null"; "N/A"; "n/a"; "-"]
    | l => l
    end in
  let priceMultiplier :=
    if f64_eqb (PriceMultiplier config) f64_zero then f64_of_Z 100
    else PriceMultiplier config in
  mkEngine
    [CurrencyNormalization; DateNormalization; StringCleaning; CountryMapping;
     RegionMapping; ProductNameNormalization]
    [RequiredFieldValidator; DataTypeValidator; RangeValidator; UniquenessValidator]
    [DuplicateRemoval; DataDeduplication; IndexOptimization]
    (mkConfig (EnableValidation config) (EnableOptimization config)
              dateFormats (CurrencyFormats config) nullValues
              (DefaultCountry config) (DefaultRegion config) priceMultiplier
              (CustomMappings config) (DataTypes config)).

End Construction.

(** [FlexibleDataHandler]; the converter holds the same [config]. *)
Record FlexibleDataHandler (TS VS : Type) : Type := mkHandler {
  engine : Engine TS VS;
  config : TransformConfig
}.
Arguments mkHandler {TS VS} _ _.
Arguments engine {TS VS} _.
Arguments config {TS VS} _.

(** An opened file: its content, the error of the first [Read] if it fails,
    and what the decoders make of the content. *)
Record OpenFile : Type := mkOpenFile {
  f_content : string;
  f_read_error : option string;
  f_reader : Reader
}.

Section Processing.

Variable unicode_ToLower : Z -> Z.
Variable time_Parse : string -> string -> option Time.
Variable Sprint_v : Value -> string.

Context {TS VS : Type}.
Variable fdh : FlexibleDataHandler TS VS.

(** ** FlexibleDataHandler.detectFileFormat

    The extension is looked at first; otherwise the first 1024 bytes of the
    file are handed to [DetectFormat]. *)
Definition detectFileFormat (filePath : string) (file : OpenFile)
    : Result DataFormat :=
  let ext := ToLower unicode_ToLower (Ext filePath) in
  if String.eqb ext ".csv" then Ok FormatCSV
  else if String.eqb ext ".tsv" then Ok FormatTSV
  else if String.eqb ext ".json" then Ok FormatJSON
  else if String.eqb ext ".yaml" || String.eqb ext ".yml" then Ok FormatYAML
  else if String.eqb ext ".xml" then Ok FormatXML
  else
    match f_read_error file with
    | Some err => Err ("failed to read file content: " +:+ err)
    | None => Ok (DetectFormat (str_take 1024 (f_content file)))
    end.

(** ** FlexibleDataHandler.optimizeTransactions *)
Definition optimizeTransactions (transactions : list Transaction)
    : Result (list Transaction) :=
  optimize_loop (optimizations (engine fdh)) transactions.

(** ** FlexibleDataHandler.ProcessDataFile *)

(** The loop over the transformations for record [i]; a failure adds a
    warning. *)
Fixpoint transformOne (ts : list (Transformation TS)) (i : Z)
    (transformedTx : Transaction) (warnings : list string) (st : TS)
    : Transaction * list string * TS :=
  match ts with
  | [] => (transformedTx, warnings, st)
  | transformation :: rest =>
      let '(inplace, ret, st) := T_Transform transformation transformedTx st in
      match ret with
      | Err err =>
          transformOne rest i inplace
            (warnings ++ ["Transformation " +:+ T_Name transformation +:+
                          " failed for record " +:+ pretty i +:+ ": " +:+ err]) st
      | Ok (Some newTx) => transformOne rest i newTx warnings st
      | Ok None => transformOne rest i inplace warnings st
      end
  end.

(** The loop over the validators for record [i]; each failure adds a
    warning. The result gives the record as the validators leave it behind
    the pointer. *)
Fixpoint validateOne (vs : list (Validator VS)) (i : Z)
    (transformedTx : Transaction) (warnings : list string) (st : VS)
    : Transaction * list string * VS :=
  match vs with
  | [] => (transformedTx, warnings, st)
  | validator :: rest =>
      let '(transformedTx, r, st) := V_Validate validator transformedTx st in
      match r with
      | Some err =>
          validateOne rest i transformedTx
            (warnings ++ ["Validation " +:+ V_Name validator +:+
                          " failed for record " +:+ pretty i +:+ ": " +:+ err]) st
      | None => validateOne rest i transformedTx warnings st
      end
  end.

(** The loop over the parsed transactions. *)
Fixpoint processTransactions (transactions : list Transaction) (i : Z)
    (transformedTransactions : list Transaction) (warnings : list string)
    (ts : TS) (vs : VS) : list Transaction * list string * TS * VS :=
  match transactions with
  | [] => (transformedTransactions, warnings, ts, vs)
  | tx :: rest =>
      let '(transformedTx, warnings, ts) :=
        transformOne (transformations (engine fdh)) i tx warnings ts in
      let '(transformedTx, warnings, vs) :=
        if EnableValidation (config fdh)
        then validateOne (validators (engine fdh)) i transformedTx warnings vs
        else (transformedTx, warnings, vs) in
      processTransactions rest (i + 1) (transformedTransactions ++ [transformedTx])
                          warnings ts vs
  end.

(** What [ProcessDataFile] does with the transactions the converter
    returned. *)
Definition processParsed (order : list string) (transactions : list Transaction)
    (ts : TS) (vs : VS)
    : list Transaction * TransformationResult * TS * VS :=
  let n := Z.of_nat (length transactions) in
  let '(transformedTransactions, warnings, ts, vs) :=
    processTransactions transactions 0 [] [] ts vs in
  let result := mkResult n n 0 [] warnings [] zeroMetrics in
  let '(transformedTransactions, result) :=
    if EnableOptimization (config fdh) then
      match optimizeTransactions transformedTransactions with
      | Err err =>
          (transformedTransactions, add_warning ("Optimization failed: " +:+ err) result)
      | Ok optimizedData =>
          (optimizedData, set_transformed (Z.of_nat (length optimizedData)) result)
      end
    else (transformedTransactions, result) in
  let result := add_transformations (T_Name <$> transformations (engine fdh)) result in
  let result :=
    set_quality (calculateDataQuality order transformedTransactions) result in
  (transformedTransactions, result, ts, vs).

(** [opened] is the outcome of [os.Open]. The function returns its result,
    the states of the stages and the lines printed on standard output. *)
Definition ProcessDataFile (order : list string) (filePath : string)
    (opened : Result OpenFile) (ts : TS) (vs : VS)
    : Result (list Transaction * TransformationResult) * TS * VS * list string :=
  match opened with
  | Err err =>
      (Err ("failed to open file " +:+ filePath +:+ ": " +:+ err), ts, vs, [])
  | Ok file =>
      match detectFileFormat filePath file with
      | Err err => (Err ("failed to detect file format: " +:+ err), ts, vs, [])
      | Ok format =>
          let '(converted, stdout) :=
            ConvertToTransactions unicode_ToLower time_Parse Sprint_v
              (config fdh) (f_reader file) format in
          match converted with
          | Err err => (Err ("failed to convert data: " +:+ err), ts, vs, stdout)
          | Ok transactions =>
              let '(out, result, ts, vs) := processParsed order transactions ts vs in
              (Ok (out, result), ts, vs, stdout)
          end
      end
  end.

End Processing.

End Handler.

(* ===================================================================== *)
(** * package transform: the quality report of the data handler            *)
(* ===================================================================== *)

Module Report.
Import GoStrings GoFloat GoTime Models Config Stages Quality Converter EngineM Handler.

(** [DataQualityIssue]; the field [Examples] is never set. *)
Record DataQualityIssue : Type := mkIssue {
  I_Type : string;
  I_Description : string;
  I_Severity : string;
  I_Count : Z
}.

(** The locals of the loop of [identifyDataQualityIssues]. *)
Record IssueCounters : Type := mkCounters {
  missingFields : gmap string Z;
  duplicateIDs : gmap string Z;
  invalidPrices : Z;
  invalidQuantities : Z;
  invalidDates : Z;
  missingCountries : Z;
  missingRegions : Z
}.

Definition noCounters : IssueCounters := mkCounters ∅ ∅ 0 0 0 0 0.

Definition bump (b : bool) (n : Z) : Z := if b then n + 1 else n.

(** The body of the loop over the transactions. *)
Definition countIssues (c : IssueCounters) (tx : Transaction) : IssueCounters :=
  let missing := when (String.eqb (ID tx) "") (incr "transaction_id") (missingFields c) in
  let countries := bump (String.eqb (Country tx) "") (missingCountries c) in
  let regions := bump (String.eqb (Region tx) "") (missingRegions c) in
  let missing := when (String.eqb (ProductName tx) "") (incr "product_name") missing in
  let duplicates := incr (ID tx) (duplicateIDs c) in
  let prices := bump (UnitPriceCents tx <=? 0) (invalidPrices c) in
  let quantities := bump (Quantity tx <=? 0) (invalidQuantities c) in
  let dates := bump (IsZero (TxTime tx)) (invalidDates c) in
  mkCounters missing duplicates prices quantities dates countries regions.

(** The loop reporting the missing fields, over the entries of
    [missingFields] in the order of the walk. *)
Fixpoint reportMissing (entries : list (string * Z)) (issues : list DataQualityIssue)
    : list DataQualityIssue :=
  match entries with
  | [] => issues
  | (field, count) :: rest =>
      reportMissing rest
        (if 0 <? count
         then issues ++ [mkIssue "missing_data"
                           ("Missing " +:+ field +:+ " in " +:+ pretty count +:+ " records")
                           "high" count]
         else issues)
  end.

(** The loop counting the identifiers that occur more than once. *)
Definition countDuplicates (entries : list (string * Z)) : Z :=
  fold_left (fun n kc => if 1 <? kc.2 then n + 1 else n) entries 0.

Definition reportIf (count : Z) (issue : DataQualityIssue)
    (issues : list DataQualityIssue) : list DataQualityIssue :=
  if 0 <? count then issues ++ [issue] else issues.

(** FlexibleDataHandler.identifyDataQualityIssues; [order] and [order'] are
    the orders in which the maps [missingFields] and [duplicateIDs] are
    walked. *)
Definition identifyDataQualityIssues (order order' : list string)
    (transactions : list Transaction) : list DataQualityIssue :=
  let c := fold_left countIssues transactions noCounters in
  let issues := reportMissing (iter_order order (missingFields c)) [] in
  let duplicateCount := countDuplicates (iter_order order' (duplicateIDs c)) in
  let issues :=
    reportIf duplicateCount
      (mkIssue "duplicate_data"
         ("Found " +:+ pretty duplicateCount +:+ " duplicate transaction IDs")
         "medium" duplicateCount) issues in
  let issues :=
    reportIf (invalidPrices c)
      (mkIssue "invalid_data"
         ("Invalid prices in " +:+ pretty (invalidPrices c) +:+ " records")
         "high" (invalidPrices c)) issues in
  let issues :=
    reportIf (invalidQuantities c)
      (mkIssue "invalid_data"
         ("Invalid quantities in " +:+ pretty (invalidQuantities c) +:+ " records")
         "high" (invalidQuantities c)) issues in
  let issues :=
    reportIf (invalidDates c)
      (mkIssue "invalid_data"
         ("Invalid dates in " +:+ pretty (invalidDates c) +:+ " records")
         "high" (invalidDates c)) issues in
  let issues :=
    reportIf (missingCountries c)
      (mkIssue "missing_data"
         ("Missing country data in " +:+ pretty (missingCountries c) +:+ " records")
         "medium" (missingCountries c)) issues in
  reportIf (missingRegions c)
    (mkIssue "missing_data"
       ("Missing region data in " +:+ pretty (missingRegions c) +:+ " records")
       "low" (missingRegions c)) issues.

(** The constants [0.95], [0.90], [0.99] and [0.85] as [float64]. *)
Definition f64_0_95 : float64 := f64_of_ratio false 95 100.
Definition f64_0_90 : float64 := f64_of_ratio false 90 100.
Definition f64_0_99 : float64 := f64_of_ratio false 99 100.
Definition f64_0_85 : float64 := f64_of_ratio false 85 100.

Definition recommendIf (b : bool) (text : string) (recommendations : list string)
    : list string :=
  if b then recommendations ++ [text] else recommendations.

(** [completeness, ok := metrics.FieldMetrics[key]; ok && completeness < bound] *)
Definition fieldBelow (metrics : DataQualityMetrics) (key : string) (bound : float64)
    : bool :=
  match FieldMetrics metrics !! key with
  | Some completeness => f64_ltb completeness bound
  | None => false
  end.

(** FlexibleDataHandler.generateRecommendations (the transactions are not
    looked at). *)
Definition generateRecommendations (metrics : DataQualityMetrics) : list string :=
  let recommendations :=
    recommendIf (f64_ltb (Completeness metrics) f64_0_95)
      "Improve data completeness by implementing validation at data entry points" [] in
  let recommendations :=
    recommendIf (f64_ltb (Validity metrics) f64_0_90)
      "Implement stricter data validation rules to improve data validity"
      recommendations in
  let recommendations :=
    recommendIf (f64_ltb (Uniqueness metrics) f64_0_99)
      "Review data collection process to eliminate duplicate entries"
      recommendations in
  let recommendations :=
    recommendIf (fieldBelow metrics "country_completeness" f64_0_90)
      "Implement default country mapping or mandatory country field"
      recommendations in
  let recommendations :=
    recommendIf (fieldBelow metrics "region_completeness" f64_0_85)
      "Consider enriching data with region information based on other geographic data"
      recommendations in
  recommendations ++
  [ "Regular data quality monitoring should be implemented";
    "Consider implementing data lineage tracking for better data governance" ].

(** [DataQualityReport], without its [Timestamp] (the wall clock). *)
Record DataQualityReport : Type := mkReport {
  R_Metrics : DataQualityMetrics;
  R_TotalRecords : Z;
  R_Issues : list DataQualityIssue;
  R_Recommendations : list string
}.

(** FlexibleDataHandler.GetDataQualityReport; [order] is the walk of the
    scorer, [order1] and [order2] those of [identifyDataQualityIssues]. *)
Definition GetDataQualityReport (order order1 order2 : list string)
    (transactions : list Transaction) : DataQualityReport :=
  let metrics := calculateDataQuality order transactions in
  mkReport metrics (Z.of_nat (length transactions))
           (identifyDataQualityIssues order1 order2 transactions)
           (generateRecommendations metrics).

Section Stream.

Variable unicode_ToLower : Z -> Z.
Variable time_Parse : string -> string -> option Time.
Variable Sprint_v : Value -> string.

Context {TS VS : Type}.
Variable fdh : FlexibleDataHandler TS VS.

(** FlexibleDataHandler.ProcessDataStream: the result and the lines printed
    on standard output. *)
Definition ProcessDataStream (order : list string) (reader : Reader)
    (format : DataFormat)
    : Result (list Transaction * TransformationResult) * list string :=
  let '(converted, stdout) :=
    ConvertToTransactions unicode_ToLower time_Parse Sprint_v (config fdh)
                          reader format in
  match converted with
  | Err err => (Err ("failed to convert stream data: " +:+ err), stdout)
  | Ok transactions =>
      let n := Z.of_nat (length transactions) in
      (Ok (transactions,
           mkResult n n 0 [] [] [] (calculateDataQuality order transactions)),
       stdout)
  end.

End Stream.

End Report.

(* ===================================================================== *)
(** * package transform: the configuration loader (config_loader.go)       *)
(* ===================================================================== *)

Module ConfigLoader.
Import GoStrings GoFloat Config Quality Handler.

(** The loop of [applyDefaults] over the default mappings: a default is
    added where the key is not present. *)
Definition addDefaultMappings (entries : list (string * string))
    (customMappings : gmap string string) : gmap string string :=
  fold_left (fun m kv => match m !! kv.1 with
                         | Some _ => m
                         | None => <[kv.1 := kv.2]> m
                         end) entries customMappings.

(** ConfigLoader.applyDefaults. A nil [CustomMappings] is first replaced by
    an empty map, which reads the same; [dataTypesNil] tells whether
    [config.DataTypes] is nil, and [order] is the order in which the default
    mappings are walked. *)
Definition applyDefaults (order : list string) (dataTypesNil : bool)
    (config : TransformConfig) : TransformConfig :=
  let dateFormats :=
    if (length (DateFormats config) =? 0)%nat then DateFormats getDefaultConfig
    else DateFormats config in
  let nullValues :=
    if (length (NullValues config) =? 0)%nat then NullValues getDefaultConfig
    else NullValues config in
  let priceMultiplier :=
    if f64_eqb (PriceMultiplier config) f64_zero then f64_of_Z 100
    else PriceMultiplier config in
  let customMappings :=
    addDefaultMappings (iter_order order (CustomMappings getDefaultConfig))
                       (CustomMappings config) in
  let dataTypes :=
    if dataTypesNil then DataTypes getDefaultConfig else DataTypes config in
  mkConfig (EnableValidation config) (EnableOptimization config) dateFormats
           (CurrencyFormats config) nullValues (DefaultCountry config)
           (DefaultRegion config) priceMultiplier customMappings dataTypes.

(** The loops of [mergeConfigs] over the maps of the override. *)
Definition overrideEntries (entries : list (string * string))
    (m : gmap string string) : gmap string string :=
  fold_left (fun m kv => <[kv.1 := kv.2]> m) entries m.

(** ConfigLoader.mergeConfigs. A nil map of the override is passed over,
    as an empty one is walked without effect; [order] and [order'] are the
    orders in which the maps of the override are walked. *)
Definition mergeConfigs (order order' : list string)
    (base override : TransformConfig) : TransformConfig :=
  let enableValidation :=
    if negb (Bool.eqb (EnableValidation override) (EnableValidation base))
    then EnableValidation override else EnableValidation base in
  let enableOptimization :=
    if negb (Bool.eqb (EnableOptimization override) (EnableOptimization base))
    then EnableOptimization override else EnableOptimization base in
  let dateFormats :=
    if (0 <? length (DateFormats override))%nat then DateFormats override
    else DateFormats base in
  let currencyFormats :=
    if (0 <? length (CurrencyFormats override))%nat then CurrencyFormats override
    else CurrencyFormats base in
  let nullValues :=
    if (0 <? length (NullValues override))%nat then NullValues override
    else NullValues base in
  let defaultCountry :=
    if negb (String.eqb (DefaultCountry override) "") then DefaultCountry override
    else DefaultCountry base in
  let defaultRegion :=
    if negb (String.eqb (DefaultRegion override) "") then DefaultRegion override
    else DefaultRegion base in
  let priceMultiplier :=
    if negb (f64_eqb (PriceMultiplier override) f64_zero) then PriceMultiplier override
    else PriceMultiplier base in
  let customMappings :=
    overrideEntries (iter_order order (CustomMappings override)) (CustomMappings base) in
  let dataTypes :=
    overrideEntries (iter_order order' (DataTypes override)) (DataTypes base) in
  mkConfig enableValidation enableOptimization dateFormats currencyFormats nullValues
           defaultCountry defaultRegion priceMultiplier customMappings dataTypes.

(** ConfigLoader.isValidDateFormat *)
Fixpoint hasComponents (requiredComponents : list string) (format : string) : bool :=
  match requiredComponents with
  | [] => true
  | component :: rest =>
      if negb (Contains format component) then false else hasComponents rest format
  end.

Definition isValidDateFormat (format : string) : bool :=
  hasComponents ["2006"; "01"; "02"] format.

Section Validate.

(** [fmt.Sprintf("%f", x)] *)
Variable Sprintf_f : float64 -> string.

(** ConfigLoader.ValidateConfig, [None] for [nil] *)
Definition ValidateConfig (config : TransformConfig) : option string :=
  if f64_leb (PriceMultiplier config) f64_zero then
    Some ("price_multiplier must be positive, got " +:+
          Sprintf_f (PriceMultiplier config))
  else if (length (DateFormats config) =? 0)%nat then
    Some "at least one date format must be specified"
  else
    let validFormats :=
      fold_left (fun n format => if isValidDateFormat format then n + 1 else n)
                (DateFormats config) 0 in
    if validFormats =? 0 then Some "no valid date formats found" else None.

End Validate.

(** FlexibleDataHandler.ValidateConfiguration (data_handler.go); its loop
    over the date formats has no effect. *)
Definition ValidateConfiguration {TS VS} (fdh : FlexibleDataHandler TS VS)
    : option string :=
  if f64_leb (PriceMultiplier (config fdh)) f64_zero then
    Some "price_multiplier must be positive"
  else if (length (DateFormats (config fdh)) =? 0)%nat then
    Some "at least one date format must be specified"
  else None.

End ConfigLoader.

(* ===================================================================== *)
(** * Specifications                                                        *)
(* ===================================================================== *)

(** The notions the properties are stated with, and the sample inputs the
    properties are evaluated at. *)

(** ** Values of binary64 numbers

    The notions the facts about [float64] arithmetic are stated with. *)
Module FloatSpec.

(** A shifted mantissa has lost a non-zero bit. *)
Definition inexact (x : shr_record) : bool := shr_r x || shr_s x.

(** [y] is [x] shifted right by [k] bits. *)
Definition shr_rel (k : Z) (x y : shr_record) : Prop :=
  shr_m y = shr_m x / 2 ^ k /\
  (inexact y = true -> shr_m x mod 2 ^ k <> 0 \/ inexact x = true).

(** [sc m e] is the value [m * 2^e] scaled by [2^4000], an integer for every
    exponent the operations on binary64 numbers meet. *)
Definition sc (m e : Z) : Z := m * 2 ^ (e + 4000).

(** [x] is [+0] or a positive finite number of exponent at most [eB] and of
    value at most [mB * 2^eB]. *)
Definition fle (x : spec_float) (mB eB : Z) : Prop :=
  x = S754_zero false \/
  exists m e, x = S754_finite false m e /\ -1074 <= e <= eB /\
              sc (Z.pos m) e <= sc mB eB.

End FloatSpec.

Module Spec.
Import GoStrings GoFloat Strconv GoTime Models Config Optimizations Stages Converter
       Quality EngineM Handler.

(** ** Keeping the first record per key

    Both deduplication passes are the same loop over a different key. *)
Section KeepFirst.
Context {A : Type}.
Variable key : A -> string.

(** The loop shared by the two passes. *)
Fixpoint dedup_loop (seen : gmap string bool) (unique l : list A) : list A :=
  match l with
  | [] => unique
  | x :: rest =>
      if negb (seen_get seen (key x))
      then dedup_loop (<[key x := true]> seen) (unique ++ [x]) rest
      else dedup_loop seen unique rest
  end.

(** The elements of [l] whose key occurs neither in [seen] nor earlier
    in [l]. *)
Fixpoint keepFirst (seen : list string) (l : list A) : list A :=
  match l with
  | [] => []
  | x :: rest =>
      if decide (key x ∈ seen) then keepFirst seen rest
      else x :: keepFirst (key x :: seen) rest
  end.

(** The map [seen] holds exactly the keys of [ks]. *)
Definition agrees (seen : gmap string bool) (ks : list string) : Prop :=
  ∀ k, seen_get seen k = true ↔ k ∈ ks.

End KeepFirst.

(** Two records with different identifiers and different countries whose
    composite keys coincide: the colon that ends the identifier of the
    first is read as part of the country of the second. *)
Definition txA : Transaction :=
  mkTransaction "ORD:7" "Kenya" "East" "Widget" 1999 1 (Unix 1710503445 0).
Definition txB : Transaction :=
  mkTransaction "ORD" "7:Kenya" "East" "Widget" 1999 1 (Unix 1710503445 0).

Definition no_colon (s : string) : Prop := Contains s ":" = false.

(** The engine that [NewFlexibleDataHandler] builds from the default
    configuration, with stand-ins for the stages that are kept abstract. *)
Definition defaultEngine : Engine unit (gmap string bool) :=
  NewDataTransformationEngine CurrencyNormalization CurrencyNormalization
    CurrencyNormalization CurrencyNormalization
    (fun tx st => (RequiredFieldValidator_check tx, st)) getDefaultConfig.

(** ** Format detection *)

(** The format a known extension stands for. *)
Definition formatOfExtension (ext : string) : option DataFormat :=
  if String.eqb ext ".csv" then Some FormatCSV
  else if String.eqb ext ".tsv" then Some FormatTSV
  else if String.eqb ext ".json" then Some FormatJSON
  else if String.eqb ext ".yaml" || String.eqb ext ".yml" then Some FormatYAML
  else if String.eqb ext ".xml" then Some FormatXML
  else None.

(** The tests on the trimmed content, as propositions. *)
Definition begins (s p : string) : Prop := ∃ r, s = p +:+ r.
Definition ends (s p : string) : Prop := ∃ l, s = l +:+ p.
Definition contains (s sub : string) : Prop := ∃ l r, s = l +:+ sub +:+ r.

Definition looksJSON (s : string) : Prop :=
  (begins s "{" ∧ ends s "}") ∨ (begins s "[" ∧ ends s "]").
Definition looksXML (s : string) : Prop := begins s "<" ∧ contains s ">".
Definition looksYAML (s : string) : Prop :=
  contains s ":" ∧ (contains s (String (byte_of 10) "-") ∨ contains s "---").
Definition looksTSV (s : string) : Prop :=
  contains s (String (byte_of 9) EmptyString).

(** The decision order on the content. *)
Definition classified (s : string) (format : DataFormat) : Prop :=
  match format with
  | FormatJSON => looksJSON s
  | FormatXML => ¬ looksJSON s ∧ looksXML s
  | FormatYAML => ¬ looksJSON s ∧ ¬ looksXML s ∧ looksYAML s
  | FormatTSV => ¬ looksJSON s ∧ ¬ looksXML s ∧ ¬ looksYAML s ∧ looksTSV s
  | FormatCSV => ¬ looksJSON s ∧ ¬ looksXML s ∧ ¬ looksYAML s ∧ ¬ looksTSV s
  end.

(** The claim on format detection as it is worded: only [.csv], [.tsv],
    [.json], [.yaml] and [.yml] are known extensions, any other file name is
    classified by its content. *)
Definition claimed_knownExtension (ext : string) : option DataFormat :=
  if String.eqb ext ".csv" then Some FormatCSV
  else if String.eqb ext ".tsv" then Some FormatTSV
  else if String.eqb ext ".json" then Some FormatJSON
  else if String.eqb ext ".yaml" || String.eqb ext ".yml" then Some FormatYAML
  else None.

Definition claimed_detect (unicode_ToLower : Z -> Z) (filePath content : string)
    : DataFormat :=
  match claimed_knownExtension (ToLower unicode_ToLower (Ext filePath)) with
  | Some format => format
  | None => DetectFormat content
  end.

(** A readable file holding comma-separated text. *)
Definition commaFile : OpenFile :=
  mkOpenFile ("id,price" +:+ newline +:+ "T1,5" +:+ newline) None
             (mkReader (fun _ => []) (Err "") (Err "")).

(** ** Column mapping *)

(** A header token as the mapping sees it: trimmed, then lower-cased. *)
Definition normalize (unicode_ToLower : Z -> Z) (col : string) : string :=
  ToLower unicode_ToLower (TrimSpace col).

(** The token [tok] defines the key [k]: it is the key itself, or [k] is a
    canonical field and [tok] one of its synonyms. *)
Definition matches (k tok : string) : Prop :=
  tok = k ∨ ∃ vars, (k, vars) ∈ columnVariations ∧ tok ∈ vars.

Definition matchesb_in (table : list (string * list string)) (k tok : string)
    : bool :=
  String.eqb tok k ||
  existsb (fun entry => String.eqb entry.1 k && existsb (String.eqb tok) entry.2)
          table.

Definition matchesb (k tok : string) : bool := matchesb_in columnVariations k tok.

(** The index, counted from [i], of the last element of [l] that satisfies
    [P]; [acc] when there is none. *)
Fixpoint lastIndex_from (P : string -> bool) (i : nat) (l : list string)
    (acc : option nat) : option nat :=
  match l with
  | [] => acc
  | x :: rest => lastIndex_from P (S i) rest (if P x then Some i else acc)
  end.

(** The claim on column mapping as it is worded: for a canonical field, the
    first synonym in table order that occurs in the header wins, and the
    field is mapped to the column of that synonym. *)
Fixpoint indexOf (tok : string) (i : nat) (l : list string) : option nat :=
  match l with
  | [] => None
  | x :: rest => if String.eqb x tok then Some i else indexOf tok (S i) rest
  end.

Fixpoint claimed_firstSynonym (tokens : list string) (synonyms : list string)
    : option nat :=
  match synonyms with
  | [] => None
  | syn :: rest =>
      match indexOf syn 0 tokens with
      | Some i => Some i
      | None => claimed_firstSynonym tokens rest
      end
  end.

Definition claimed_column (unicode_ToLower : Z -> Z) (header : list string)
    (field : string) : option nat :=
  claimed_firstSynonym (normalize unicode_ToLower <$> header)
    (default [] ((list_to_map columnVariations : gmap string (list string)) !! field)).

(** What [getFieldValue] returns for a value found under a key. *)
Definition rendered (Sprint_v : Value -> string) (v : Value) : string :=
  match v with
  | VString str => str
  | _ => Sprint_v v
  end.

(** The number [getFieldNumericValue] takes a value for: a [float64], an
    [int] or an [int64], or a string that [strconv.ParseFloat] accepts; any
    other value is no number for it. *)
Definition numeric (v : Value) : option float64 :=
  match v with
  | VFloat x => Some x
  | VInt n | VInt64 n => Some (f64_of_Z n)
  | VString s => match ParseFloat s with Ok x => Some x | Err _ => None end
  | _ => None
  end.

(** A JSON record whose first synonym of the price holds no number. *)
Definition mispricedRecord : gmap string Value :=
  list_to_map [ ("id", VString "T1"); ("product", VString "Widget");
                ("price", VString "abc"); ("unit_price", VFloat (f64_of_Z 5));
                ("date", VString "1710503445") ].

(** A JSON record that names its identifier [order_id]. *)
Definition orderRecord : gmap string Value :=
  list_to_map [ ("order_id", VString "T1"); ("product", VString "Widget");
                ("price", VFloat (f64_of_Z 5)); ("date", VString "2024-03-15") ].

(** ** Date parsing *)

(** [time.Parse] on a value that no layout accepts. A string of digits with
    an optional sign is such a value for the layouts of the default
    configuration and the fixed additional ones: each of them begins with a
    month or weekday name, or asks for a separator after at most four
    digits. *)
Definition noLayoutParses : string -> string -> option Time := fun _ _ => None.

(** A record whose timestamp is the parsed Unix time [-62135596800]: the
    zero instant of [time.Time], presented in local time. *)
Definition zeroInstantRecord : Transaction :=
  mkTransaction "T1" "Kenya" "East" "Widget" 1999 1 (Unix (-62135596800) 0).

(** ** Validation switched off *)










(** A validator that rejects every record. *)
Definition rejectAll : Validator unit :=
  mkValidator "RejectAll" (fun tx st => (tx, Some "rejected", st)).

(** A handler with validation enabled whose only validator rejects every
    record, and without optimizations. *)
Definition rejectingHandler : FlexibleDataHandler unit unit :=
  mkHandler (mkEngine [CurrencyNormalization; DateNormalization] [rejectAll] []
                      getDefaultConfig)
            (mkConfig true false [] [] [] "" "" (f64_of_Z 100) ∅ ∅).

(** ** Records dropped at parsing *)

Definition parsed {A} (r : Result A) : option A :=
  match r with Ok a => Some a | Err _ => None end.

Definition failed {A} (r : Result A) : bool := negb (is_Ok r).

(** The field extraction at the head of [transformRecord], up to the loop
    over the transformations. *)
Definition extractFields (unicode_ToLower : Z -> Z)
    (strings_Title : string -> string)
    (time_Parse : string -> string -> option Time)
    {TS VS} (e : Engine TS VS)
    (record : list string) (columnMap : gmap string nat) : Result Transaction :=
  let col := column record columnMap in
  let id := match col "transaction_id" with
            | Some v => cleanString e v | None => "" end in
  let country :=
    match col "country" with
    | Some v => mapCountry unicode_ToLower e (cleanString e v) | None => "" end in
  let region :=
    match col "region" with
    | Some v => mapRegion unicode_ToLower e (cleanString e v) | None => "" end in
  let productName :=
    match col "product_name" with
    | Some v => normalizeProductName unicode_ToLower strings_Title e v
    | None => "" end in
  match match col "price" with
        | Some v =>
            match parsePrice e v with
            | Err err => Err ("invalid price '" +:+ v +:+ "': " +:+ err)
            | Ok price => Ok price
            end
        | None => Ok 0
        end with
  | Err err => Err err
  | Ok price =>
  match match col "quantity" with
        | Some v =>
            match Strconv.ParseInt (cleanString e v) with
            | Err err => Err ("invalid quantity '" +:+ v +:+ "': " +:+ err)
            | Ok quantity => Ok quantity
            end
        | None => Ok 0
        end with
  | Err err => Err err
  | Ok quantity =>
  match match col "transaction_date" with
        | Some v =>
            match parseDate time_Parse e v with
            | Err err => Err ("invalid date '" +:+ v +:+ "': " +:+ err)
            | Ok date => Ok date
            end
        | None => Ok zeroTime
        end with
  | Err err => Err err
  | Ok date => Ok (mkTransaction id country region productName price quantity date)
  end end end.

(** The handler that [NewFlexibleDataHandler] builds from the default
    configuration. *)
Definition defaultHandler : FlexibleDataHandler unit (gmap string bool) :=
  mkHandler defaultEngine getDefaultConfig.

(** A CSV input of one record, whose identifier is empty. *)
Definition idlessReads : list (Result (list string)) :=
  [ Ok ["transaction_id"; "product_name"; "price"]; Ok [""; "Widget"; "5"] ].

Definition idlessFile : OpenFile :=
  mkOpenFile "" None (mkReader (fun _ => idlessReads) (Err "") (Err "")).

(** ** Completeness, in the words of the specification *)

(** The seven canonical fields, under the names the scorer gives them. *)
Definition canonicalFields : list string :=
  ["id"; "country"; "region"; "product_name"; "price"; "quantity"; "date"].

(** A field of a record is present: a non-empty string, a price or a
    quantity above zero, a timestamp that is not the zero instant. *)
Definition present (field : string) (tx : Transaction) : bool :=
  if String.eqb field "id" then negb (String.eqb (ID tx) "")
  else if String.eqb field "country" then negb (String.eqb (Country tx) "")
  else if String.eqb field "region" then negb (String.eqb (Region tx) "")
  else if String.eqb field "product_name" then negb (String.eqb (ProductName tx) "")
  else if String.eqb field "price" then 0 <? UnitPriceCents tx
  else if String.eqb field "quantity" then 0 <? Quantity tx
  else if String.eqb field "date" then negb (IsZero (TxTime tx))
  else false.

Definition presentCount (field : string) (txs : list Transaction) : Z :=
  Z.of_nat (length (List.filter (present field) txs)).

(** The fraction of the records in which the field is present. *)
Definition fraction (txs : list Transaction) (field : string) : float64 :=
  f64_div (f64_of_Z (presentCount field txs)) (f64_of_Z (Z.of_nat (length txs))).

(** The arithmetic mean of the fractions of the seven fields, added up in
    the order [fields]. *)
Definition meanOf (fields : list string) (txs : list Transaction) : float64 :=
  f64_div (foldl f64_add f64_zero (fraction txs <$> fields)) (f64_of_Z 7).

(** A batch of two records, both without a region. *)
Definition regionlessBatch : list Transaction :=
  [ mkTransaction "T1" "Sri Lanka" "" "Widget" 500 2 zeroTime;
    mkTransaction "T2" "" "" "Gadget" 0 1 (mkTime 63000000000 0 UTC) ].

(** ** Calling a validator on the records of a batch *)

(** The records a validator accepts when it is called on the records of a
    batch in turn, and the state it is left in. *)
Fixpoint acceptedBy {VS} (v : Validator VS) (txs : list Transaction) (st : VS)
    : list Transaction * VS :=
  match txs with
  | [] => ([], st)
  | tx :: rest =>
      let '(_, r, st) := V_Validate v tx st in
      let '(accepted, st) := acceptedBy v rest st in
      (match r with None => tx :: accepted | Some _ => accepted end, st)
  end.

(** A batch of two records in which every field is present. *)
Definition completeBatch : list Transaction :=
  [ mkTransaction "T1" "Sri Lanka" "Western" "Widget" 500 2 (mkTime 63000000000 0 UTC);
    mkTransaction "T2" "Kenya" "East" "Gadget" 1999 1 (mkTime 63000000001 0 UTC) ].

(** An item of a decoded array that is an object. *)
Definition isObject (item : Value) : bool :=
  match item with VMapS _ | VMapI _ _ => true | _ => false end.

(** A record in which every field is present and the numbers are
    positive. *)
Definition cleanRecord (tx : Transaction) : Prop :=
  ID tx ≠ "" ∧ Country tx ≠ "" ∧ Region tx ≠ "" ∧ ProductName tx ≠ "" ∧
  0 < UnitPriceCents tx ∧ 0 < Quantity tx ∧ IsZero (TxTime tx) = false.

(** A batch of clean records with pairwise distinct identifiers. *)
Definition cleanBatch (txs : list Transaction) : Prop :=
  Forall cleanRecord txs ∧ NoDup (ID <$> txs).

(** The two counters of missing required text fields, as one step of the
    loop of [identifyDataQualityIssues]. *)
Definition missingStep (m : gmap string Z) (tx : Transaction) : gmap string Z :=
  when (String.eqb (ProductName tx) "") (incr "product_name")
       (when (String.eqb (ID tx) "") (incr "transaction_id") m).

(** A CSV input of one complete record, and a file that holds it. *)
Definition salesReads : list (Result (list string)) :=
  [ Ok ["transaction_id"; "product_name"; "price"; "transaction_date"];
    Ok ["T1"; "Widget"; "5"; "1710503445"] ].

Definition salesFile : OpenFile :=
  mkOpenFile "" None (mkReader (fun _ => salesReads) (Err "") (Err "")).

End Spec.
(* ===================================================================== *)
(** * Properties                                                            *)
(* ===================================================================== *)

(** ** Keeping the first record per key *)

Module DedupFacts.
Import Models Optimizations Spec.

Section KeepFirst.
Context {A : Type}.
Variable key : A -> string.

Local Abbreviation dedup_loop := (Spec.dedup_loop key).
Local Abbreviation keepFirst := (Spec.keepFirst key).

Lemma agrees_empty : agrees ∅ [].
Proof.
  intros k. unfold seen_get. rewrite lookup_empty. simpl.
  split; [discriminate | by intros ?%elem_of_nil].
Qed.

Lemma agrees_insert seen ks k :
  agrees seen ks -> agrees (<[k := true]> seen) (k :: ks).
Proof.
  intros H k'. unfold seen_get. rewrite elem_of_cons.
  destruct (decide (k = k')) as [->|Hne].
  - rewrite lookup_insert_eq. simpl. tauto.
  - rewrite lookup_insert_ne by done. rewrite <- (H k'). unfold seen_get.
    split; [tauto | intros [?|?]; congruence].
Qed.

Lemma dedup_loop_keepFirst seen ks unique l :
  agrees seen ks -> dedup_loop seen unique l = unique ++ keepFirst ks l.
Proof.
  revert seen ks unique. induction l as [|x l IH]; intros seen ks unique Hag; simpl.
  - by rewrite app_nil_r.
  - destruct (decide (key x ∈ ks)) as [Hin|Hnin].
    + apply Hag in Hin. rewrite Hin. simpl. by apply IH.
    + destruct (seen_get seen (key x)) eqn:Hs.
      * apply Hag in Hs. contradiction.
      * simpl. rewrite (IH _ (key x :: ks)) by by apply agrees_insert.
        by rewrite <- app_assoc.
Qed.

Lemma keepFirst_sublist ks l : sublist (keepFirst ks l) l.
Proof.
  revert ks. induction l as [|x l IH]; intros ks; simpl; [constructor|].
  destruct (decide (key x ∈ ks)); [apply sublist_cons | apply sublist_skip]; apply IH.
Qed.

Lemma keepFirst_keys ks l x : x ∈ keepFirst ks l -> key x ∉ ks.
Proof.
  revert ks. induction l as [|y l IH]; intros ks; simpl; [by intros ?%elem_of_nil|].
  destruct (decide (key y ∈ ks)) as [Hin|Hnin].
  - apply IH.
  - rewrite elem_of_cons. intros [->|Hx]; [done|].
    apply IH in Hx. rewrite elem_of_cons in Hx. tauto.
Qed.

Lemma keepFirst_NoDup ks l : NoDup (key <$> keepFirst ks l).
Proof.
  revert ks. induction l as [|x l IH]; intros ks; simpl; [constructor|].
  destruct (decide (key x ∈ ks)); [apply IH|].
  rewrite fmap_cons. constructor; [|apply IH].
  rewrite list_elem_of_fmap. intros (y & Hk & Hy).
  apply keepFirst_keys in Hy. rewrite elem_of_cons in Hy. apply Hy. by left.
Qed.

(** Membership: the first occurrences of the keys not seen before. *)
Lemma keepFirst_elem ks l x :
  x ∈ keepFirst ks l <->
  ((key x ∉ ks) ∧
   (∃ i, l !! i = Some x ∧ ∀ j y, (j < i)%nat -> l !! j = Some y -> key y ≠ key x)).
Proof.
  revert ks. induction l as [|a l IH]; intros ks; simpl.
  - split; [by intros ?%elem_of_nil | intros (_ & i & Hi & _); by destruct i].
  - destruct (decide (key a ∈ ks)) as [Hin|Hnin].
    + rewrite IH. split.
      * intros (Hk & i & Hi & Hfirst). split; [done|]. exists (S i). split; [done|].
        intros [|j] y Hj Hy; simpl in *.
        -- injection Hy as <-. intros Heq. rewrite Heq in Hin. contradiction.
        -- apply (Hfirst j y); [lia | done].
      * intros (Hk & [|i] & Hi & Hfirst); simpl in *.
        -- injection Hi as <-. contradiction.
        -- split; [done|]. exists i. split; [done|].
           intros j y Hj Hy. apply (Hfirst (S j) y); [lia | done].
    + rewrite elem_of_cons, IH. split.
      * intros [->|(Hk & i & Hi & Hfirst)].
        -- split; [done|]. exists 0%nat. split; [done|]. intros j y Hj; lia.
        -- rewrite elem_of_cons in Hk. split; [tauto|]. exists (S i). split; [done|].
           intros [|j] y Hj Hy; simpl in *.
           ++ injection Hy as <-. intros Heq. apply Hk. left. by symmetry.
           ++ apply (Hfirst j y); [lia | done].
      * intros (Hk & [|i] & Hi & Hfirst); simpl in *.
        -- injection Hi as <-. by left.
        -- right. split.
           ++ rewrite elem_of_cons. intros [Heq|Hin]; [|done].
              apply (Hfirst 0%nat a); [lia | done | by symmetry].
           ++ exists i. split; [done|].
              intros j y Hj Hy. apply (Hfirst (S j) y); [lia | done].
Qed.

(** Every key of the input that was not seen before survives. *)
Lemma keepFirst_covers ks l k :
  k ∈ (key <$> l) -> k ∉ ks -> k ∈ (key <$> keepFirst ks l).
Proof.
  revert ks. induction l as [|a l IH]; intros ks; simpl; [by intros ?%elem_of_nil|].
  rewrite elem_of_cons. intros Hk Hks.
  destruct (decide (key a ∈ ks)) as [Hin|Hnin].
  - destruct Hk as [->|Hk]; [contradiction|]. by apply IH.
  - simpl. rewrite elem_of_cons.
    destruct (decide (k = key a)) as [->|Hne]; [by left|right].
    destruct Hk as [?|Hk]; [contradiction|]. apply IH; [done|].
    rewrite elem_of_cons. tauto.
Qed.

(** A list without repeated keys is left as it is. *)
Lemma keepFirst_id ks l :
  NoDup (key <$> l) -> (∀ x, x ∈ l -> key x ∉ ks) -> keepFirst ks l = l.
Proof.
  revert ks. induction l as [|a l IH]; intros ks Hnd Hks; simpl; [done|].
  rewrite fmap_cons in Hnd. apply NoDup_cons in Hnd as [Ha Hnd].
  destruct (decide (key a ∈ ks)) as [Hin|Hnin].
  - exfalso. apply (Hks a); [by left | done].
  - f_equal. apply IH; [done|]. intros x Hx. rewrite elem_of_cons.
    intros [Heq|Hin].
    + apply Ha. rewrite list_elem_of_fmap. by exists x.
    + apply (Hks x); [by right | done].
Qed.

End KeepFirst.

Lemma DuplicateRemoval_loop_dedup seen unique l :
  DuplicateRemoval_loop seen unique l = dedup_loop ID seen unique l.
Proof. revert seen unique. induction l as [|x l IH]; intros; simpl; [done|]. by rewrite !IH. Qed.

Lemma DataDeduplication_loop_dedup seen unique l :
  DataDeduplication_loop seen unique l = dedup_loop compositeKey seen unique l.
Proof. revert seen unique. induction l as [|x l IH]; intros; simpl; [done|]. by rewrite !IH. Qed.

Lemma DuplicateRemoval_keepFirst l :
  DuplicateRemoval_Optimize l = keepFirst ID [] l.
Proof.
  unfold DuplicateRemoval_Optimize. rewrite DuplicateRemoval_loop_dedup.
  by rewrite (dedup_loop_keepFirst ID ∅ []) by apply agrees_empty.
Qed.

Lemma DataDeduplication_keepFirst l :
  DataDeduplication_Optimize l = keepFirst compositeKey [] l.
Proof.
  unfold DataDeduplication_Optimize. rewrite DataDeduplication_loop_dedup.
  by rewrite (dedup_loop_keepFirst compositeKey ∅ []) by apply agrees_empty.
Qed.

(** C7: DuplicateRemoval.Optimize returns a sublist of its input (the
    relative order of the survivors is that of the input) in which no
    identifier occurs twice, and a record is in it exactly when it stands at
    the first position of the input that carries its identifier. *)
Theorem DuplicateRemoval_keeps_first_per_ID (transactions : list Transaction) :
  let unique := DuplicateRemoval_Optimize transactions in
  sublist unique transactions ∧
  NoDup (ID <$> unique) ∧
  (∀ id, id ∈ (ID <$> transactions) -> id ∈ (ID <$> unique)) ∧
  (∀ tx, tx ∈ unique <->
         ∃ i, transactions !! i = Some tx ∧
              ∀ j tx', (j < i)%nat -> transactions !! j = Some tx' -> ID tx' ≠ ID tx).
Proof.
  cbv zeta. rewrite DuplicateRemoval_keepFirst.
  assert (Hmem : ∀ tx, tx ∈ keepFirst ID [] transactions <->
            ∃ i, transactions !! i = Some tx ∧
              ∀ j tx', (j < i)%nat -> transactions !! j = Some tx' -> ID tx' ≠ ID tx).
  { intros tx. rewrite keepFirst_elem. split; [tauto|].
    intros H. split; [by intros ?%elem_of_nil | done]. }
  split; [apply keepFirst_sublist|]. split; [apply keepFirst_NoDup|]. split; [|done].
  intros id Hid. apply keepFirst_covers; [done | by intros ?%elem_of_nil].
Qed.

End DedupFacts.

(** ** The composite key of DataDeduplication *)

(** ** The composite key of DataDeduplication *)

Module CompositeKeyFacts.
Import GoStrings GoTime Models Optimizations Spec DedupFacts.

(** C10, at the failing input: DuplicateRemoval keeps both records, whose
    identifiers differ, and DataDeduplication run on its output then drops
    the second one. *)
Theorem DataDeduplication_drops_record_with_distinct_ID :
  ID txA ≠ ID txB ∧
  compositeKey txA = compositeKey txB ∧
  DuplicateRemoval_Optimize [txA; txB] = [txA; txB] ∧
  DataDeduplication_Optimize (DuplicateRemoval_Optimize [txA; txB]) = [txA] ∧
  IndexOptimization_Optimize
    (DataDeduplication_Optimize (DuplicateRemoval_Optimize [txA; txB])) = [txA].
Proof. repeat split; [discriminate | vm_compute; reflexivity ..]. Qed.

(** The identifier is recovered from the key when it holds no colon. *)
Lemma no_colon_cons c s : no_colon (String c s) -> c ≠ ":"%char ∧ no_colon s.
Proof.
  unfold no_colon. cbn [Contains HasPrefix]. intros H.
  apply orb_false_iff in H as [H1 H2]. split; [|done].
  intros ->. simpl in H1. discriminate.
Qed.

Lemma colon_split s1 s2 r1 r2 :
  no_colon s1 -> no_colon s2 ->
  s1 +:+ ":" +:+ r1 = s2 +:+ ":" +:+ r2 -> s1 = s2.
Proof.
  revert s2. induction s1 as [|c s1 IH]; intros [|d s2] H1 H2 Heq; simpl in *.
  - done.
  - injection Heq as Hc _. apply no_colon_cons in H2 as [Hd _]. congruence.
  - injection Heq as Hc _. apply no_colon_cons in H1 as [Hd _]. congruence.
  - injection Heq as -> Heq. apply no_colon_cons in H1 as [_ H1].
    apply no_colon_cons in H2 as [_ H2]. f_equal. by apply IH.
Qed.

Lemma compositeKey_ID tx1 tx2 :
  no_colon (ID tx1) -> no_colon (ID tx2) ->
  compositeKey tx1 = compositeKey tx2 -> ID tx1 = ID tx2.
Proof. unfold compositeKey. apply colon_split. Qed.

Lemma NoDup_fmap_key {A} (f g : A -> string) (l : list A) :
  (∀ x y, x ∈ l -> y ∈ l -> g x = g y -> f x = f y) ->
  NoDup (f <$> l) -> NoDup (g <$> l).
Proof.
  induction l as [|a l IH]; intros Hfg Hnd; simpl in *; [constructor|].
  apply NoDup_cons in Hnd as [Ha Hnd]. constructor.
  - rewrite list_elem_of_fmap. intros (y & Hgy & Hy). apply Ha.
    rewrite list_elem_of_fmap. exists y. split; [|done].
    apply Hfg; [by left | by right | done].
  - apply IH; [|done]. intros x y Hx Hy. apply Hfg; by right.
Qed.

(** When no identifier holds a colon, the composite-key pass run after
    DuplicateRemoval removes nothing. *)
Lemma DataDeduplication_after_DuplicateRemoval_no_colon (transactions : list Transaction) :
  (∀ tx, tx ∈ transactions -> no_colon (ID tx)) ->
  DataDeduplication_Optimize (DuplicateRemoval_Optimize transactions)
  = DuplicateRemoval_Optimize transactions.
Proof.
  intros Hnc. rewrite DataDeduplication_keepFirst, DuplicateRemoval_keepFirst.
  apply keepFirst_id; [|by intros ? _ ?%elem_of_nil].
  assert (Hsub : ∀ x, x ∈ keepFirst ID [] transactions -> x ∈ transactions).
  { intros x Hx. eapply elem_of_submseteq; [exact Hx|].
    apply sublist_submseteq, keepFirst_sublist. }
  apply (NoDup_fmap_key ID); [|apply keepFirst_NoDup].
  intros x y Hx Hy. apply compositeKey_ID; apply Hnc, Hsub; done.
Qed.

End CompositeKeyFacts.

(** ** Arithmetic of binary64 numbers

    Upper bounds for the results of the conversion from integers, of the
    division and of the addition, read off the definitions of [SpecFloat]. *)

Module FloatFacts.
Import FloatSpec.

#[local] Abbreviation fexp := (SpecFloat.fexp 53 1024).

Lemma fexp_eq e : fexp e = Z.max (e - 53) (-1074).
Proof. reflexivity. Qed.

Lemma fexp_mono a b : a <= b -> fexp a <= fexp b.
Proof. rewrite !fexp_eq. lia. Qed.

Lemma digits2_size p : digits2_pos p = Pos.size p.
Proof. induction p; simpl; congruence. Qed.

Lemma Zdigits2_bounds m : 0 < m -> 2 ^ (Zdigits2 m - 1) <= m < 2 ^ Zdigits2 m.
Proof.
  destruct m as [|p|p]; try lia. intros _. cbn [Zdigits2]. rewrite digits2_size.
  pose proof (Pos.size_gt p) as Hgt. pose proof (Pos.size_le p) as Hle.
  assert (H1 : Z.pos p < 2 ^ Z.pos (Pos.size p)).
  { apply Pos2Z.pos_lt_pos in Hgt. rewrite Pos2Z.inj_pow in Hgt. exact Hgt. }
  assert (H2 : 2 ^ Z.pos (Pos.size p) <= 2 * Z.pos p).
  { apply Pos2Z.pos_le_pos in Hle. rewrite Pos2Z.inj_pow in Hle. exact Hle. }
  split; [|exact H1].
  assert (H3 : 2 ^ Z.pos (Pos.size p) = 2 ^ (Z.pos (Pos.size p) - 1) * 2).
  { rewrite Z.mul_comm, <- Z.pow_succ_r by lia. f_equal. lia. }
  lia.
Qed.

Lemma Zdigits2_nonneg m : 0 <= Zdigits2 m.
Proof. destruct m; simpl; lia. Qed.

Lemma Zdigits2_pos m : 0 < m -> 0 < Zdigits2 m.
Proof. destruct m; simpl; lia. Qed.

(** A number below [2 ^ d] has at most [d] digits. *)
Lemma Zdigits2_le_of_lt m d : 0 <= d -> 0 <= m < 2 ^ d -> Zdigits2 m <= d.
Proof.
  intros Hd [H0 Hm]. destruct (Z.eq_dec m 0) as [->|Hne]; [simpl; lia|].
  pose proof (Zdigits2_bounds m ltac:(lia)) as [Hlo _].
  destruct (Z.le_gt_cases (Zdigits2 m) d) as [|Hgt]; [done|].
  assert (2 ^ d <= 2 ^ (Zdigits2 m - 1)) by (apply Z.pow_le_mono_r; lia). lia.
Qed.

Lemma Zdigits2_ge_of_le m d : 0 <= d -> 2 ^ d <= m -> d + 1 <= Zdigits2 m.
Proof.
  intros Hd Hm. assert (0 < m) by (pose proof (Z.pow_pos_nonneg 2 d); lia).
  pose proof (Zdigits2_bounds m ltac:(lia)) as [_ Hhi].
  destruct (Z.le_gt_cases (d + 1) (Zdigits2 m)) as [|Hgt]; [done|].
  assert (2 ^ Zdigits2 m <= 2 ^ d)
    by (apply Z.pow_le_mono_r; pose proof (Zdigits2_nonneg m); lia). lia.
Qed.

(** ** Shifting right *)

Lemma shr_1_spec x :
  0 <= shr_m x ->
  shr_m (shr_1 x) = shr_m x / 2 /\
  (inexact (shr_1 x) = true -> shr_m x mod 2 <> 0 \/ inexact x = true).
Proof.
  destruct x as [m r s]. unfold inexact. simpl. intros Hm.
  destruct m as [|[p|p|]|p]; try lia; simpl.
  - split; [reflexivity|]. rewrite andb_false_l || idtac. intros H; right; exact H.
  - split; [rewrite Pos2Z.inj_xI; rewrite Z.add_comm, Z.mul_comm, Z.div_add by lia; reflexivity|].
    intros _. left. rewrite Pos2Z.inj_xI. rewrite Z.add_comm, Z.mul_comm, Z.mod_add by lia.
    discriminate.
  - split; [rewrite Pos2Z.inj_xO, Z.mul_comm, Z.div_mul by lia; reflexivity|].
    intros H. right. exact H.
  - split; [reflexivity|]. intros _. left. discriminate.
Qed.

Lemma pow2_pos k : 0 <= k -> 0 < 2 ^ k.
Proof. intros. apply Z.pow_pos_nonneg; lia. Qed.

Lemma shr_rel_trans a b x y z :
  0 <= a -> 0 <= b ->
  shr_rel a x y -> shr_rel b y z -> shr_rel (a + b) x z.
Proof.
  intros Ha Hb [H1 H1'] [H2 H2'].
  pose proof (pow2_pos a Ha) as Pa. pose proof (pow2_pos b Hb) as Pb.
  assert (Hdiv : forall m, m mod 2 ^ (a + b) = 0 ->
            m mod 2 ^ a = 0 /\ (m / 2 ^ a) mod 2 ^ b = 0).
  { intros m Hm. rewrite Z.pow_add_r in Hm by lia.
    apply Z.mod_divide in Hm; [|lia]. destruct Hm as [c Hc]. subst m. split.
    - apply Z.mod_divide; [lia|]. exists (c * 2 ^ b). ring.
    - replace (c * (2 ^ a * 2 ^ b)) with (c * 2 ^ b * 2 ^ a) by ring.
      rewrite Z.div_mul by lia. apply Z.mod_mul. lia. }
  split.
  - rewrite H2, H1, Z.pow_add_r, Z.div_div by lia. reflexivity.
  - intros Hz. destruct (H2' Hz) as [Hm|Hy].
    + left. intros Hzero. apply Hm. rewrite H1. apply Hdiv, Hzero.
    + destruct (H1' Hy) as [Hm|Hx]; [left|right; exact Hx].
      intros Hzero. apply Hm. apply Hdiv, Hzero.
Qed.

Lemma shr_rel_nonneg k x y : 0 <= k -> 0 <= shr_m x -> shr_rel k x y -> 0 <= shr_m y.
Proof.
  intros Hk Hx [H _]. rewrite H. apply Z.div_pos; [lia | apply pow2_pos, Hk].
Qed.

Lemma shr_1_rel x : 0 <= shr_m x -> shr_rel 1 x (shr_1 x).
Proof. intros Hx. destruct (shr_1_spec x Hx) as [H1 H2]. split; [exact H1 | exact H2]. Qed.

Lemma iter_pos_shr p x : 0 <= shr_m x -> shr_rel (Z.pos p) x (SpecFloat.iter_pos shr_1 p x).
Proof.
  revert x. induction p as [p IH|p IH|]; intros x Hx; cbn [SpecFloat.iter_pos].
  - pose proof (shr_1_rel x Hx) as R1.
    pose proof (shr_rel_nonneg 1 _ _ ltac:(lia) Hx R1) as N1.
    pose proof (IH _ N1) as R2.
    pose proof (shr_rel_nonneg (Z.pos p) _ _ ltac:(lia) N1 R2) as N2.
    pose proof (IH _ N2) as R3.
    replace (Z.pos p~1) with (1 + Z.pos p + Z.pos p) by lia.
    eapply shr_rel_trans; [lia | lia | | exact R3].
    eapply shr_rel_trans; [lia | lia | exact R1 | exact R2].
  - pose proof (IH _ Hx) as R1.
    pose proof (shr_rel_nonneg (Z.pos p) _ _ ltac:(lia) Hx R1) as N1.
    pose proof (IH _ N1) as R2.
    replace (Z.pos p~0) with (Z.pos p + Z.pos p) by lia.
    eapply shr_rel_trans; [lia | lia | exact R1 | exact R2].
  - apply shr_1_rel, Hx.
Qed.

Lemma shr_spec x e n :
  0 <= shr_m x -> 0 <= n ->
  snd (shr x e n) = e + n /\ shr_rel n x (fst (shr x e n)).
Proof.
  intros Hx Hn. destruct n as [|p|p]; [| |lia]; cbn [shr fst snd].
  - split; [lia|]. split; [rewrite Z.pow_0_r, Z.div_1_r; reflexivity | intros H; right; exact H].
  - split; [reflexivity | apply iter_pos_shr, Hx].
Qed.

Lemma shr_record_of_loc_m m l : shr_m (shr_record_of_loc m l) = m.
Proof. destruct l as [|[]]; reflexivity. Qed.

Lemma shr_record_of_loc_inexact m l :
  inexact (shr_record_of_loc m l) = true -> l <> loc_Exact.
Proof. destruct l as [|[]]; cbn; intros H; [discriminate H | discriminate | discriminate | discriminate]. Qed.

Lemma round_nearest_even_bounds y :
  let m' := round_nearest_even (shr_m y) (loc_of_shr_record y) in
  shr_m y <= m' <= shr_m y + 1 /\ (inexact y = false -> m' = shr_m y).
Proof.
  destruct y as [m r s]; destruct r, s; cbn; unfold inexact; cbn;
    try destruct (Z.even m); (split; [lia | intros H; first [discriminate H | reflexivity]]).
Qed.

Lemma shr_spec' x e n :
  0 <= shr_m x ->
  snd (shr x e n) = e + Z.max n 0 /\ shr_rel (Z.max n 0) x (fst (shr x e n)).
Proof.
  intros Hx. destruct n as [|p|p]; cbn [shr fst snd].
  - replace (Z.max 0 0) with 0 by reflexivity. split; [lia|].
    split; [rewrite Z.pow_0_r, Z.div_1_r; reflexivity | intros H; right; exact H].
  - replace (Z.max (Z.pos p) 0) with (Z.pos p) by lia.
    split; [reflexivity | apply iter_pos_shr, Hx].
  - replace (Z.max (Z.neg p) 0) with 0 by lia. split; [lia|].
    split; [rewrite Z.pow_0_r, Z.div_1_r; reflexivity | intros H; right; exact H].
Qed.

Lemma sc_shift m e k : -4000 <= e -> 0 <= k -> sc (m * 2 ^ k) e = sc m (e + k).
Proof.
  intros He Hk. unfold sc. replace (e + k + 4000) with (k + (e + 4000)) by lia.
  rewrite (Z.pow_add_r 2 k (e + 4000)) by lia. ring.
Qed.

Lemma sc_le m1 m2 e : -4000 <= e -> (sc m1 e <= sc m2 e <-> m1 <= m2).
Proof.
  intros He. unfold sc. pose proof (pow2_pos (e + 4000) ltac:(lia)).
  symmetry. apply Z.mul_le_mono_pos_r. assumption.
Qed.

Lemma sc_lt m1 m2 e : -4000 <= e -> (sc m1 e < sc m2 e <-> m1 < m2).
Proof.
  intros He. unfold sc. pose proof (pow2_pos (e + 4000) ltac:(lia)).
  symmetry. apply Z.mul_lt_mono_pos_r. assumption.
Qed.

Lemma Zdigits2_lt_pow m : 0 <= m -> m < 2 ^ Zdigits2 m.
Proof.
  intros Hm. destruct (Z.eq_dec m 0) as [->|]; [reflexivity|].
  apply Zdigits2_bounds. lia.
Qed.

Lemma binary_round_aux_le mx ex lx mB eB :
  0 <= mx -> -4000 <= ex -> ex <= fexp (Zdigits2 mx + ex) ->
  0 < mB < 2 ^ 53 -> -1074 <= eB <= 971 ->
  sc mx ex <= sc mB eB -> (lx <> loc_Exact -> sc mx ex < sc mB eB) ->
  fle (binary_round_aux 53 1024 false mx ex lx) mB eB.
Proof.
  intros Hmx Hex Hcan HmB HeB Hle Hlt.
  set (d := Zdigits2 mx) in *. set (c1 := fexp (d + ex)) in *.
  assert (Hc1 : -1074 <= c1) by (unfold c1; rewrite fexp_eq; lia).
  (* the exponent of the input is below that of the bound *)
  assert (Hexb : ex <= eB).
  { destruct (Z_le_gt_dec ex eB) as [|Hgt]; [assumption|exfalso].
    assert (Hd : 53 <= d) by (unfold c1 in Hcan; rewrite fexp_eq in Hcan; lia).
    assert (2 ^ 52 <= mx).
    { destruct (Z.eq_dec mx 0) as [E|]; [subst d; rewrite E in Hd; cbn in Hd; lia|].
      pose proof (Zdigits2_bounds mx ltac:(lia)) as [Hlo _]. fold d in Hlo.
      pose proof (Z.pow_le_mono_r 2 52 (d - 1) ltac:(lia) ltac:(lia)). lia. }
    replace ex with (eB + (ex - eB)) in Hle by lia.
    rewrite <- sc_shift in Hle by lia. apply sc_le in Hle; [|lia].
    pose proof (Z.pow_le_mono_r 2 1 (ex - eB) ltac:(lia) ltac:(lia)).
    change (2 ^ 1) with 2 in *. nia. }
  (* the input, as a multiple of [2^ex] *)
  assert (HK : mx <= mB * 2 ^ (eB - ex) /\ (lx <> loc_Exact -> mx < mB * 2 ^ (eB - ex))).
  { replace eB with (ex + (eB - ex)) in Hle, Hlt by lia.
    rewrite <- sc_shift in Hle, Hlt by lia. split.
    - apply sc_le in Hle; [exact Hle | lia].
    - intros H. specialize (Hlt H). apply sc_lt in Hlt; [exact Hlt | lia]. }
  destruct HK as [HK HKlt].
  assert (Hc1B : c1 <= eB).
  { pose proof (pow2_pos (eB - ex) ltac:(lia)).
    assert (mx < 2 ^ (53 + (eB - ex))) by (rewrite Z.pow_add_r by lia; nia).
    pose proof (Zdigits2_le_of_lt mx (53 + (eB - ex)) ltac:(lia) ltac:(lia)).
    fold d in H1. unfold c1. rewrite fexp_eq. lia. }
  set (n := c1 - ex) in *. assert (Hn : 0 <= n) by (unfold n; lia).
  set (K := mB * 2 ^ (eB - c1)).
  assert (HKn : mB * 2 ^ (eB - ex) = K * 2 ^ n).
  { unfold K, n. replace (eB - ex) with ((eB - c1) + (c1 - ex)) by lia.
    rewrite Z.pow_add_r by lia. ring. }
  rewrite HKn in HK, HKlt.
  pose proof (pow2_pos n Hn) as Hpn.
  unfold binary_round_aux, shr_fexp. fold d. fold c1. fold n.
  pose proof (shr_spec' (shr_record_of_loc mx lx) ex n) as S1.
  rewrite shr_record_of_loc_m in S1. specialize (S1 Hmx).
  destruct (shr (shr_record_of_loc mx lx) ex n) as [y1 e1].
  cbn [fst snd] in S1. destruct S1 as [He1 [Hm1 Hi1]].
  rewrite shr_record_of_loc_m in Hm1, Hi1.
  replace (Z.max n 0) with n in * by lia.
  assert (E1 : e1 = c1) by (unfold n in He1; lia). clear He1. subst e1.
  pose proof (round_nearest_even_bounds y1) as [Hr Hrex]. cbv zeta in Hr, Hrex.
  set (m2 := round_nearest_even (shr_m y1) (loc_of_shr_record y1)) in *.
  assert (Hm1K : shr_m y1 <= K).
  { rewrite Hm1. apply Z.div_le_upper_bound; lia. }
  assert (Hm1nn : 0 <= shr_m y1) by (rewrite Hm1; apply Z.div_pos; lia).
  assert (Hm2K : m2 <= K).
  { destruct (inexact y1) eqn:Hin; [|rewrite (Hrex eq_refl); exact Hm1K].
    enough (shr_m y1 < K) by lia. rewrite Hm1.
    apply Z.div_lt_upper_bound; [lia|].
    destruct (Hi1 eq_refl) as [Hmod|Hl].
    - assert (mx <> K * 2 ^ n) by (intros E; apply Hmod; rewrite E; apply Z.mod_mul; lia). lia.
    - apply shr_record_of_loc_inexact in Hl. specialize (HKlt Hl). lia. }
  assert (Hm2nn : 0 <= m2) by lia.
  set (n2 := fexp (Zdigits2 m2 + c1) - c1).
  pose proof (shr_spec' (shr_record_of_loc m2 loc_Exact) c1 n2) as S2.
  rewrite shr_record_of_loc_m in S2. specialize (S2 Hm2nn).
  destruct (shr (shr_record_of_loc m2 loc_Exact) c1 n2) as [y2 e2].
  cbn [fst snd] in S2. destruct S2 as [He2 [Hm3 _]].
  rewrite shr_record_of_loc_m in Hm3.
  set (k2 := Z.max n2 0) in *. assert (Hk2 : 0 <= k2) by (unfold k2; lia).
  pose proof (pow2_pos k2 Hk2) as Hpk2.
  assert (He2B : e2 <= eB).
  { pose proof (pow2_pos (eB - c1) ltac:(lia)).
    assert (m2 < 2 ^ (53 + (eB - c1))) by (rewrite Z.pow_add_r by lia; unfold K in Hm2K; nia).
    pose proof (Zdigits2_le_of_lt m2 (53 + (eB - c1)) ltac:(lia) ltac:(lia)).
    unfold k2, n2 in He2. rewrite fexp_eq in He2. lia. }
  assert (Hval : sc (shr_m y2) e2 <= sc mB eB).
  { rewrite Hm3, He2. rewrite <- sc_shift by lia.
    transitivity (sc m2 c1).
    - apply sc_le; [lia|]. rewrite Z.mul_comm. apply Z.mul_div_le. lia.
    - transitivity (sc K c1); [apply sc_le; [lia | exact Hm2K]|].
      unfold K. rewrite sc_shift by lia. replace (c1 + (eB - c1)) with eB by lia. lia. }
  assert (Hm3nn : 0 <= shr_m y2) by (rewrite Hm3; apply Z.div_pos; lia).
  destruct (shr_m y2) as [|m3|m3] eqn:E3; [left; reflexivity | | lia].
  change (1024 - 53) with 971.
  destruct (Z.leb_spec e2 971) as [_|Hbad]; [|lia].
  right. exists m3, e2. split; [reflexivity|]. split; [lia | exact Hval].
Qed.

Lemma iter_xO_spec m d : Z.pos (Pos.iter xO m d) = Z.pos m * 2 ^ Z.pos d.
Proof.
  induction d as [|d IH] using Pos.peano_ind.
  - cbn [Pos.iter]. rewrite Z.pow_1_r. lia.
  - rewrite Pos.iter_succ, Pos2Z.inj_xO, IH, Pos2Z.inj_succ, Z.pow_succ_r by lia. ring.
Qed.

Lemma shl_align_spec m e e' :
  snd (shl_align m e e') = Z.min e e' /\
  Z.pos (fst (shl_align m e e')) = Z.pos m * 2 ^ (e - Z.min e e').
Proof.
  unfold shl_align. destruct (e' - e) as [|p|p] eqn:E; cbn [fst snd].
  - replace (Z.min e e') with e by lia. rewrite Z.sub_diag, Z.pow_0_r. lia.
  - replace (Z.min e e') with e by lia. rewrite Z.sub_diag, Z.pow_0_r. lia.
  - replace (Z.min e e') with e' by lia. split; [reflexivity|].
    rewrite iter_xO_spec. f_equal. f_equal. lia.
Qed.

Lemma Zdigits2_shift m k : 0 < m -> 0 <= k -> Zdigits2 (m * 2 ^ k) = Zdigits2 m + k.
Proof.
  intros Hm Hk. pose proof (Zdigits2_bounds m Hm) as [Hlo Hhi].
  pose proof (Zdigits2_pos m Hm) as Hd. pose proof (pow2_pos k Hk) as Hp.
  apply Z.le_antisymm.
  - apply Zdigits2_le_of_lt; [lia|]. split; [lia|].
    rewrite Z.pow_add_r by lia. nia.
  - replace (Zdigits2 m + k) with ((Zdigits2 m - 1 + k) + 1) by lia.
    apply Zdigits2_ge_of_le; [lia|]. rewrite Z.pow_add_r by lia. nia.
Qed.

Lemma binary_round_le m e mB eB :
  -4000 <= e -> 0 < mB < 2 ^ 53 -> -1074 <= eB <= 971 ->
  sc (Z.pos m) e <= sc mB eB ->
  fle (binary_round 53 1024 false m e) mB eB.
Proof.
  intros He HmB HeB Hle. unfold binary_round.
  set (e' := SpecFloat.fexp 53 1024 (Z.pos (digits2_pos m) + e)).
  pose proof (shl_align_spec m e e') as [Hez Hmz].
  destruct (shl_align m e e') as [mz ez]. cbn [fst snd] in Hez, Hmz.
  assert (He' : -1074 <= e') by (unfold e'; rewrite fexp_eq; lia).
  assert (Hsc : sc (Z.pos mz) ez = sc (Z.pos m) e).
  { rewrite Hmz, sc_shift by lia. f_equal. lia. }
  apply binary_round_aux_le; try lia.
  - rewrite Hmz, Zdigits2_shift by lia.
    replace (Zdigits2 (Z.pos m) + (e - Z.min e e') + ez) with (Z.pos (digits2_pos m) + e)
      by (cbn [Zdigits2]; lia).
    fold e'. lia.
  - intros H. exfalso. apply H. reflexivity.
Qed.

Lemma binary_round_aux_exact m e :
  fexp (Zdigits2 (Z.pos m) + e) = e -> e <= 971 ->
  binary_round_aux 53 1024 false (Z.pos m) e loc_Exact = S754_finite false m e.
Proof.
  intros Hc He. unfold binary_round_aux, shr_fexp.
  rewrite Hc, Z.sub_diag. cbn [shr shr_record_of_loc shr_m loc_of_shr_record round_nearest_even].
  rewrite Hc, Z.sub_diag. cbn [shr shr_record_of_loc shr_m].
  change (1024 - 53) with 971.
  destruct (Z.leb_spec e 971); [reflexivity | lia].
Qed.

(** Below [2^53] the conversion of an integer is exact. *)
Lemma binary_normalize_exact c :
  0 < c < 2 ^ 53 ->
  exists m e, binary_normalize 53 1024 c 0 false = S754_finite false m e /\
              -52 <= e <= 0 /\ Z.pos m = c * 2 ^ (- e).
Proof.
  intros Hc. destruct c as [|p|p]; [lia | | lia]. cbn [binary_normalize].
  unfold binary_round.
  pose proof (Zdigits2_bounds (Z.pos p) ltac:(lia)) as [Hlo Hhi].
  pose proof (Zdigits2_pos (Z.pos p) ltac:(lia)) as Hd.
  assert (Hd53 : Zdigits2 (Z.pos p) <= 53) by (apply Zdigits2_le_of_lt; lia).
  cbn [Zdigits2] in Hlo, Hhi, Hd, Hd53.
  set (d := Z.pos (digits2_pos p)) in *.
  assert (He' : SpecFloat.fexp 53 1024 (d + 0) = d - 53) by (rewrite fexp_eq; lia).
  rewrite He'.
  pose proof (shl_align_spec p 0 (d - 53)) as [Hez Hmz].
  destruct (shl_align p 0 (d - 53)) as [mz ez]. cbn [fst snd] in Hez, Hmz.
  replace (Z.min 0 (d - 53)) with (d - 53) in * by lia. subst ez.
  exists mz, (d - 53). split; [|split; [lia | rewrite Hmz; f_equal; f_equal; lia]].
  apply binary_round_aux_exact; [|lia].
  rewrite Hmz, Zdigits2_shift by lia. cbn [Zdigits2]. fold d. rewrite fexp_eq. lia.
Qed.

Lemma new_location_Exact nb k : new_location nb k <> loc_Exact -> k <> 0.
Proof.
  intros H ->. apply H. unfold new_location, new_location_even, new_location_odd.
  destruct (Z.even nb); reflexivity.
Qed.

Lemma SFdiv_core_binary_spec m1 e1 m2 e2 :
  0 < m1 -> 0 < m2 ->
  exists q e' l r s,
    SFdiv_core_binary 53 1024 m1 e1 m2 e2 = (q, e', l) /\
    0 <= s /\ e' + s = e1 - e2 /\ Z.min (-1074) (e1 - e2) <= e' /\
    m1 * 2 ^ s = q * m2 + r /\ 0 <= r < m2 /\ 0 <= q /\
    (l <> loc_Exact -> r <> 0) /\
    e' <= fexp (Zdigits2 q + e').
Proof.
  intros H1 H2. unfold SFdiv_core_binary.
  set (d1 := Zdigits2 m1). set (d2 := Zdigits2 m2).
  set (D := d1 + e1 - (d2 + e2)).
  set (e' := Z.min (SpecFloat.fexp 53 1024 D) (e1 - e2)).
  set (s := e1 - e2 - e').
  assert (Hs : 0 <= s) by (unfold s, e'; lia).
  set (m' := match s with Z.pos _ => Z.shiftl m1 s | 0 => m1 | Z.neg _ => 0 end).
  assert (Hm' : m' = m1 * 2 ^ s).
  { unfold m'. destruct s as [|p|p] eqn:E; [rewrite Z.pow_0_r; lia | | lia].
    apply Z.shiftl_mul_pow2. lia. }
  pose proof (Z_div_mod m' m2 ltac:(lia)) as Hdm.
  destruct (Z.div_eucl m' m2) as [q r]. destruct Hdm as [Hqr Hr].
  pose proof (pow2_pos s Hs) as Hps.
  assert (Hq : 0 <= q) by nia.
  exists q, e', (new_location m2 r), r, s.
  split; [reflexivity|]. split; [exact Hs|]. split; [unfold s; lia|].
  split; [unfold e'; rewrite fexp_eq; lia|].
  split; [lia|]. split; [exact Hr|]. split; [exact Hq|].
  split; [apply new_location_Exact|].
  (* the quotient has enough digits *)
  assert (Hdq : d1 - d2 + s <= Zdigits2 q).
  { pose proof (Zdigits2_nonneg q).
    destruct (Z_le_gt_dec (d1 - d2 + s) 0) as [|Hpos]; [lia|].
    pose proof (Zdigits2_bounds m1 H1) as [Hlo1 _]. fold d1 in Hlo1.
    pose proof (Zdigits2_bounds m2 H2) as [_ Hhi2]. fold d2 in Hhi2.
    pose proof (Zdigits2_pos m1 H1). pose proof (Zdigits2_pos m2 H2).
    replace (d1 - d2 + s) with ((d1 - d2 + s - 1) + 1) by lia.
    apply Zdigits2_ge_of_le; [lia|].
    assert (Hpow : 2 ^ (d1 - 1) * 2 ^ s = 2 ^ (d1 - d2 + s - 1) * 2 ^ d2).
    { rewrite <- !Z.pow_add_r by lia. f_equal. lia. }
    pose proof (pow2_pos (d1 - d2 + s - 1) ltac:(lia)) as Hpp.
    assert (Hlow : 2 ^ (d1 - d2 + s - 1) * m2 <= m').
    { rewrite Hm'. transitivity (2 ^ (d1 - 1) * 2 ^ s); [rewrite Hpow|]; nia. }
    destruct (Z_lt_le_dec q (2 ^ (d1 - d2 + s - 1))) as [Hlt|]; [exfalso|assumption].
    nia. }
  transitivity (fexp D); [unfold e'; lia|].
  apply fexp_mono. unfold D, s in *. lia.
Qed.

Lemma sc_pos m e : -4000 <= e -> 0 < m -> 0 < sc m e.
Proof.
  intros He Hm. unfold sc. pose proof (pow2_pos (e + 4000) ltac:(lia)). nia.
Qed.

Lemma SFdiv_le m1 e1 m2 e2 mB eB :
  -1074 <= e1 -> -1074 <= e2 <= 971 ->
  0 < mB < 2 ^ 53 -> -1074 <= eB <= 971 ->
  sc (Z.pos m1) e1 * 2 ^ 4000 <= sc mB eB * sc (Z.pos m2) e2 ->
  fle (SFdiv 53 1024 (S754_finite false m1 e1) (S754_finite false m2 e2)) mB eB.
Proof.
  intros He1 He2 HmB HeB Hle. cbn [SFdiv xorb].
  destruct (SFdiv_core_binary_spec (Z.pos m1) e1 (Z.pos m2) e2 eq_refl eq_refl)
    as (q & e' & l & r & s & -> & Hs & Hes & Hlow & Hqr & Hr & Hq & Hl & Hcan).
  assert (He' : -4000 <= e') by lia.
  pose proof (sc_pos (Z.pos m2) e2 ltac:(lia) eq_refl) as HW.
  assert (Hkey : sc q e' * sc (Z.pos m2) e2 <= sc (Z.pos m1) e1 * 2 ^ 4000 /\
                 (r <> 0 -> sc q e' * sc (Z.pos m2) e2 < sc (Z.pos m1) e1 * 2 ^ 4000)).
  { clear Hle HW. unfold sc.
    replace (e1 + 4000) with (s + (e' + 4000) + e2) by lia.
    set (A := 2 ^ (e' + 4000)). set (B := 2 ^ (e2 + 4000)).
    assert (HA : 0 < A) by (apply pow2_pos; lia).
    assert (HB : 0 < B) by (apply pow2_pos; lia).
    assert (HE : 2 ^ (s + (e' + 4000) + e2) * 2 ^ 4000 = 2 ^ s * (A * B)).
    { unfold A, B. rewrite <- !Z.pow_add_r by lia. f_equal. lia. }
    rewrite <- (Z.mul_assoc (Z.pos m1)), HE.
    replace (q * A * (Z.pos m2 * B)) with (q * Z.pos m2 * (A * B)) by ring.
    rewrite (Z.mul_assoc (Z.pos m1)), Hqr.
    assert (HAB : 0 < A * B) by (apply Z.mul_pos_pos; assumption).
    clearbody A B. split.
    - apply Z.mul_le_mono_nonneg_r; lia.
    - intros Hr0. apply Z.mul_lt_mono_pos_r; lia. }
  destruct Hkey as [Hk1 Hk2].
  apply binary_round_aux_le; try assumption.
  - apply (Z.mul_le_mono_pos_r _ _ (sc (Z.pos m2) e2)); [exact HW|].
    etransitivity; [exact Hk1 | exact Hle].
  - intros Hne. specialize (Hk2 (Hl Hne)).
    apply (Z.mul_lt_mono_pos_r (sc (Z.pos m2) e2)); [exact HW|].
    eapply Z.lt_le_trans; [exact Hk2 | exact Hle].
Qed.

Lemma sc_add a b e : sc (a + b) e = sc a e + sc b e.
Proof. unfold sc. ring. Qed.

Lemma fle_mono x a b e : a <= b -> fle x a e -> fle x b e.
Proof.
  intros Hab [->|(m & e' & -> & He & Hle)]; [left; reflexivity|].
  right. exists m, e'. split; [reflexivity|]. split; [exact He|].
  etransitivity; [exact Hle|]. unfold sc.
  destruct (Z_le_gt_dec 0 (e + 4000)) as [H|H].
  - pose proof (pow2_pos _ H). nia.
  - rewrite Z.pow_neg_r by lia. lia.
Qed.

Lemma SFadd_le x y a b :
  fle x a 0 -> fle y b 0 -> 0 <= a -> 0 <= b -> a + b < 2 ^ 53 ->
  fle (SFadd 53 1024 x y) (a + b) 0.
Proof.
  intros [->|(mx & ex & -> & Hex & Hx)] [->|(my & ey & -> & Hey & Hy)] Ha Hb Hab.
  - left; reflexivity.
  - cbn [SFadd]. apply (fle_mono _ b); [lia|].
    right. exists my, ey. split; [reflexivity|]. split; assumption.
  - cbn [SFadd]. apply (fle_mono _ a); [lia|].
    right. exists mx, ex. split; [reflexivity|]. split; assumption.
  - cbn [SFadd cond_Zopp].
    set (ez := Z.min ex ey).
    pose proof (shl_align_spec mx ex ez) as [_ H1].
    pose proof (shl_align_spec my ey ez) as [_ H2].
    replace (Z.min ex ez) with ez in H1 by (unfold ez; lia).
    replace (Z.min ey ez) with ez in H2 by (unfold ez; lia).
    assert (Hez : -1074 <= ez <= 0) by (unfold ez; lia).
    set (p1 := fst (shl_align mx ex ez)) in *.
    set (p2 := fst (shl_align my ey ez)) in *.
    change (Z.pos p1 + Z.pos p2) with (Z.pos (p1 + p2)).
    cbn [binary_normalize].
    pose proof (sc_pos (Z.pos mx) ex ltac:(lia) ltac:(lia)).
    pose proof (sc_pos (Z.pos my) ey ltac:(lia) ltac:(lia)).
    assert (0 < a).
    { destruct (Z_le_gt_dec a 0); [|lia]. unfold sc in Hx at 2.
      pose proof (pow2_pos (0 + 4000) ltac:(lia)). nia. }
    apply binary_round_le; try lia.
    rewrite Pos2Z.inj_add, !sc_add, H1, H2, !sc_shift by lia.
    replace (ez + (ex - ez)) with ex by lia.
    replace (ez + (ey - ez)) with ey by lia. lia.
Qed.

Lemma binary_normalize_0 : binary_normalize 53 1024 0 0 false = S754_zero false.
Proof. reflexivity. Qed.

(** A fraction [c / n] with [0 <= c <= n < 2^53] is at most one. *)
Lemma fraction_le_1 c n :
  0 <= c <= n -> 0 < n < 2 ^ 53 ->
  fle (SFdiv 53 1024 (binary_normalize 53 1024 c 0 false)
                     (binary_normalize 53 1024 n 0 false)) 1 0.
Proof.
  intros Hc Hn.
  destruct (binary_normalize_exact n Hn) as (mn & en & -> & Hen & Hmn).
  destruct (Z.eq_dec c 0) as [->|Hc0]; [left; reflexivity|].
  destruct (binary_normalize_exact c ltac:(lia)) as (mc & ec & -> & Hec & Hmc).
  apply SFdiv_le; try lia.
  rewrite Hmc, Hmn, !sc_shift by lia.
  replace (ec + - ec) with 0 by lia. replace (en + - en) with 0 by lia.
  unfold sc. change (0 + 4000) with 4000.
  pose proof (pow2_pos 4000 ltac:(lia)). nia.
Qed.

Lemma seven_eq :
  binary_normalize 53 1024 7 0 false = S754_finite false 7881299347898368 (-50).
Proof. reflexivity. Qed.

Lemma one_eq :
  binary_normalize 53 1024 1 0 false = S754_finite false 4503599627370496 (-52).
Proof. reflexivity. Qed.

(** The mean of at most six fractions over seven fields is below one. *)
Lemma mean_lt_1 t :
  fle t 6 0 ->
  SFltb (SFdiv 53 1024 t (binary_normalize 53 1024 7 0 false))
        (binary_normalize 53 1024 1 0 false) = true.
Proof.
  intros Ht. rewrite seven_eq, one_eq.
  assert (Hq : fle (SFdiv 53 1024 t (S754_finite false 7881299347898368 (-50)))
                   (2 ^ 53 - 1) (-53)).
  { destruct Ht as [->|(m & e & -> & He & Hle)]; [left; reflexivity|].
    apply SFdiv_le; try lia.
    assert (Hc : sc 6 0 * 2 ^ 4000 <=
                 sc (2 ^ 53 - 1) (-53) * sc (Z.pos 7881299347898368) (-50)).
    { apply Z.leb_le. vm_compute. reflexivity. }
    etransitivity; [|exact Hc].
    apply Z.mul_le_mono_nonneg_r; [apply Z.lt_le_incl, pow2_pos; lia | exact Hle]. }
  destruct Hq as [->|(m & e & -> & He & _)]; [reflexivity|].
  unfold SFltb, SFcompare.
  destruct (Z.compare_spec e (-52)); [lia | reflexivity | lia].
Qed.

End FloatFacts.

(** ** The quality scorer on an empty record set *)

Module QualityFacts.
Import GoFloat GoTime Models Stages Quality Spec FloatSpec FloatFacts.

(** C8: on an empty record set the scorer returns the zero metrics (every
    score is zero and no field metric is recorded) and performs no division
    at all, in particular none by zero. *)
Theorem calculateDataQuality_empty (order : list string) :
  calculateDataQuality order [] = zeroMetrics ∧
  Completeness (calculateDataQuality order []) = f64_zero ∧
  Consistency (calculateDataQuality order []) = f64_zero ∧
  Validity (calculateDataQuality order []) = f64_zero ∧
  Uniqueness (calculateDataQuality order []) = f64_zero ∧
  FieldMetrics (calculateDataQuality order []) = ∅ ∧
  (calculateDataQuality_run order []).2 = [].
Proof. repeat split. Qed.

(** ** Walking a map *)

Lemma elem_of_iter_order_1 {V} (order : list string) (m : gmap string V) k v :
  (k, v) ∈ omap (fun k => (fun v => (k, v)) <$> m !! k) (remove_dups order) ↔
  k ∈ order ∧ m !! k = Some v.
Proof.
  rewrite list_elem_of_omap. split.
  - intros (k' & Hk' & Hf). rewrite elem_of_remove_dups in Hk'.
    destruct (m !! k') as [v'|] eqn:E; simplify_eq/=. by split.
  - intros [Hk Hm]. exists k. split; [by rewrite elem_of_remove_dups|].
    by rewrite Hm.
Qed.

Lemma NoDup_omap_keys {V} (l : list string) (m : gmap string V) :
  NoDup l → NoDup (omap (fun k => (fun v => (k, v)) <$> m !! k) l).
Proof.
  induction 1 as [|k l Hk Hl IH]; [constructor|]. cbn [omap list_omap].
  destruct (m !! k) as [v|] eqn:E; cbn; [|exact IH].
  constructor; [|exact IH]. rewrite list_elem_of_omap.
  intros (k' & Hk' & Hf). destruct (m !! k') eqn:E'; simplify_eq/=. done.
Qed.

Lemma iter_order_perm {V} (order : list string) (m : gmap string V) :
  iter_order order m ≡ₚ map_to_list m.
Proof.
  unfold iter_order.
  rewrite <- (filter_app_complement (fun kv => kv.1 ∈ order) (map_to_list m)) at 2.
  apply Permutation_app; [|done].
  apply NoDup_Permutation.
  - apply NoDup_omap_keys, NoDup_remove_dups.
  - apply NoDup_filter, NoDup_map_to_list.
  - intros [k v]. rewrite elem_of_iter_order_1, list_elem_of_filter, elem_of_map_to_list.
    done.
Qed.

(** ** The counters of the scorer *)

Lemma lookup_when_incr b k' (m : gmap string Z) k :
  when b (incr k') m !! k =
  if decide (k = k')
  then (if b then Some (default 0 (m !! k') + 1) else m !! k')
  else m !! k.
Proof.
  unfold when, incr. destruct b; case_decide; subst; simplify_map_eq; done.
Qed.

Lemma lookup_when_incr_eqb b k' (m : gmap string Z) k :
  when b (incr k') m !! k =
  if String.eqb k k'
  then (if b then Some (default 0 (m !! k) + 1) else m !! k)
  else m !! k.
Proof.
  rewrite lookup_when_incr. destruct (String.eqb_spec k k') as [->|?];
    case_decide; try done.
Qed.

#[local] Ltac step_counters :=
  repeat (rewrite lookup_when_incr_eqb; cbn [String.eqb Ascii.eqb Bool.eqb]).

Lemma countFields_lookup m tx k :
  countFields m tx !! k =
  if present k tx then Some (default 0 (m !! k) + 1) else m !! k.
Proof.
  unfold countFields, present.
  destruct (String.eqb_spec k "id") as [->|?]; [step_counters; reflexivity|].
  destruct (String.eqb_spec k "country") as [->|?]; [step_counters; reflexivity|].
  destruct (String.eqb_spec k "region") as [->|?]; [step_counters; reflexivity|].
  destruct (String.eqb_spec k "product_name") as [->|?]; [step_counters; reflexivity|].
  destruct (String.eqb_spec k "price") as [->|?]; [step_counters; reflexivity|].
  destruct (String.eqb_spec k "quantity") as [->|?]; [step_counters; reflexivity|].
  destruct (String.eqb_spec k "date") as [->|?]; [step_counters; reflexivity|].
  repeat (rewrite lookup_when_incr_eqb;
          match goal with
          | |- context [String.eqb k ?s] =>
              rewrite (proj2 (String.eqb_neq k s)) by assumption
          end).
  reflexivity.
Qed.

Lemma presentCount_snoc k txs tx :
  presentCount k (txs ++ [tx]) = presentCount k txs + (if present k tx then 1 else 0).
Proof.
  unfold presentCount. rewrite List.filter_app, length_app. cbn [List.filter].
  destruct (present k tx); cbn [length]; lia.
Qed.

Lemma presentCount_bounds k txs : 0 <= presentCount k txs <= Z.of_nat (length txs).
Proof.
  unfold presentCount. pose proof (List.filter_length_le (present k) txs). lia.
Qed.

(** Every counter of the scorer is the number of records in which the field
    is present; a field present in no record has no counter. *)
Lemma completenessScores_lookup txs k :
  completenessScores txs !! k =
  if 0 <? presentCount k txs then Some (presentCount k txs) else None.
Proof.
  unfold completenessScores.
  induction txs as [|tx txs IH] using rev_ind; [reflexivity|].
  rewrite fold_left_app. cbn [fold_left].
  rewrite countFields_lookup, IH, presentCount_snoc.
  pose proof (presentCount_bounds k txs).
  destruct (present k tx); destruct (Z.ltb_spec 0 (presentCount k txs));
    cbn [default]; repeat case_match; try lia; try reflexivity.
  all: f_equal; lia.
Qed.

Lemma present_canonical k tx : present k tx = true → k ∈ canonicalFields.
Proof.
  unfold present, canonicalFields.
  destruct (String.eqb_spec k "id") as [->|?]; [set_solver|].
  destruct (String.eqb_spec k "country") as [->|?]; [set_solver|].
  destruct (String.eqb_spec k "region") as [->|?]; [set_solver|].
  destruct (String.eqb_spec k "product_name") as [->|?]; [set_solver|].
  destruct (String.eqb_spec k "price") as [->|?]; [set_solver|].
  destruct (String.eqb_spec k "quantity") as [->|?]; [set_solver|].
  destruct (String.eqb_spec k "date") as [->|?]; [set_solver|].
  done.
Qed.

(** ** The loop over the counters *)

Lemma completenessLoop_spec n entries fm t divs :
  completenessLoop n entries fm t divs =
  (foldl (fun fm kc => <[kc.1 +:+ "_completeness" :=
                           f64_div (f64_of_Z kc.2) (f64_of_Z n)]> fm) fm entries,
   foldl (fun t kc => f64_add t (f64_div (f64_of_Z kc.2) (f64_of_Z n))) t entries,
   divs ++ ((fun _ => f64_of_Z n) <$> entries)).
Proof.
  revert fm t divs. induction entries as [|[k c] entries IH]; intros fm t divs.
  - cbn. by rewrite app_nil_r.
  - cbn [completenessLoop div_logged]. rewrite IH. cbn. by rewrite <- app_assoc.
Qed.

Lemma length_append s t :
  String.length (s +:+ t) = (String.length s + String.length t)%nat.
Proof. induction s as [|a s IH]; cbn; [done|]. by rewrite IH. Qed.

Lemma append_suffix_inj t s1 s2 : s1 +:+ t = s2 +:+ t → s1 = s2.
Proof.
  revert s2. induction s1 as [|a s1 IH]; intros [|b s2] H; cbn in H.
  - done.
  - apply (f_equal String.length) in H. cbn in H. rewrite length_append in H. lia.
  - apply (f_equal String.length) in H. cbn in H. rewrite length_append in H. lia.
  - injection H as -> H. f_equal. by apply IH.
Qed.

(** The metrics recorded by the loop, read by field. *)
Lemma fieldMetrics_lookup n (entries : list (string * Z))
    (fm : gmap string float64) k :
  NoDup entries.*1 →
  foldl (fun fm kc => <[kc.1 +:+ "_completeness" :=
                          f64_div (f64_of_Z kc.2) (f64_of_Z n)]> fm) fm entries
    !! (k +:+ "_completeness") =
  match list_to_map (M := gmap string Z) entries !! k with
  | Some c => Some (f64_div (f64_of_Z c) (f64_of_Z n))
  | None => fm !! (k +:+ "_completeness")
  end.
Proof.
  revert fm. induction entries as [|[k' c] entries IH]; intros fm Hnd; [done|].
  apply NoDup_cons in Hnd as [Hk' Hnd]. cbn [foldl]. rewrite IH by done.
  rewrite list_to_map_cons. cbn [fst snd].
  destruct (decide (k = k')) as [->|Hne].
  - rewrite lookup_insert_eq, (not_elem_of_list_to_map_1 _ k' Hk').
    by rewrite lookup_insert_eq.
  - rewrite (lookup_insert_ne _ k' k) by done.
    destruct (list_to_map entries !! k); [done|].
    apply lookup_insert_ne. intros H. apply Hne. symmetry.
    by apply append_suffix_inj in H.
Qed.

Lemma f64_zero_div n :
  0 < n < 2 ^ 53 → f64_div f64_zero (f64_of_Z n) = f64_zero.
Proof.
  intros Hn. unfold f64_of_Z, prec, emax.
  by destruct (binary_normalize_exact n Hn) as (m & e & -> & _).
Qed.

Lemma f64_add_zero_r t a : fle t a 0 → f64_add t f64_zero = t.
Proof. by intros [->|(m & e & -> & _)]. Qed.

Section Batch.

Variable order : list string.
Variable txs : list Transaction.

Hypothesis nonempty : txs ≠ [].
Hypothesis short : Z.of_nat (length txs) < 2 ^ 53.

#[local] Abbreviation n := (Z.of_nat (length txs)).
#[local] Abbreviation walk := (iter_order order (completenessScores txs)).
#[local] Abbreviation metrics := (calculateDataQuality order txs).

Lemma batch_length_bounds : 0 < n < 2 ^ 53.
Proof. destruct txs; [done|]. cbn [length] in *. lia. Qed.

Lemma walk_NoDup : NoDup walk.*1.
Proof.
  rewrite (fmap_Permutation fst _ _ (iter_order_perm order _)).
  apply NoDup_fst_map_to_list.
Qed.

Lemma walk_to_map : list_to_map walk = completenessScores txs.
Proof.
  rewrite (list_to_map_proper _ _ walk_NoDup (iter_order_perm order _)).
  apply list_to_map_to_list.
Qed.

Lemma walk_entry k c : (k, c) ∈ walk → c = presentCount k txs ∧ 0 < c.
Proof.
  rewrite (iter_order_perm order _), elem_of_map_to_list, completenessScores_lookup.
  destruct (Z.ltb_spec 0 (presentCount k txs)); intros; simplify_eq. done.
Qed.

Lemma Completeness_eq :
  Completeness metrics =
  f64_div (foldl (fun t kc => f64_add t (f64_div (f64_of_Z kc.2) (f64_of_Z n)))
                 f64_zero walk)
          (f64_of_Z 7).
Proof.
  unfold calculateDataQuality, calculateDataQuality_run.
  destruct txs as [|tx txs']; [done|].
  rewrite completenessLoop_spec. reflexivity.
Qed.

Lemma FieldMetrics_eq :
  FieldMetrics metrics =
  foldl (fun fm kc => <[kc.1 +:+ "_completeness" :=
                          f64_div (f64_of_Z kc.2) (f64_of_Z n)]> fm) ∅ walk.
Proof.
  unfold calculateDataQuality, calculateDataQuality_run.
  destruct txs as [|tx txs']; [done|].
  rewrite completenessLoop_spec. reflexivity.
Qed.

(** The scorer stores a metric for the fields that are present in some
    record, and for no other. *)
Lemma FieldMetrics_lookup k :
  FieldMetrics metrics !! (k +:+ "_completeness") =
  if 0 <? presentCount k txs then Some (fraction txs k) else None.
Proof.
  rewrite FieldMetrics_eq, fieldMetrics_lookup by apply walk_NoDup.
  rewrite walk_to_map, completenessScores_lookup. unfold fraction.
  by destruct (Z.ltb_spec 0 (presentCount k txs)).
Qed.

(** Every per-field metric is the fraction of the records in which the
    field is present. *)
Lemma fieldMetric_fraction k :
  fieldMetric metrics (k +:+ "_completeness") = fraction txs k.
Proof.
  unfold fieldMetric. rewrite FieldMetrics_eq, fieldMetrics_lookup by apply walk_NoDup.
  rewrite walk_to_map, completenessScores_lookup. unfold fraction.
  pose proof (presentCount_bounds k txs).
  destruct (Z.ltb_spec 0 (presentCount k txs)); [done|].
  replace (presentCount k txs) with 0 by lia.
  rewrite lookup_empty. cbn [default]. symmetry. apply f64_zero_div, batch_length_bounds.
Qed.

Lemma total_fle (entries : list (string * Z)) t a :
  (∀ kc, kc ∈ entries → 0 <= kc.2 <= n) →
  fle t a 0 → 0 <= a → a + Z.of_nat (length entries) < 2 ^ 53 →
  fle (foldl (fun t kc => f64_add t (f64_div (f64_of_Z kc.2) (f64_of_Z n))) t entries)
      (a + Z.of_nat (length entries)) 0.
Proof.
  revert t a. induction entries as [|kc entries IH]; intros t a Hin Ht Ha Hlen.
  - cbn. by rewrite Z.add_0_r.
  - cbn [foldl length] in *.
    replace (a + Z.of_nat (S (length entries)))
      with ((a + 1) + Z.of_nat (length entries)) by lia.
    apply IH; [intros; apply Hin; by right | | lia | lia].
    apply SFadd_le; [done | | done | lia | lia].
    apply fraction_le_1; [apply Hin; by left | apply batch_length_bounds].
Qed.

Lemma walk_counts kc : kc ∈ walk → 0 <= kc.2 <= n.
Proof.
  destruct kc as [k c]. intros [-> ?]%walk_entry. apply presentCount_bounds.
Qed.

Lemma presentCount_pos k : 0 < presentCount k txs → k ∈ canonicalFields.
Proof.
  unfold presentCount. destruct (List.filter (present k) txs) as [|tx l] eqn:E.
  - cbn. lia.
  - intros _. assert (H : In tx (List.filter (present k) txs)) by (rewrite E; by left).
    apply List.filter_In in H as [_ H]. by apply present_canonical in H.
Qed.

Lemma NoDup_canonicalFields : NoDup canonicalFields.
Proof. apply (bool_decide_unpack _). by vm_compute. Qed.

Lemma walk_fields :
  walk.*1 ≡ₚ filter (fun k => 0 < presentCount k txs) canonicalFields.
Proof.
  apply NoDup_Permutation.
  - apply walk_NoDup.
  - apply NoDup_filter, NoDup_canonicalFields.
  - intros k. rewrite list_elem_of_fmap, list_elem_of_filter. split.
    + intros ([k' c] & -> & [-> Hc]%walk_entry). cbn [fst].
      split; [done | by apply presentCount_pos].
    + intros [Hc _]. exists (k, presentCount k txs). split; [done|].
      rewrite (iter_order_perm order _), elem_of_map_to_list, completenessScores_lookup.
      by destruct (Z.ltb_spec 0 (presentCount k txs)); [|lia].
Qed.

Lemma total_fractions (entries : list (string * Z)) t :
  (∀ kc, kc ∈ entries → kc ∈ walk) →
  foldl (fun t kc => f64_add t (f64_div (f64_of_Z kc.2) (f64_of_Z n))) t entries =
  foldl f64_add t (fraction txs <$> entries.*1).
Proof.
  revert t. induction entries as [|[k c] entries IH]; intros t Hin; [done|].
  cbn [foldl fmap list_fmap fst snd]. rewrite IH by (intros; apply Hin; by right).
  destruct (walk_entry k c (Hin _ ltac:(by left))) as [-> _]. done.
Qed.

Lemma absent_fractions (fields : list string) t a :
  fle t a 0 → (∀ k, k ∈ fields → ¬ 0 < presentCount k txs) →
  foldl f64_add t (fraction txs <$> fields) = t.
Proof.
  intros Ht. induction fields as [|k fields IH]; intros Hin; [done|].
  cbn [foldl fmap list_fmap].
  assert (Hk : fraction txs k = f64_zero).
  { unfold fraction. pose proof (presentCount_bounds k txs).
    pose proof (Hin k ltac:(by left)).
    replace (presentCount k txs) with 0 by lia. apply f64_zero_div, batch_length_bounds. }
  rewrite Hk, (f64_add_zero_r t a Ht). apply IH. intros; apply Hin; by right.
Qed.

Lemma walk_length : Z.of_nat (length walk) <= 7.
Proof.
  rewrite <- (length_fmap fst), walk_fields.
  pose proof (length_filter (fun k => 0 < presentCount k txs) canonicalFields) as H.
  cbn [length canonicalFields] in H. lia.
Qed.

(** The overall completeness is the mean of the seven fractions, added up
    in the order in which the counters are walked. *)
Lemma Completeness_mean :
  ∃ fields, fields ≡ₚ canonicalFields ∧ Completeness metrics = meanOf fields txs.
Proof.
  exists (walk.*1 ++ filter (fun k => ¬ 0 < presentCount k txs) canonicalFields).
  split.
  - rewrite walk_fields. apply filter_app_complement.
  - rewrite Completeness_eq. unfold meanOf. f_equal.
    rewrite fmap_app, foldl_app, <- total_fractions by done.
    symmetry. eapply absent_fractions.
    + apply (total_fle walk f64_zero 0); [apply walk_counts | by left | lia|].
      pose proof walk_length. lia.
    + intros k [Hk _]%list_elem_of_filter. done.
Qed.

End Batch.

Lemma presentCount_region txs :
  Forall (fun tx => Region tx = "") txs → presentCount "region" txs = 0.
Proof.
  intros Hreg. unfold presentCount.
  replace (List.filter (present "region") txs) with (@nil Transaction); [done|].
  symmetry. induction Hreg as [|tx l Htx _ IH]; [done|].
  cbn [List.filter]. unfold present at 1. cbn [String.eqb Ascii.eqb Bool.eqb].
  rewrite Htx. cbn. apply IH.
Qed.

(** C9 fails as it is worded. For a batch of two records without a
    region the scorer reports no region completeness: its field metrics
    hold no entry under [region_completeness], where the claim has an entry
    of [0]. The test of the data handler on that entry, which asks for its
    presence, fails. *)
Lemma region_completeness_counterexample :
  regionlessBatch ≠ [] ∧
  Forall (fun tx => Region tx = "") regionlessBatch ∧
  FieldMetrics (calculateDataQuality [] regionlessBatch) !! "region_completeness" = None ∧
  FieldMetrics (calculateDataQuality [] regionlessBatch) !! "region_completeness"
    ≠ Some f64_zero ∧
  Report.fieldBelow (calculateDataQuality [] regionlessBatch) "region_completeness"
                    Report.f64_0_85 = false.
Proof. split; [done|]. split; [repeat constructor|]. by vm_compute. Qed.

(** C9, amended: for every non-empty batch in which every record has an
    empty region, the scorer stores no region completeness (its field
    metrics hold an entry for a field exactly when the field is present in
    some record, with the fraction of the records in which it is present;
    the missing region entry reads as [0]), and reports an overall
    completeness strictly below [1]; the overall completeness is the
    arithmetic mean of the seven fractions, those of the fields without an
    entry being [0], added up in the order in which the scorer walks its
    counters. The batch is shorter than [2^53] records, as every slice of
    records is: below that length the conversion
    [float64(len(transactions))] is exact. *)
Theorem regionless_batch_completeness (order : list string) (txs : list Transaction) :
  txs ≠ [] →
  Forall (fun tx => Region tx = "") txs →
  Z.of_nat (length txs) < 2 ^ 53 →
  FieldMetrics (calculateDataQuality order txs) !! "region_completeness" = None ∧
  (∀ field, FieldMetrics (calculateDataQuality order txs) !! (field +:+ "_completeness")
            = if 0 <? presentCount field txs then Some (fraction txs field) else None) ∧
  fieldMetric (calculateDataQuality order txs) "region_completeness" = f64_zero ∧
  f64_ltb (Completeness (calculateDataQuality order txs)) (f64_of_Z 1) = true ∧
  (∀ field, fieldMetric (calculateDataQuality order txs) (field +:+ "_completeness")
            = fraction txs field) ∧
  ∃ fields, fields ≡ₚ canonicalFields ∧
            Completeness (calculateDataQuality order txs) = meanOf fields txs.
Proof.
  intros Hne Hreg Hlen.
  pose proof (presentCount_region txs Hreg) as Hregion.
  split; [|split; [|split; [|split; [|split]]]].
  - change "region_completeness" with ("region" +:+ "_completeness").
    rewrite FieldMetrics_lookup by done. by rewrite Hregion.
  - intros field. by apply FieldMetrics_lookup.
  - change "region_completeness" with ("region" +:+ "_completeness").
    rewrite fieldMetric_fraction by done. unfold fraction. rewrite Hregion.
    apply f64_zero_div. by apply batch_length_bounds.
  - rewrite Completeness_eq by done. apply mean_lt_1.
    set (walk := iter_order order (completenessScores txs)).
    assert (Hlen6 : Z.of_nat (length walk) <= 6).
    { unfold walk. rewrite <- (length_fmap fst), (walk_fields order txs Hne).
      pose proof (filter_app_complement (fun k => 0 < presentCount k txs) canonicalFields) as Hp.
      apply Permutation_length in Hp. rewrite length_app in Hp.
      assert (Hr : "region" ∈ filter (fun k => ¬ 0 < presentCount k txs) canonicalFields).
      { apply list_elem_of_filter. split; [lia | set_solver]. }
      destruct (filter (fun k => ¬ 0 < presentCount k txs) canonicalFields);
        [by apply elem_of_nil in Hr|].
      cbn [length canonicalFields] in Hp. lia. }
    apply (fle_mono _ (0 + Z.of_nat (length walk))); [lia|].
    apply total_fle; [done | done | by apply walk_counts | by left | lia | lia].
  - intros field. by apply fieldMetric_fraction.
  - by apply Completeness_mean.
Qed.

Lemma regionless_batch_completeness_witness :
  regionlessBatch ≠ [] ∧
  Forall (fun tx => Region tx = "") regionlessBatch ∧
  Z.of_nat (length regionlessBatch) < 2 ^ 53 ∧
  FieldMetrics (calculateDataQuality [] regionlessBatch) !! "region_completeness" = None ∧
  (∀ field,
     FieldMetrics (calculateDataQuality [] regionlessBatch) !! (field +:+ "_completeness")
     = if 0 <? presentCount field regionlessBatch
       then Some (fraction regionlessBatch field) else None) ∧
  fieldMetric (calculateDataQuality [] regionlessBatch) "region_completeness"
    = f64_zero ∧
  f64_ltb (Completeness (calculateDataQuality [] regionlessBatch)) (f64_of_Z 1)
    = true ∧
  (∀ field,
     fieldMetric (calculateDataQuality [] regionlessBatch)
                 (field +:+ "_completeness")
     = fraction regionlessBatch field) ∧
  ∃ fields, fields ≡ₚ canonicalFields ∧
            Completeness (calculateDataQuality [] regionlessBatch)
            = meanOf fields regionlessBatch.
Proof.
  split; [discriminate|]. split; [repeat constructor|]. split; [reflexivity|].
  apply (regionless_batch_completeness [] regionlessBatch);
    [discriminate | repeat constructor | reflexivity].
Defined.

End QualityFacts.

(** ** Currency parsing *)

Module CurrencyFacts.
Import GoStrings GoFloat Strconv Models Config Stages Converter EngineM Handler Spec.

(** [int64(f)] discards the fraction: the value [± m * 2 ^ e] of a finite
    float is divided with truncation towards zero. *)
Lemma int64_of_f64_truncates (s : bool) (m : positive) (e : Z) :
  let v := Z.quot ((if s then Zneg m else Zpos m) * 2 ^ Z.max e 0) (2 ^ Z.max (- e) 0) in
  int64_of_f64 (S754_finite s m e) =
  if (minInt64 <=? v) && (v <=? maxInt64) then v else minInt64.
Proof.
  cbv zeta. unfold int64_of_f64.
  destruct (Z.leb_spec 0 e) as [He|He].
  - rewrite (Z.max_l e 0), (Z.max_r (- e) 0) by lia. rewrite Z.pow_0_r, Z.quot_1_r.
    destruct s; [|done].
    by replace (- (Z.pos m * 2 ^ e)) with (Z.neg m * 2 ^ e) by lia.
  - rewrite (Z.max_r e 0), (Z.max_l (- e) 0) by lia. rewrite Z.pow_0_r, Z.mul_1_r.
    rewrite Z.shiftr_div_pow2 by lia.
    assert (Hp : 0 < 2 ^ (- e)) by (apply Z.pow_pos_nonneg; lia).
    destruct s.
    + replace (Z.neg m) with (- Z.pos m) by lia.
      rewrite Z.quot_opp_l by lia. rewrite Z.quot_div_nonneg by lia. done.
    + rewrite Z.quot_div_nonneg by lia. done.
Qed.



End CurrencyFacts.

(** ** String predicates *)

Module StringFacts.
Import GoStrings.

Lemma HasPrefix_spec s p : HasPrefix s p = true <-> ∃ r, s = p +:+ r.
Proof.
  revert s. induction p as [|c p IH]; intros s; simpl.
  - split; [intros _; by exists s | done].
  - destruct s as [|d s].
    + split; [done | intros [r Hr]; discriminate].
    + destruct (Ascii.eqb_spec c d) as [->|Hne].
      * rewrite IH. split; intros [r Hr]; exists r; simpl in *; congruence.
      * split; [done | intros [r Hr]; simpl in Hr; congruence].
Qed.

Lemma str_len_app a b : str_len (a +:+ b) = (str_len a + str_len b)%nat.
Proof. induction a as [|c a IH]; simpl; [done | by rewrite IH]. Qed.

Lemma str_drop_app a b : str_drop (str_len a) (a +:+ b) = b.
Proof. induction a as [|c a IH]; simpl; [by destruct b | done]. Qed.

Lemma str_take_drop n s : str_take n s +:+ str_drop n s = s.
Proof.
  revert s. induction n as [|n IH]; intros [|c s]; simpl; try done.
  by rewrite IH.
Qed.

Lemma HasSuffix_spec s p : HasSuffix s p = true <-> ∃ l, s = l +:+ p.
Proof.
  unfold HasSuffix. rewrite andb_true_iff, Nat.leb_le, String.eqb_eq. split.
  - intros [_ Hd]. exists (str_take (str_len s - str_len p) s).
    rewrite <- (str_take_drop (str_len s - str_len p) s) at 1. by rewrite Hd.
  - intros [l ->]. rewrite str_len_app. split; [lia|].
    replace (str_len l + str_len p - str_len p)%nat with (str_len l) by lia.
    apply str_drop_app.
Qed.

Lemma Contains_spec s sub : Contains s sub = true <-> ∃ l r, s = l +:+ sub +:+ r.
Proof.
  induction s as [|c s IH]; cbn [Contains]; rewrite orb_true_iff, HasPrefix_spec.
  - split.
    + intros [[r Hr]|?]; [|done]. by exists "", r.
    + intros (l & r & H). left. destruct l; [by exists r | discriminate].
  - rewrite IH. split.
    + intros [[r Hr]|(l & r & Hr)]; [by exists "", r|].
      exists (String c l), r. simpl. by rewrite Hr.
    + intros ([|d l] & r & H); [left; by exists r|].
      right. exists l, r. simpl in H. congruence.
Qed.

End StringFacts.

(** ** Format detection *)

Module DetectFacts.
Import GoStrings Models Config Converter Handler Spec StringFacts.

Lemma looksJSON_reflect s :
  (HasPrefix s "{" && HasSuffix s "}") || (HasPrefix s "[" && HasSuffix s "]") = true
  <-> looksJSON s.
Proof.
  unfold looksJSON, begins, ends.
  by rewrite orb_true_iff, !andb_true_iff, !HasPrefix_spec, !HasSuffix_spec.
Qed.

Lemma looksXML_reflect s :
  HasPrefix s "<" && Contains s ">" = true <-> looksXML s.
Proof.
  unfold looksXML, begins, contains.
  by rewrite andb_true_iff, HasPrefix_spec, Contains_spec.
Qed.

Lemma looksYAML_reflect s :
  Contains s ":" && (Contains s (String (byte_of 10) "-") || Contains s "---") = true
  <-> looksYAML s.
Proof.
  unfold looksYAML, contains.
  by rewrite andb_true_iff, orb_true_iff, !Contains_spec.
Qed.

Lemma looksTSV_reflect s :
  Contains s (String (byte_of 9) EmptyString) = true <-> looksTSV s.
Proof. unfold looksTSV, contains. by rewrite Contains_spec. Qed.

(** [DetectFormat] is a total function and classifies the trimmed content
    in the decision order JSON, XML, YAML, TSV, CSV. *)
Lemma DetectFormat_classified (data : string) :
  classified (TrimSpace data) (DetectFormat data).
Proof.
  unfold DetectFormat. set (s := TrimSpace data).
  pose proof (looksJSON_reflect s) as HJ. pose proof (looksXML_reflect s) as HX.
  pose proof (looksYAML_reflect s) as HY. pose proof (looksTSV_reflect s) as HT.
  revert HJ HX HY HT.
  destruct ((HasPrefix s "{" && HasSuffix s "}") || (HasPrefix s "[" && HasSuffix s "]"));
    [simpl; intuition congruence|].
  destruct (HasPrefix s "<" && Contains s ">"); [simpl; intuition congruence|].
  destruct (Contains s ":" && (Contains s (String (byte_of 10) "-") || Contains s "---"));
    [simpl; intuition congruence|].
  destruct (Contains s (String (byte_of 9) EmptyString)); simpl; intuition congruence.
Qed.

(** The classification is a function of the content: exactly one format
    satisfies [classified]. *)
Lemma classified_unique (s : string) (f1 f2 : DataFormat) :
  classified s f1 -> classified s f2 -> f1 = f2.
Proof. destruct f1, f2; simpl; tauto. Qed.

(** C2 fails as it is worded: for the file name [export.xml] the extension
    decides and the answer is XML, where the claim has the content
    classified, as CSV. *)
Lemma detectFileFormat_xml_extension_counterexample :
  detectFileFormat (fun r => r) "export.xml" commaFile = Ok FormatXML ∧
  claimed_detect (fun r => r) "export.xml" (f_content commaFile) = FormatCSV ∧
  detectFileFormat (fun r => r) "export.xml" commaFile
  ≠ Ok (claimed_detect (fun r => r) "export.xml" (f_content commaFile)).
Proof. repeat split; [vm_compute; reflexivity .. | vm_compute; discriminate]. Qed.

(** C2, amended: format detection never fails on content that can be read.
    A known extension ([.csv], [.tsv], [.json], [.yaml], [.yml] and also
    [.xml], compared in lower case) decides first; otherwise the trimmed
    content (of a file: its first 1024 bytes) is classified as JSON when it
    is delimited by braces or brackets, else as XML when it begins with [<]
    and contains [>], else as YAML when it contains a colon and a list
    marker or a document separator, else as TSV when it contains a tab,
    else as CSV. *)
Theorem format_detection_decision_order (unicode_ToLower : Z -> Z)
    (filePath : string) (file : OpenFile) :
  f_read_error file = None ->
  (∀ data, classified (TrimSpace data) (DetectFormat data)) ∧
  ∃ format,
    detectFileFormat unicode_ToLower filePath file = Ok format ∧
    match formatOfExtension (ToLower unicode_ToLower (Ext filePath)) with
    | Some f => format = f
    | None => classified (TrimSpace (str_take 1024 (f_content file))) format
    end.
Proof.
  intros Hread. split; [apply DetectFormat_classified|].
  unfold detectFileFormat, formatOfExtension. rewrite Hread.
  set (ext := ToLower unicode_ToLower (Ext filePath)).
  destruct (String.eqb ext ".csv"); [by eexists|].
  destruct (String.eqb ext ".tsv"); [by eexists|].
  destruct (String.eqb ext ".json"); [by eexists|].
  destruct (String.eqb ext ".yaml" || String.eqb ext ".yml"); [by eexists|].
  destruct (String.eqb ext ".xml"); [by eexists|].
  eexists. split; [reflexivity|]. apply DetectFormat_classified.
Qed.

Lemma format_detection_decision_order_witness :
  ∃ format,
    detectFileFormat (fun r => r) "sales-export" commaFile = Ok format ∧
    classified (TrimSpace (str_take 1024 (f_content commaFile))) format.
Proof.
  destruct (format_detection_decision_order (fun r => r) "sales-export" commaFile)
    as (_ & format & Hf & Hc).
  - reflexivity.
  - exists format. split; [exact Hf | exact Hc].
Defined.

End DetectFacts.

(** ** Column mapping *)

Module ColumnFacts.
Import GoStrings Strconv GoFloat Models Config Converter Spec.

Lemma matchesb_in_spec table k tok :
  matchesb_in table k tok = true <->
  tok = k ∨ ∃ vars, (k, vars) ∈ table ∧ tok ∈ vars.
Proof.
  unfold matchesb_in. rewrite orb_true_iff, String.eqb_eq, existsb_exists.
  split; (intros [?|H]; [by left | right]).
  - destruct H as ([f vars] & Hin & H). simpl in H.
    apply andb_true_iff in H as [Hf Hv]. apply String.eqb_eq in Hf as ->.
    apply existsb_exists in Hv as (x & Hx & Heq). apply String.eqb_eq in Heq as <-.
    exists vars. split; by apply list_elem_of_In.
  - destruct H as (vars & Hin & Hv). exists (k, vars). split; [by apply list_elem_of_In|].
    simpl. rewrite String.eqb_refl. simpl. apply existsb_exists. exists tok.
    split; [by apply list_elem_of_In | apply String.eqb_refl].
Qed.

Lemma matchesb_spec k tok : matchesb k tok = true <-> matches k tok.
Proof. apply matchesb_in_spec. Qed.

(** Walking the entries in another order does not change which tokens
    define which keys. *)
Lemma matchesb_in_perm table table' k tok :
  table ≡ₚ table' -> matchesb_in table k tok = matchesb_in table' k tok.
Proof.
  intros Hp. apply eq_true_iff_eq. rewrite !matchesb_in_spec.
  split; (intros [?|(vars & Hin & Hv)]; [by left | right; exists vars; split; [|done]]).
  - by rewrite <- Hp.
  - by rewrite Hp.
Qed.

Lemma mapVariations_lookup tok field i vars (m : gmap string nat) k :
  mapVariations tok field i vars m !! k =
  if String.eqb field k && existsb (String.eqb tok) vars then Some i else m !! k.
Proof.
  induction vars as [|v vars IH]; simpl.
  - by rewrite andb_false_r.
  - destruct (String.eqb tok v); simpl.
    + rewrite andb_true_r. destruct (String.eqb_spec field k) as [->|Hne].
      * by rewrite lookup_insert_eq.
      * by rewrite lookup_insert_ne.
    + apply IH.
Qed.

Lemma mapStandardFields_lookup tok i order (m : gmap string nat) k :
  mapStandardFields tok i order m !! k =
  if existsb (fun entry => String.eqb entry.1 k && existsb (String.eqb tok) entry.2) order
  then Some i else m !! k.
Proof.
  revert m. induction order as [|[field vars] order IH]; intros m; simpl; [done|].
  rewrite IH, mapVariations_lookup.
  destruct (String.eqb field k && existsb (String.eqb tok) vars); simpl; [|done].
  by destruct (existsb _ order).
Qed.

(** One step of the loop over the header, seen from a key [k]. *)
Lemma column_step_lookup tok i order (m : gmap string nat) k :
  order ≡ₚ columnVariations ->
  mapStandardFields tok i order (<[tok := i]> m) !! k =
  if matchesb k tok then Some i else m !! k.
Proof.
  intros Hp. rewrite mapStandardFields_lookup.
  unfold matchesb. rewrite <- (matchesb_in_perm order columnVariations k tok Hp).
  unfold matchesb_in.
  destruct (existsb _ order); [by rewrite orb_true_r|]. rewrite orb_false_r.
  destruct (String.eqb_spec tok k) as [->|Hne].
  - by rewrite lookup_insert_eq.
  - by rewrite lookup_insert_ne.
Qed.

Lemma createColumnMapping_loop_lookup lower orders i header (m : gmap string nat) k :
  Forall (fun order => order ≡ₚ columnVariations) orders ->
  createColumnMapping_loop lower orders i header m !! k =
  lastIndex_from (matchesb k) i (normalize lower <$> header) (m !! k).
Proof.
  revert orders i m. induction header as [|col header IH]; intros orders i m Ho; simpl;
    [done|].
  rewrite IH by (destruct orders; [constructor | by inversion Ho]).
  f_equal. apply column_step_lookup.
  destruct orders as [|o orders]; simpl; [done | by inversion Ho].
Qed.

(** [lastIndex_from] finds the last element that satisfies the test. *)
Lemma lastIndex_from_spec P i l acc r :
  lastIndex_from P i l acc = r <->
  (∃ j x, r = Some (i + j)%nat ∧ l !! j = Some x ∧ P x = true ∧
          ∀ j' x', (j < j')%nat -> l !! j' = Some x' -> P x' = false) ∨
  (r = acc ∧ ∀ x, x ∈ l -> P x = false).
Proof.
  revert i acc. induction l as [|a l IH]; intros i acc; simpl.
  - split.
    + intros <-. right. split; [done | by intros x ?%elem_of_nil].
    + intros [(j & x & _ & Hj & _)|[-> _]]; [by destruct j | done].
  - rewrite IH. split.
    + intros [(j & x & -> & Hj & HP & Hlast)|[-> Hnone]].
      * left. exists (S j), x. split; [f_equal; lia|]. split; [done|]. split; [done|].
        intros [|j'] x' Hlt Hj'; [lia|]. apply (Hlast j'); [lia | done].
      * destruct (P a) eqn:Ha.
        -- left. exists 0%nat, a. split; [f_equal; lia|]. split; [done|]. split; [done|].
           intros [|j'] x' Hlt Hj'; [lia|]. apply Hnone. by eapply list_elem_of_lookup_2.
        -- right. split; [done|]. intros x [->|Hx]%elem_of_cons; [done | by apply Hnone].
    + intros [(j & x & -> & Hj & HP & Hlast)|[-> Hnone]].
      * destruct j as [|j]; simpl in Hj.
        -- injection Hj as ->. right. rewrite HP. split; [f_equal; lia|].
           intros x' Hx'. apply list_elem_of_lookup in Hx' as [j' Hj'].
           apply (Hlast (S j')); [lia | done].
        -- left. exists j, x. split; [f_equal; lia|]. split; [done|]. split; [done|].
           intros j' x' Hlt Hj'. apply (Hlast (S j')); [lia | done].
      * right. rewrite (Hnone a) by by left. split; [done|].
        intros x Hx. apply Hnone. by right.
Qed.

(** [getFieldValue] returns the value under the first name that is a key
    of the record. *)
Lemma getFieldValue_first Sprint_v (data : gmap string Value) names :
  getFieldValue Sprint_v data names =
  match list_find (fun name => is_Some (data !! name)) names with
  | Some (_, name) => from_option (rendered Sprint_v) "" (data !! name)
  | None => ""
  end.
Proof.
  induction names as [|name names IH]; simpl; [done|].
  destruct (data !! name) as [v|] eqn:Hv.
  - rewrite decide_True by by eexists. simpl. rewrite Hv. by destruct v.
  - rewrite decide_False by by intros [? ?]. rewrite IH.
    by destruct (list_find _ names) as [[? ?]|].
Qed.

(** [getFieldNumericValue] returns the number under the first name that is
    a key of the record with a numeric value; a key whose value is no
    number is passed over. *)
Lemma getFieldNumericValue_first (data : gmap string Value) names :
  getFieldNumericValue data names =
  match list_find (fun name => is_Some (data !! name ≫= numeric)) names with
  | Some (_, name) =>
      from_option Ok (Err "numeric field not found") (data !! name ≫= numeric)
  | None => Err "numeric field not found"
  end.
Proof.
  induction names as [|name names IH]; cbn [getFieldNumericValue list_find]; [done|].
  destruct (data !! name) as [v|] eqn:Hv; cbn [mbind option_bind].
  - destruct (numeric v) as [x|] eqn:Hn.
    + rewrite decide_True by by eexists. cbn. rewrite Hv. cbn. rewrite Hn. cbn.
      destruct v as [|b|f|z|z|str|l|m|m others]; cbn in Hn; try done;
        try (by injection Hn as ->).
      destruct (ParseFloat str); [by injection Hn as -> | done].
    + rewrite decide_False by by intros [? ?]. rewrite IH.
      destruct v as [|b|f|z|z|str|l|m|m others]; cbn in Hn; try done;
        try (by destruct (list_find _ names) as [[? ?]|]).
      destruct (ParseFloat str); [done|].
      by destruct (list_find _ names) as [[? ?]|].
  - rewrite decide_False by by intros [? ?]. rewrite IH.
    by destruct (list_find _ names) as [[? ?]|].
Qed.

(** What [mapToTransaction] reads the fields of a record with. *)
Lemma mapToTransaction_reads time_Parse Sprint_v config (data : gmap string Value) tx :
  mapToTransaction time_Parse Sprint_v config data = Ok tx ->
  let text := fun field => getFieldValue Sprint_v data (fieldMapping field) in
  let number := fun field => getFieldNumericValue data (fieldMapping field) in
  ID tx = text "id" ∧ ProductName tx = text "product_name" ∧
  Country tx = (if String.eqb (text "country") "" then DefaultCountry config
                else text "country") ∧
  Region tx = (if String.eqb (text "region") "" then DefaultRegion config
               else text "region") ∧
  (∃ price, number "price" = Ok price ∧
            UnitPriceCents tx = int64_of_f64 (f64_mul price (PriceMultiplier config))) ∧
  Quantity tx = int64_of_f64 (match number "quantity" with
                              | Ok q => q
                              | Err _ => f64_of_Z 1
                              end) ∧
  parseFlexibleDate time_Parse config (text "date") = Ok (TxTime tx).
Proof.
  unfold mapToTransaction. cbv zeta.
  destruct (String.eqb (getFieldValue Sprint_v data (fieldMapping "id")) ""); [done|].
  destruct (String.eqb (getFieldValue Sprint_v data (fieldMapping "product_name")) "");
    [done|].
  destruct (getFieldNumericValue data (fieldMapping "price")) as [price|]; [|done].
  destruct (String.eqb (getFieldValue Sprint_v data (fieldMapping "date")) ""); [done|].
  destruct (parseFlexibleDate _ _ _) as [date|]; [|done].
  intros [= <-]. cbn [ID ProductName Country Region UnitPriceCents Quantity TxTime].
  repeat (match goal with |- _ ∧ _ => split end); try done. by exists price.
Qed.

(** C3 fails as it is worded. With the header [transaction_id, order_id]
    the identifier is read from column 1, the later column, although
    [transaction_id] is the first synonym of the table; and a JSON record
    that names its identifier [order_id], a synonym of the header table, is
    rejected, because [mapToTransaction] consults a table of its own that
    lacks this synonym. *)
Lemma column_mapping_counterexample :
  createColumnMapping (fun r => r) ["transaction_id"; "order_id"] !! "transaction_id"
    = Some 1%nat ∧
  claimed_column (fun r => r) ["transaction_id"; "order_id"] "transaction_id"
    = Some 0%nat ∧
  createColumnMapping (fun r => r) ["order_id"] !! "transaction_id" = Some 0%nat ∧
  getFieldValue (fun _ => "") orderRecord (fieldMapping "id") = "" ∧
  mapToTransaction (fun _ _ => None) (fun _ => "") getDefaultConfig orderRecord
    = Err "transaction ID is required".
Proof. repeat split; vm_compute; reflexivity. Qed.

(** C3, amended: every header token is trimmed and lower-cased and becomes
    a key of the column map; a key is mapped to the last column whose token
    is the key itself or, for a canonical field, one of its synonyms in the
    fixed table (the order in which the table is walked is immaterial); a
    token that is in no synonym list defines no key but itself. For object
    inputs [mapToTransaction] consults a separate table, whose synonym
    lists are proper prefixes of the lists of the header table. The
    identifier, the country, the region, the product name and the date are
    the text under the first name, in table order, that is a key of the
    record. The price and the quantity are the number under the first name,
    in table order, that is a key of the record with a numeric value (a
    [float64], an [int] or [int64], or a string that [strconv.ParseFloat]
    accepts): a key whose value is no number is passed over. *)
Theorem column_mapping_last_column_wins (unicode_ToLower : Z -> Z)
    (orders : list (list (string * list string))) (header : list string) :
  Forall (fun order => order ≡ₚ columnVariations) orders ->
  let columnMap := createColumnMapping_ordered unicode_ToLower orders header in
  columnMap = createColumnMapping unicode_ToLower header ∧
  (∀ k j, columnMap !! k = Some j <->
     (∃ col, header !! j = Some col ∧ matches k (normalize unicode_ToLower col)) ∧
     (∀ j' col', (j < j')%nat -> header !! j' = Some col' ->
                 ¬ matches k (normalize unicode_ToLower col'))) ∧
  (∀ j col, header !! j = Some col ->
     is_Some (columnMap !! normalize unicode_ToLower col)) ∧
  (∀ tok k, (∀ field vars, (field, vars) ∈ columnVariations -> tok ∉ vars) ->
     matches k tok -> k = tok) ∧
  (∀ Sprint_v (data : gmap string Value) names,
     getFieldValue Sprint_v data names =
     match list_find (fun name => is_Some (data !! name)) names with
     | Some (_, name) => from_option (rendered Sprint_v) "" (data !! name)
     | None => ""
     end) ∧
  (∀ (data : gmap string Value) names,
     getFieldNumericValue data names =
     match list_find (fun name => is_Some (data !! name ≫= numeric)) names with
     | Some (_, name) =>
         from_option Ok (Err "numeric field not found") (data !! name ≫= numeric)
     | None => Err "numeric field not found"
     end) ∧
  (∀ time_Parse Sprint_v config (data : gmap string Value) tx,
     mapToTransaction time_Parse Sprint_v config data = Ok tx ->
     let text := fun field => getFieldValue Sprint_v data (fieldMapping field) in
     let number := fun field => getFieldNumericValue data (fieldMapping field) in
     ID tx = text "id" ∧ ProductName tx = text "product_name" ∧
     Country tx = (if String.eqb (text "country") "" then DefaultCountry config
                   else text "country") ∧
     Region tx = (if String.eqb (text "region") "" then DefaultRegion config
                  else text "region") ∧
     (∃ price, number "price" = Ok price ∧
               UnitPriceCents tx = int64_of_f64 (f64_mul price (PriceMultiplier config))) ∧
     Quantity tx = int64_of_f64 (match number "quantity" with
                                 | Ok q => q
                                 | Err _ => f64_of_Z 1
                                 end) ∧
     parseFlexibleDate time_Parse config (text "date") = Ok (TxTime tx)) ∧
  (∀ field names, (field, names) ∈ fieldMappings ->
     fieldMapping field = names ∧
     ∃ canonical rest, (canonical, names ++ rest) ∈ columnVariations ∧ rest ≠ []).
Proof.
  intros Ho. cbv zeta.
  assert (Hlook : ∀ k, createColumnMapping_ordered unicode_ToLower orders header !! k =
            lastIndex_from (matchesb k) 0 (normalize unicode_ToLower <$> header) None).
  { intros k. unfold createColumnMapping_ordered.
    rewrite createColumnMapping_loop_lookup by done. by rewrite lookup_empty. }
  assert (Hiff : ∀ k j,
    createColumnMapping_ordered unicode_ToLower orders header !! k = Some j <->
     (∃ col, header !! j = Some col ∧ matches k (normalize unicode_ToLower col)) ∧
     (∀ j' col', (j < j')%nat -> header !! j' = Some col' ->
                 ¬ matches k (normalize unicode_ToLower col'))).
  { intros k j. rewrite Hlook, lastIndex_from_spec. split.
    - intros [(j0 & x & Heq & Hj & HP & Hlast)|[? _]]; [|done].
      injection Heq as ->. simpl.
      rewrite list_lookup_fmap in Hj.
      destruct (header !! j0) as [col|] eqn:Hcol; [|done]. injection Hj as <-.
      split; [exists col; split; [done | by apply matchesb_spec]|].
      intros j' col' Hlt Hj' Hm. apply matchesb_spec in Hm.
      rewrite (Hlast j' (normalize unicode_ToLower col')) in Hm; [done | done |].
      by rewrite list_lookup_fmap, Hj'.
    - intros [(col & Hcol & Hm) Hlast]. left.
      exists j, (normalize unicode_ToLower col). split; [done|].
      split; [by rewrite list_lookup_fmap, Hcol|]. split; [by apply matchesb_spec|].
      intros j' x' Hlt Hj'. rewrite list_lookup_fmap in Hj'.
      destruct (header !! j') as [col'|] eqn:Hcol'; [|done]. injection Hj' as <-.
      apply not_true_is_false. intros Hm'%matchesb_spec. by apply (Hlast j' col'). }
  split; [|split; [exact Hiff|split; [|split; [|split; [|split; [|split]]]]]].
  - apply map_eq. intros k. rewrite Hlook. unfold createColumnMapping.
    symmetry. unfold createColumnMapping_ordered.
    rewrite createColumnMapping_loop_lookup by constructor. by rewrite lookup_empty.
  - intros j col Hcol.
    destruct (createColumnMapping_ordered unicode_ToLower orders header
                !! normalize unicode_ToLower col) as [i|] eqn:Hi; [by eexists|].
    exfalso. rewrite Hlook in Hi. apply lastIndex_from_spec in Hi
      as [(j0 & x & ? & _)|[_ Hnone]]; [done|].
    specialize (Hnone (normalize unicode_ToLower col)).
    rewrite (proj2 (matchesb_spec _ _)) in Hnone by by left.
    assert (true = false) by (apply Hnone, list_elem_of_fmap; exists col; split;
      [done | by eapply list_elem_of_lookup_2]). done.
  - intros tok k Hun [->|(vars & Hin & Hv)]; [done|]. by destruct (Hun k vars).
  - intros. apply getFieldValue_first.
  - intros. apply getFieldNumericValue_first.
  - intros time_Parse Sprint_v config data tx. apply mapToTransaction_reads.
  - intros field names Hin. unfold fieldMappings in Hin. unfold columnVariations.
    repeat (apply elem_of_cons in Hin as [Hin|Hin];
            [injection Hin as -> ->; split; [reflexivity|]; do 2 eexists; split;
             [repeat first [apply list_elem_of_here | apply list_elem_of_further] | done]|]).
    by apply elem_of_nil in Hin.
Qed.

(** A price under [price] that is no number is passed over for the number
    under [unit_price]. *)
Example numeric_synonym_passed_over :
  getFieldValue (fun _ => "") mispricedRecord (fieldMapping "price") = "abc" ∧
  getFieldNumericValue mispricedRecord (fieldMapping "price") = Ok (f64_of_Z 5) ∧
  match mapToTransaction noLayoutParses (fun _ => "") getDefaultConfig
                         mispricedRecord with
  | Ok tx => UnitPriceCents tx = 500
  | Err _ => False
  end.
Proof. vm_compute. repeat split; reflexivity. Qed.

Lemma column_mapping_last_column_wins_witness :
  createColumnMapping_ordered (fun r => r) [rev columnVariations] ["ID"; " Qty "; "id"]
    !! "transaction_id" = Some 2%nat.
Proof.
  destruct (column_mapping_last_column_wins (fun r => r) [rev columnVariations]
              ["ID"; " Qty "; "id"]) as (Heq & _).
  - constructor; [|constructor]. apply Permutation_sym, Permutation_rev.
  - rewrite Heq. vm_compute. reflexivity.
Defined.

End ColumnFacts.

(** ** Date parsing *)

Module DateFacts.
Import GoStrings Strconv GoTime Models Config Converter Stages Spec.

Section Dates.
Variable time_Parse : string -> string -> option Time.

Local Abbreviation tryFormats := (Converter.tryFormats time_Parse).

Lemma tryFormats_app l1 l2 s :
  tryFormats (l1 ++ l2) s =
  match tryFormats l1 s with Some d => Some d | None => tryFormats l2 s end.
Proof.
  induction l1 as [|f l1 IH]; simpl; [done|].
  by destruct (time_Parse f s).
Qed.

Lemma tryFormats_None l s :
  tryFormats l s = None <-> ∀ layout, layout ∈ l -> time_Parse layout s = None.
Proof.
  induction l as [|f l IH]; simpl.
  - split; [by intros _ ? ?%elem_of_nil | done].
  - destruct (time_Parse f s) eqn:Hf.
    + split; [done|]. intros H. rewrite (H f) in Hf by by left. done.
    + rewrite IH. split.
      * intros H layout [->|Hin]%elem_of_cons; [done | by apply H].
      * intros H layout Hin. apply H. by right.
Qed.

Lemma tryFormats_first l s i layout date :
  l !! i = Some layout -> time_Parse layout s = Some date ->
  (∀ j l', (j < i)%nat -> l !! j = Some l' -> time_Parse l' s = None) ->
  tryFormats l s = Some date.
Proof.
  revert i. induction l as [|f l IH]; intros [|i] Hi Hp Hbefore; simpl in *; try done.
  - injection Hi as ->. by rewrite Hp.
  - rewrite (Hbefore 0%nat f) by (done || lia).
    apply (IH i); [done | done |]. intros j l' Hj Hl'. apply (Hbefore (S j)); [lia | done].
Qed.

End Dates.

Lemma parse_digits_ge s acc : ∀ n, parse_digits s acc = Some n -> 0 <= acc -> acc <= n.
Proof.
  revert acc. induction s as [|c s IH]; intros acc n; simpl.
  - intros [= <-]. lia.
  - unfold is_digit. destruct (Z.leb_spec 48 (byte_val c)); [|done].
    destruct (Z.leb_spec (byte_val c) 57); [|done]. simpl.
    intros Hn Hacc. apply IH in Hn; lia.
Qed.

Lemma ParseUint_digits_nonneg s un : ParseUint_digits s = Some un -> 0 <= un.
Proof.
  destruct s as [|c s]; [done|]. unfold ParseUint_digits.
  intros H. apply parse_digits_ge in H; lia.
Qed.

(** [ParseInt] answers with an [int64]. *)
Lemma ParseInt_range s n : ParseInt s = Ok n -> minInt64 <= n <= maxInt64.
Proof.
  unfold ParseInt, minInt64, maxInt64. destruct s as [|c s]; [done|].
  destruct (byte_val c =? 43); [|destruct (byte_val c =? 45)];
    (destruct (ParseUint_digits _) as [un|] eqn:Hun; [|done]);
    apply ParseUint_digits_nonneg in Hun; simpl.
  - destruct (Z.leb_spec (2 ^ 63) un); [done|]. intros [= <-]. lia.
  - destruct (Z.ltb_spec (2 ^ 63) un); [done|]. intros [= <-]. lia.
  - destruct (Z.leb_spec (2 ^ 63) un); [done|]. intros [= <-]. lia.
Qed.

Lemma wrap64_small z : minInt64 <= z <= maxInt64 -> wrap64 z = z.
Proof.
  unfold wrap64, minInt64, maxInt64. intros H.
  rewrite Z.mod_small by lia. lia.
Qed.

(** [time.Unix] for a second count and for a millisecond count such as the
    date parser passes. *)
Lemma Unix_seconds ts :
  minInt64 <= ts <= 10000000000 -> Unix ts 0 = mkTime (ts + unixToInternal) 0 Local.
Proof.
  intros H. unfold Unix. simpl.
  rewrite wrap64_small; [done|]. unfold minInt64, maxInt64, unixToInternal in *. lia.
Qed.

Lemma Unix_millis ts :
  10000000000 < ts <= maxInt64 ->
  Unix (Z.quot ts 1000) (wrap64 (Z.rem ts 1000 * 1000000))
  = mkTime (ts / 1000 + unixToInternal) (ts mod 1000 * 1000000) Local.
Proof.
  intros H. rewrite Z.quot_div_nonneg, Z.rem_mod_nonneg by lia.
  pose proof (Z.mod_pos_bound ts 1000 ltac:(lia)) as Hm.
  assert (0 <= ts / 1000 <= ts) by (split; [apply Z.div_pos; lia | apply Z.div_le_upper_bound; lia]).
  unfold maxInt64 in *.
  rewrite (wrap64_small (ts mod 1000 * 1000000)) by (unfold minInt64, maxInt64; lia).
  unfold Unix.
  destruct (Z.ltb_spec (ts mod 1000 * 1000000) 0); [lia|].
  destruct (Z.leb_spec 1000000000 (ts mod 1000 * 1000000)); [lia|]. simpl.
  rewrite wrap64_small; [done|].
  assert (ts / 1000 <= 2 ^ 63 / 1000) by (apply Z.div_le_mono; lia).
  unfold minInt64, maxInt64, unixToInternal.
  change (2 ^ 63 / 1000) with 9223372036854775 in *. lia.
Qed.

(** C4 fails as it is worded. The Unix time [1710503445] is parsed to a
    time presented in the local zone, not in UTC; and for the Unix time
    [-62135596800], the zero instant, the timestamp stays in the local zone
    even after the DateNormalization stage, which passes over a zero time. *)
Lemma date_not_normalized_counterexample :
  parseFlexibleDate noLayoutParses getDefaultConfig "1710503445"
    = Ok (mkTime (1710503445 + unixToInternal) 0 Local) ∧
  parseFlexibleDate noLayoutParses getDefaultConfig "-62135596800"
    = Ok (TxTime zeroInstantRecord) ∧
  t_loc (TxTime (DateNormalization_apply zeroInstantRecord)) = Local ∧
  t_loc (TxTime (DateNormalization_apply zeroInstantRecord)) ≠ UTC.
Proof. repeat split; [vm_compute; reflexivity .. | vm_compute; discriminate]. Qed.

(** C4, amended: the date parser tries the configured layouts in their
    order, then the fixed additional layouts, and returns what the first
    accepting layout gives; when none accepts, a string read as an integer
    is a Unix time, in milliseconds when it is above 10^10 and in seconds
    otherwise; the parser fails exactly when no layout accepts and the
    string is no integer. The parser returns the time as [time.Parse] or
    [time.Unix] present it (a Unix time in the local zone); it is the
    DateNormalization stage that presents every timestamp other than the
    zero instant in UTC, at the same instant. *)
Theorem flexible_date_parsing (time_Parse : string -> string -> option Time)
    (config : TransformConfig) (dateStr : string) :
  let layouts := DateFormats config ++ additionalFormats in
  let parsed := parseFlexibleDate time_Parse config dateStr in
  (∀ i layout date,
     layouts !! i = Some layout -> time_Parse layout dateStr = Some date ->
     (∀ j l, (j < i)%nat -> layouts !! j = Some l -> time_Parse l dateStr = None) ->
     parsed = Ok date) ∧
  (∀ ts,
     (∀ layout, layout ∈ layouts -> time_Parse layout dateStr = None) ->
     ParseInt dateStr = Ok ts ->
     parsed = Ok (if 10 ^ 10 <? ts
                  then mkTime (ts / 1000 + unixToInternal) (ts mod 1000 * 1000000) Local
                  else mkTime (ts + unixToInternal) 0 Local)) ∧
  (is_Ok parsed = false <->
     (∀ layout, layout ∈ layouts -> time_Parse layout dateStr = None) ∧
     is_Ok (ParseInt dateStr) = false) ∧
  (∀ tx, IsZero (TxTime tx) = false ->
     TxTime (DateNormalization_apply tx)
     = mkTime (t_sec (TxTime tx)) (t_nsec (TxTime tx)) UTC) ∧
  (∀ tx, IsZero (TxTime tx) = true -> DateNormalization_apply tx = tx).
Proof.
  cbv zeta. unfold parseFlexibleDate.
  pose proof (tryFormats_app time_Parse (DateFormats config) additionalFormats dateStr)
    as Happ.
  split; [|split; [|split; [|split]]].
  - intros i layout date Hi Hp Hbefore.
    rewrite (tryFormats_first _ _ _ _ _ _ Hi Hp Hbefore) in Happ.
    destruct (tryFormats time_Parse (DateFormats config) dateStr) as [d|]; [congruence|].
    by rewrite <- Happ.
  - intros ts Hnone Hts. apply tryFormats_None in Hnone. rewrite Hnone in Happ.
    destruct (tryFormats time_Parse (DateFormats config) dateStr); [done|].
    rewrite <- Happ, Hts. pose proof (ParseInt_range _ _ Hts) as Hr.
    change (10 ^ 10) with 10000000000.
    destruct (Z.ltb_spec 10000000000 ts).
    + by rewrite Unix_millis by lia.
    + by rewrite Unix_seconds by lia.
  - rewrite <- tryFormats_None, Happ.
    destruct (tryFormats time_Parse (DateFormats config) dateStr);
      [simpl; split; [done | by intros [? _]]|].
    destruct (tryFormats time_Parse additionalFormats dateStr);
      [simpl; split; [done | by intros [? _]]|].
    destruct (ParseInt dateStr) as [ts|]; simpl.
    + destruct (10000000000 <? ts); simpl; split; (done || by intros [_ ?]).
    + done.
  - intros tx Hz. unfold DateNormalization_apply. by rewrite Hz.
  - intros tx Hz. unfold DateNormalization_apply. by rewrite Hz.
Qed.

End DateFacts.

(** ** Validation is observational *)

Module ValidationFacts.
Import GoStrings GoFloat GoTime Models Config Optimizations Stages Quality
       Converter EngineM Handler Spec.

(** ** The calls of the validators *)

Section Calls.
Context {VS : Type}.






End Calls.

Section HandlerValidation.
Context {TS VS : Type}.
Variable fdh : FlexibleDataHandler TS VS.





Lemma processTransactions_length txs i acc w ts (vs : VS) :
  length ((((processTransactions fdh txs i acc w ts vs)).1).1).1
  = (length acc + length txs)%nat.
Proof.
  revert i acc w ts vs. induction txs as [|tx txs IH]; intros; simpl; [lia|].
  destruct (transformOne _ _ _ _ _) as [[tx' w'] ts'].
  destruct (EnableValidation (config fdh)).
  - destruct (validateOne _ _ _ _ _) as [[tx'' w''] vs'].
    rewrite IH, length_app. simpl. lia.
  - rewrite IH, length_app. simpl. lia.
Qed.





End HandlerValidation.



Section EngineValidation.
Variable unicode_ToLower : Z -> Z.
Variable strings_Title : string -> string.
Variable time_Parse : string -> string -> option Time.
Context {TS VS : Type}.
Variable e : Engine TS VS.

Local Abbreviation transformRecord :=
  (EngineM.transformRecord unicode_ToLower strings_Title time_Parse).
Local Abbreviation processRecords :=
  (EngineM.processRecords unicode_ToLower strings_Title time_Parse).
Local Abbreviation TransformCSVData_records :=
  (EngineM.TransformCSVData_records unicode_ToLower strings_Title time_Parse).
Local Abbreviation TransformCSVData :=
  (EngineM.TransformCSVData unicode_ToLower strings_Title time_Parse).








End EngineValidation.



(** A handler whose only validator rejects every record still returns
    every record, with one warning for each. *)
Example rejected_records_are_kept :
  let run := processParsed rejectingHandler [] [txA; txB] tt tt in
  ID <$> ((run.1).1).1 = ["ORD:7"; "ORD"] ∧
  length (Warnings ((run.1).1).2) = 2%nat.
Proof. vm_compute. split; reflexivity. Qed.

End ValidationFacts.

(** ** Records dropped at parsing *)

Module SkipFacts.
Import GoStrings GoFloat Strconv GoTime Models Config Optimizations Stages
       Quality Converter EngineM Handler Spec.

Section ConverterSkips.
Variable time_Parse : string -> string -> option Time.
Variable config : TransformConfig.
Variable columnMap : gmap string nat.

Local Abbreviation parse :=
  (fun row => parseRecordToTransaction time_Parse config row columnMap).

(** When the converter fails on a record. *)
Lemma parseRecordToTransaction_fails_iff (record : list string) :
  let get := getField record columnMap in
  failed (parse record) = true <->
  get "transaction_id" = "" ∨ get "product_name" = "" ∨ get "price" = "" ∨
  failed (parseFlexiblePrice config (get "price")) = true ∨
  failed (ParseInt (if String.eqb (get "quantity") "" then "1" else get "quantity"))
    = true ∨
  get "transaction_date" = "" ∨
  failed (parseFlexibleDate time_Parse config (get "transaction_date")) = true.
Proof.
  cbv zeta. unfold parseRecordToTransaction, failed.
  destruct (String.eqb_spec (getField record columnMap "transaction_id") "");
    [simpl; tauto|].
  destruct (String.eqb_spec (getField record columnMap "product_name") "");
    [simpl; tauto|].
  destruct (String.eqb_spec (getField record columnMap "price") "");
    [simpl; tauto|].
  destruct (parseFlexiblePrice config _) as [price|err]; [|simpl; tauto].
  destruct (ParseInt _) as [quantity|err]; [|simpl; tauto].
  destruct (String.eqb_spec (getField record columnMap "transaction_date") "");
    [simpl; tauto|].
  destruct (parseFlexibleDate time_Parse config _) as [date|err]; simpl; [|tauto].
  intuition congruence.
Qed.

(** On records that are all read without error, the loop of [parseCSV]
    returns the records that parse, in their order, and prints one line for
    each of the others. *)
Lemma parseCSV_loop_rows rows txs lineNumber stdout :
  let run := parseCSV_loop time_Parse config columnMap (Ok <$> rows) txs lineNumber stdout in
  run.1 = Ok (txs ++ omap (fun row => parsed (parse row)) rows) ∧
  length run.2
  = (length stdout + length (List.filter (fun row => failed (parse row)) rows))%nat.
Proof.
  revert txs lineNumber stdout.
  induction rows as [|row rows IH]; intros txs lineNumber stdout; cbv zeta;
    cbn [fmap list_fmap parseCSV_loop omap list_omap List.filter].
  - rewrite app_nil_r. simpl. split; [done | lia].
  - unfold failed at 1. destruct (parse row) as [tx|err]; cbn [parsed is_Ok negb].
    + destruct (IH (txs ++ [tx]) (wrap64 (lineNumber + 1)) stdout) as [H1 H2].
      rewrite H1, H2. by rewrite <- app_assoc.
    + destruct (IH txs lineNumber
        (stdout ++ ["Warning: Failed to parse line " +:+ pretty lineNumber +:+ ": "
                    +:+ err +:+ newline])) as [H1 H2].
      rewrite H1, H2, length_app. simpl. split; [done | lia].
Qed.

Lemma omap_parsed_filter rows :
  omap (fun row => parsed (parse row)) (List.filter (fun row => is_Ok (parse row)) rows)
  = omap (fun row => parsed (parse row)) rows.
Proof.
  induction rows as [|row rows IH]; [done|].
  cbn [List.filter omap list_omap].
  destruct (parse row) as [tx|err] eqn:Hp; cbn [is_Ok parsed].
  - cbn [omap list_omap]. rewrite Hp. cbn [parsed]. by rewrite IH.
  - apply IH.
Qed.

End ConverterSkips.

Section EngineSkips.
Variable unicode_ToLower : Z -> Z.
Variable strings_Title : string -> string.
Variable time_Parse : string -> string -> option Time.
Context {TS VS : Type}.
Variable e : Engine TS VS.
Variable columnMap : gmap string nat.

Local Abbreviation transformRecord :=
  (EngineM.transformRecord unicode_ToLower strings_Title time_Parse e).
Local Abbreviation extract :=
  (fun row => extractFields unicode_ToLower strings_Title time_Parse e row columnMap).

(** [transformRecord] is the extraction followed, when it succeeds, by the
    loop over the transformations; a failing extraction leaves the
    transformations untouched. *)
Lemma transformRecord_extract record (st : TS) :
  transformRecord record columnMap st =
  match extract record with
  | Err err => (Err err, st)
  | Ok tx =>
      (Ok (applyTransformations (transformations e) tx st).1,
       (applyTransformations (transformations e) tx st).2)
  end.
Proof.
  unfold EngineM.transformRecord, extractFields.
  destruct (column record columnMap "price") as [v|];
    [destruct (parsePrice e v); [|done]|];
    (destruct (column record columnMap "quantity") as [q|];
     [destruct (ParseInt (cleanString e q)); [|done]|]);
    (destruct (column record columnMap "transaction_date") as [d|];
     [destruct (parseDate time_Parse e d); [|done]|]);
    by destruct (applyTransformations _ _ _).
Qed.

(** When the extraction of the engine fails: on a price, quantity or date
    column that is present and cannot be parsed, and on nothing else. *)
Lemma extractFields_fails_iff (record : list string) :
  failed (extract record) = true <->
  (∃ v, column record columnMap "price" = Some v ∧ failed (parsePrice e v) = true) ∨
  (∃ v, column record columnMap "quantity" = Some v ∧
        failed (ParseInt (cleanString e v)) = true) ∨
  (∃ v, column record columnMap "transaction_date" = Some v ∧
        failed (parseDate time_Parse e v) = true).
Proof.
  unfold extractFields, failed.
  destruct (column record columnMap "price") as [v|].
  - destruct (parsePrice e v) as [price|err] eqn:Hp;
      [|simpl; split; [intros _; left; exists v; by rewrite Hp | done]].
    destruct (column record columnMap "quantity") as [q|].
    + destruct (ParseInt (cleanString e q)) as [quantity|err] eqn:Hq;
        [|simpl; split; [intros _; right; left; exists q; by rewrite Hq | done]].
      destruct (column record columnMap "transaction_date") as [d|].
      * destruct (parseDate time_Parse e d) as [date|err] eqn:Hd; simpl.
        -- split; [done|]. intros [(? & [= <-] & H)|[(? & [= <-] & H)|(? & [= <-] & H)]];
             [by rewrite Hp in H | by rewrite Hq in H | by rewrite Hd in H].
        -- split; [intros _; right; right; exists d; by rewrite Hd | done].
      * simpl. split; [done|].
        intros [(? & [= <-] & H)|[(? & [= <-] & H)|(? & ? & _)]];
          [by rewrite Hp in H | by rewrite Hq in H | done].
    + destruct (column record columnMap "transaction_date") as [d|].
      * destruct (parseDate time_Parse e d) as [date|err] eqn:Hd; simpl.
        -- split; [done|]. intros [(? & [= <-] & H)|[(? & ? & _)|(? & [= <-] & H)]];
             [by rewrite Hp in H | done | by rewrite Hd in H].
        -- split; [intros _; right; right; exists d; by rewrite Hd | done].
      * simpl. split; [done|].
        intros [(? & [= <-] & H)|[(? & ? & _)|(? & ? & _)]];
          [by rewrite Hp in H | done | done].
  - destruct (column record columnMap "quantity") as [q|].
    + destruct (ParseInt (cleanString e q)) as [quantity|err] eqn:Hq;
        [|simpl; split; [intros _; right; left; exists q; by rewrite Hq | done]].
      destruct (column record columnMap "transaction_date") as [d|].
      * destruct (parseDate time_Parse e d) as [date|err] eqn:Hd; simpl.
        -- split; [done|]. intros [(? & ? & _)|[(? & [= <-] & H)|(? & [= <-] & H)]];
             [done | by rewrite Hq in H | by rewrite Hd in H].
        -- split; [intros _; right; right; exists d; by rewrite Hd | done].
      * simpl. split; [done|].
        intros [(? & ? & _)|[(? & [= <-] & H)|(? & ? & _)]];
          [done | by rewrite Hq in H | done].
    + destruct (column record columnMap "transaction_date") as [d|].
      * destruct (parseDate time_Parse e d) as [date|err] eqn:Hd; simpl.
        -- split; [done|]. intros [(? & ? & _)|[(? & ? & _)|(? & [= <-] & H)]];
             [done | done | by rewrite Hd in H].
        -- split; [intros _; right; right; exists d; by rewrite Hd | done].
      * simpl. split; [done|]. intros [(? & ? & _)|[(? & ? & _)|(? & ? & _)]]; done.
Qed.

Lemma readAll_rows rows rawRecords result :
  let run := readAll (Ok <$> rows) rawRecords result in
  run.1 = rawRecords ++ rows ∧
  OriginalRecords run.2 = OriginalRecords result + Z.of_nat (length rows) ∧
  TransformedRecords run.2 = TransformedRecords result ∧
  SkippedRecords run.2 = SkippedRecords result ∧
  Errors run.2 = Errors result.
Proof.
  revert rawRecords result. induction rows as [|row rows IH]; intros rawRecords result;
    cbv zeta; cbn [fmap list_fmap readAll].
  - rewrite app_nil_r. simpl. repeat split; lia.
  - destruct (IH (rawRecords ++ [row]) (incr_original result)) as (H1 & H2 & H3 & H4 & H5).
    rewrite H1, H2, H3, H4, H5, <- app_assoc. simpl length.
    simpl. repeat split; lia.
Qed.

(** The loop over the raw records: a record whose extraction fails adds
    one error and one to SkippedRecords; any other record is handed on and
    adds one to TransformedRecords. *)
Lemma processRecords_counts rawRecords acc result (ts : TS) (vs : VS) :
  let run :=
    EngineM.processRecords unicode_ToLower strings_Title time_Parse e
                           rawRecords columnMap acc result ts vs in
  let nfail := Z.of_nat (length (List.filter (fun row => failed (extract row)) rawRecords)) in
  let nok := Z.of_nat (length (List.filter (fun row => is_Ok (extract row)) rawRecords)) in
  Z.of_nat (length ((run.1).1).1) = Z.of_nat (length acc) + nok ∧
  SkippedRecords ((run.1).1).2 = SkippedRecords result + nfail ∧
  TransformedRecords ((run.1).1).2 = TransformedRecords result + nok ∧
  OriginalRecords ((run.1).1).2 = OriginalRecords result ∧
  Z.of_nat (length (Errors ((run.1).1).2)) = Z.of_nat (length (Errors result)) + nfail.
Proof.
  unfold failed. revert acc result ts vs.
  induction rawRecords as [|record rawRecords IH]; intros acc result ts vs; cbv zeta;
    cbn [EngineM.processRecords List.filter].
  - simpl. repeat split; lia.
  - rewrite transformRecord_extract.
    destruct (extract record) as [tx|err]; cbn [is_Ok negb].
    + match goal with
      | |- context [if EnableValidation (e_config e) then ?a else ?b] =>
          destruct (if EnableValidation (e_config e) then a else b)
            as [[tx1 r1] vs1] eqn:E
      end.
      assert (Hr : SkippedRecords r1 = SkippedRecords result ∧
                   TransformedRecords r1 = TransformedRecords result ∧
                   OriginalRecords r1 = OriginalRecords result ∧
                   Errors r1 = Errors result).
      { destruct (EnableValidation (e_config e)).
        - destruct (validateTransaction _ _ _) as [[tx2 [w|]] vs0];
            injection E as <- <- <-; done.
        - injection E as <- <- <-. done. }
      destruct Hr as (Hs & Ht & Ho & He).
      destruct (IH (acc ++ [tx1]) (incr_transformed r1)
                   (applyTransformations (transformations e) tx ts).2 vs1)
        as (H1 & H2 & H3 & H4 & H5).
      rewrite H1, H2, H3, H4, H5, length_app. simpl. rewrite Hs, Ht, Ho, He.
      repeat split; lia.
    + destruct (IH acc (incr_skipped (add_error err result)) ts vs)
        as (H1 & H2 & H3 & H4 & H5).
      rewrite H1, H2, H3, H4, H5. simpl. rewrite length_app. simpl.
      repeat split; lia.
Qed.

End EngineSkips.

Lemma processParsed_no_optimization {TS VS} (fdh : FlexibleDataHandler TS VS)
    order transactions ts vs :
  EnableOptimization (config fdh) = false ->
  (((processParsed fdh order transactions ts vs).1).1).1
  = (((processTransactions fdh transactions 0 [] [] ts vs).1).1).1.
Proof.
  intros Hopt. unfold processParsed. rewrite Hopt.
  by destruct (processTransactions fdh transactions 0 [] [] ts vs) as [[[out w] ts'] vs'].
Qed.

(** C1 fails as it is worded. A CSV record with an empty identifier is
    dropped by the parser of [ProcessDataFile], but the SkippedRecords
    counter of the returned result stays 0; and [TransformCSVData] does not
    drop such a record at all: it is returned, with an empty identifier,
    and not counted as skipped. *)
Lemma skipped_counter_counterexample :
  (let run := ProcessDataFile (fun r => r) noLayoutParses (fun _ => "") defaultHandler
                              [] "sales.csv" (Ok idlessFile) tt ∅ in
   match ((run.1).1).1 with
   | Ok (out, result) =>
       out = [] ∧ OriginalRecords result = 0 ∧ SkippedRecords result = 0
   | Err _ => False
   end ∧ length run.2 = 1%nat) ∧
  match TransformCSVData (fun r => r) (fun s => s) noLayoutParses defaultEngine
                         [] idlessReads tt ∅ with
  | Ok (out, result, _, _) =>
      ID <$> out = [""] ∧ SkippedRecords result = 0 ∧ TransformedRecords result = 1
  | Err _ => False
  end.
Proof. vm_compute. repeat split; reflexivity. Qed.

(** C1, amended. In [ProcessDataFile], a CSV record that fails the
    extraction of its required fields (empty identifier, product name,
    price or date, or a price, quantity or date that cannot be parsed) is
    dropped by the parser, which prints one warning line for it: the parser
    returns the records that parse, in their order, and returns the same
    for the input without the failing records, so that no later stage sees
    them; the per-record stage then hands on one record for every parsed
    transaction, and without optimization these are the records returned.
    In [TransformCSVData], a record whose price, quantity or date column is
    present and cannot be parsed is dropped before the transformations are
    run on it, adds one error and adds one to SkippedRecords, and nothing
    else makes the extraction fail (a record without identifier or product
    name is kept); every other record is handed on and counted in
    TransformedRecords. *)
Theorem parse_failures_are_dropped
    (unicode_ToLower : Z -> Z) (strings_Title : string -> string)
    (time_Parse : string -> string -> option Time)
    (config : TransformConfig)
    {TS VS : Type} (fdh : FlexibleDataHandler TS VS) (e : Engine TS VS)
    (order : list string) (header : list string) (rows : list (list string))
    (transactions : list Transaction) (ts : TS) (vs : VS) :
  let columnMap := createColumnMapping unicode_ToLower header in
  let parse := fun row => parseRecordToTransaction time_Parse config row columnMap in
  let parseCSV := parseCSV unicode_ToLower time_Parse config in
  let engineMap := headerMap unicode_ToLower 0 header ∅ in
  let extract :=
    fun row => extractFields unicode_ToLower strings_Title time_Parse e row engineMap in
  (parseCSV (Ok header :: (Ok <$> rows))).1
    = Ok (omap (fun row => parsed (parse row)) rows) ∧
  length (parseCSV (Ok header :: (Ok <$> rows))).2
    = length (List.filter (fun row => failed (parse row)) rows) ∧
  (parseCSV (Ok header :: (Ok <$> List.filter (fun row => is_Ok (parse row)) rows))).1
    = (parseCSV (Ok header :: (Ok <$> rows))).1 ∧
  (∀ record,
     let get := getField record columnMap in
     failed (parse record) = true <->
     get "transaction_id" = "" ∨ get "product_name" = "" ∨ get "price" = "" ∨
     failed (parseFlexiblePrice config (get "price")) = true ∨
     failed (Strconv.ParseInt
               (if String.eqb (get "quantity") "" then "1" else get "quantity")) = true ∨
     get "transaction_date" = "" ∨
     failed (parseFlexibleDate time_Parse config (get "transaction_date")) = true) ∧
  length (((processTransactions fdh transactions 0 [] [] ts vs).1).1).1
    = length transactions ∧
  (EnableOptimization (Handler.config fdh) = false ->
   (((processParsed fdh order transactions ts vs).1).1).1
   = (((processTransactions fdh transactions 0 [] [] ts vs).1).1).1) ∧
  (∀ record st,
     transformRecord unicode_ToLower strings_Title time_Parse e record engineMap st =
     match extract record with
     | Err err => (Err err, st)
     | Ok tx =>
         ((Ok (applyTransformations (transformations e) tx st).1),
          (applyTransformations (transformations e) tx st).2)
     end) ∧
  (∀ record,
     failed (extract record) = true <->
     (∃ v, column record engineMap "price" = Some v ∧ failed (parsePrice e v) = true) ∨
     (∃ v, column record engineMap "quantity" = Some v ∧
           failed (Strconv.ParseInt (cleanString e v)) = true) ∨
     (∃ v, column record engineMap "transaction_date" = Some v ∧
           failed (parseDate time_Parse e v) = true)) ∧
  match TransformCSVData_records unicode_ToLower strings_Title time_Parse e
          (Ok header :: (Ok <$> rows)) ts vs with
  | Ok (out, result, _, _) =>
      let nfail := Z.of_nat (length (List.filter (fun row => failed (extract row)) rows)) in
      let nok := Z.of_nat (length (List.filter (fun row => is_Ok (extract row)) rows)) in
      OriginalRecords result = Z.of_nat (length rows) ∧
      SkippedRecords result = nfail ∧
      TransformedRecords result = nok ∧
      Z.of_nat (length out) = nok ∧
      Z.of_nat (length (Errors result)) = nfail
  | Err _ => False
  end.
Proof.
  cbv zeta.
  pose proof (parseCSV_loop_rows time_Parse config
                (createColumnMapping unicode_ToLower header) rows [] 1 []) as [HA1 HA2].
  pose proof (parseCSV_loop_rows time_Parse config
                (createColumnMapping unicode_ToLower header)
                (List.filter (fun row => is_Ok (parseRecordToTransaction time_Parse config
                   row (createColumnMapping unicode_ToLower header))) rows) [] 1 [])
    as [HB1 _].
  cbv zeta in HA1, HA2, HB1.
  split; [exact HA1|]. split; [exact HA2|].
  split; [cbn [parseCSV]; rewrite HA1, HB1; simpl; by rewrite omap_parsed_filter|].
  split; [apply parseRecordToTransaction_fails_iff|].
  split; [by rewrite ValidationFacts.processTransactions_length|].
  split; [apply processParsed_no_optimization|].
  split; [intros; apply transformRecord_extract|].
  split; [apply extractFields_fails_iff|].
  unfold TransformCSVData_records.
  pose proof (readAll_rows rows [] emptyResult) as (HR1 & HR2 & HR3 & HR4 & HR5).
  cbv zeta in *. destruct (readAll (Ok <$> rows) [] emptyResult) as [rawRecords result].
  simpl in HR1, HR2, HR3, HR4, HR5. subst rawRecords.
  pose proof (processRecords_counts unicode_ToLower strings_Title time_Parse e
                (headerMap unicode_ToLower 0 header ∅) rows [] result ts vs)
    as (H1 & H2 & H3 & H4 & H5).
  cbv zeta in *.
  destruct (processRecords _ _ _ e rows _ [] result ts vs) as [[[out r] ts'] vs'].
  simpl in H1, H2, H3, H4, H5. rewrite HR3 in H3. rewrite HR4 in H2. rewrite HR5 in H5.
  rewrite HR2 in H4. simpl in *. repeat split; lia.
Qed.

End SkipFacts.
(* ===================================================================== *)
(** * Further properties of the pipeline                                    *)
(* ===================================================================== *)

Module DedupMore.
Import GoTime Models Optimizations Stages EngineM Handler Spec DedupFacts CompositeKeyFacts.

(** X1. DataDeduplication.Optimize returns a sublist of its input in which no
    composite key occurs twice; every record of the input has a survivor
    with its key; a record survives exactly when it stands at the first
    position that carries its key; and two survivors that agree on
    identifier, country, region, product name, price, quantity and Unix
    second are the same record (records that differ only below the second,
    or in the time zone, are merged). *)
Theorem DataDeduplication_keeps_first_per_key (transactions : list Transaction) :
  let unique := DataDeduplication_Optimize transactions in
  sublist unique transactions ∧
  NoDup (compositeKey <$> unique) ∧
  (∀ tx, tx ∈ transactions -> ∃ tx', tx' ∈ unique ∧ compositeKey tx' = compositeKey tx) ∧
  (∀ tx, tx ∈ unique <->
         ∃ i, transactions !! i = Some tx ∧
              ∀ j tx', (j < i)%nat -> transactions !! j = Some tx' ->
                       compositeKey tx' ≠ compositeKey tx) ∧
  (∀ tx1 tx2, tx1 ∈ unique -> tx2 ∈ unique ->
              ID tx1 = ID tx2 -> Country tx1 = Country tx2 ->
              Region tx1 = Region tx2 -> ProductName tx1 = ProductName tx2 ->
              UnitPriceCents tx1 = UnitPriceCents tx2 ->
              Quantity tx1 = Quantity tx2 ->
              Unix_of (TxTime tx1) = Unix_of (TxTime tx2) -> tx1 = tx2).
Proof.
  cbv zeta. rewrite DataDeduplication_keepFirst.
  split; [apply keepFirst_sublist|]. split; [apply keepFirst_NoDup|]. split; [|split].
  - intros tx Htx.
    assert (H : compositeKey tx ∈ compositeKey <$> keepFirst compositeKey [] transactions).
    { apply keepFirst_covers; [|by intros ?%elem_of_nil].
      apply list_elem_of_fmap. by exists tx. }
    apply list_elem_of_fmap in H as (tx' & Hk & Hin). by exists tx'.
  - intros tx. rewrite keepFirst_elem. split; [tauto|].
    intros H. split; [by intros ?%elem_of_nil | done].
  - intros tx1 tx2 H1 H2 Hid Hc Hr Hp Hu Hq Ht.
    assert (Hk : compositeKey tx1 = compositeKey tx2).
    { unfold compositeKey. by rewrite Hid, Hc, Hr, Hp, Hu, Hq, Ht. }
    pose proof (keepFirst_NoDup compositeKey [] transactions) as Hnd.
    apply (NoDup_fmap_1 compositeKey) in Hnd as Hnd'.
    apply list_elem_of_lookup in H1 as [i Hi]. apply list_elem_of_lookup in H2 as [j Hj].
    assert (i = j).
    { eapply NoDup_lookup; [exact Hnd | |];
        rewrite list_lookup_fmap; [by rewrite Hi | rewrite Hj; simpl; by rewrite Hk]. }
    subst j. congruence.
Qed.

(** X2. DuplicateRemoval.Optimize and DataDeduplication.Optimize are
    idempotent: run on their own output they return it unchanged. Neither
    returns more records than it is given. *)
Theorem deduplication_idempotent (transactions : list Transaction) :
  DuplicateRemoval_Optimize (DuplicateRemoval_Optimize transactions)
    = DuplicateRemoval_Optimize transactions ∧
  DataDeduplication_Optimize (DataDeduplication_Optimize transactions)
    = DataDeduplication_Optimize transactions ∧
  (length (DuplicateRemoval_Optimize transactions) <= length transactions)%nat ∧
  (length (DataDeduplication_Optimize transactions) <= length transactions)%nat.
Proof.
  rewrite !DuplicateRemoval_keepFirst, !DataDeduplication_keepFirst.
  split; [|split; [|split]].
  - apply keepFirst_id; [apply keepFirst_NoDup | by intros ? _ ?%elem_of_nil].
  - apply keepFirst_id; [apply keepFirst_NoDup | by intros ? _ ?%elem_of_nil].
  - apply sublist_length, keepFirst_sublist.
  - apply sublist_length, keepFirst_sublist.
Qed.

Lemma acceptedBy_Uniqueness txs seen ks :
  agrees seen ks ->
  (acceptedBy UniquenessValidator txs seen).1 = keepFirst ID ks txs ∧
  ∀ k, seen_get (acceptedBy UniquenessValidator txs seen).2 k = true
       ↔ k ∈ ks ∨ k ∈ ID <$> txs.
Proof.
  revert seen ks. induction txs as [|tx txs IH]; intros seen ks Hag.
  - cbn [acceptedBy fst snd keepFirst]. split; [done|]. intros k. rewrite (Hag k).
    rewrite fmap_nil, elem_of_nil. tauto.
  - cbn [acceptedBy keepFirst UniquenessValidator V_Validate].
    unfold UniquenessValidator_Validate.
    destruct (decide (ID tx ∈ ks)) as [Hin|Hnin].
    + rewrite (proj2 (Hag _) Hin).
      destruct (IH seen ks Hag) as [H1 H2].
      destruct (acceptedBy UniquenessValidator txs seen) as [acc st]. cbn [fst snd] in *.
      split; [done|]. intros k. rewrite H2, fmap_cons, elem_of_cons.
      split; [tauto|]. intros [?|[->|?]]; tauto.
    + destruct (seen_get seen (ID tx)) eqn:Hs; [by apply Hag in Hs|].
      destruct (IH _ _ (agrees_insert seen ks (ID tx) Hag)) as [H1 H2].
      destruct (acceptedBy UniquenessValidator txs (<[ID tx:=true]> seen)) as [acc st].
      cbn [fst snd] in *. split; [by f_equal|]. intros k.
      rewrite H2, fmap_cons, !elem_of_cons. tauto.
Qed.

(** X3. UniquenessValidator.Validate, called on the records of a batch in turn
    from a fresh state, accepts exactly the records that
    DuplicateRemoval.Optimize keeps, and ends with exactly the identifiers
    of the batch marked as seen. *)
Theorem UniquenessValidator_rejects_what_DuplicateRemoval_drops
    (transactions : list Transaction) :
  (acceptedBy UniquenessValidator transactions ∅).1
    = DuplicateRemoval_Optimize transactions ∧
  ∀ id, seen_get (acceptedBy UniquenessValidator transactions ∅).2 id = true
        ↔ id ∈ ID <$> transactions.
Proof.
  destruct (acceptedBy_Uniqueness transactions ∅ [] agrees_empty) as [H1 H2].
  split; [by rewrite DuplicateRemoval_keepFirst|].
  intros id. rewrite H2. split; [by intros [?%elem_of_nil|?] | by right].
Qed.

(** X4. With the optimizations that NewDataTransformationEngine registers,
    optimizeData of the engine and optimizeTransactions of the handler
    never fail: both return DataDeduplication of DuplicateRemoval of the
    batch, a sublist of the batch without repeated identifiers and without
    repeated composite keys. *)
Theorem default_optimizations_remove_duplicates {TS : Type}
    (StringCleaning CountryMapping RegionMapping ProductNameNormalization
       : Transformation TS)
    (DataTypeValidator_Validate : Transaction -> gmap string bool -> option string * gmap string bool)
    (config : Config.TransformConfig) (transactions : list Transaction) :
  let e := NewDataTransformationEngine StringCleaning CountryMapping RegionMapping
             ProductNameNormalization DataTypeValidator_Validate config in
  let out := DataDeduplication_Optimize (DuplicateRemoval_Optimize transactions) in
  optimizeData e transactions = Ok out ∧
  optimizeTransactions (mkHandler e config) transactions = Ok out ∧
  sublist out transactions ∧
  NoDup (ID <$> out) ∧
  NoDup (compositeKey <$> out).
Proof.
  cbv zeta. split; [reflexivity|]. split; [reflexivity|].
  rewrite DataDeduplication_keepFirst, DuplicateRemoval_keepFirst.
  split; [|split].
  - etransitivity; apply keepFirst_sublist.
  - assert (Hs : sublist (ID <$> keepFirst compositeKey [] (keepFirst ID [] transactions))
                         (ID <$> keepFirst ID [] transactions))
      by apply fmap_sublist, keepFirst_sublist.
    eapply sublist_NoDup in Hs; [exact Hs | apply keepFirst_NoDup].
  - apply keepFirst_NoDup.
Qed.

(** X5. For a batch in which no identifier holds a colon,
    DataDeduplication.Optimize run on the output of
    DuplicateRemoval.Optimize removes nothing. *)
Theorem composite_pass_is_identity_without_colons (transactions : list Transaction) :
  (∀ tx, tx ∈ transactions -> no_colon (ID tx)) ->
  DataDeduplication_Optimize (DuplicateRemoval_Optimize transactions)
  = DuplicateRemoval_Optimize transactions.
Proof. apply DataDeduplication_after_DuplicateRemoval_no_colon. Qed.

Lemma composite_pass_is_identity_without_colons_witness :
  (∀ tx, tx ∈ completeBatch -> no_colon (ID tx)) ∧
  DataDeduplication_Optimize (DuplicateRemoval_Optimize completeBatch)
  = DuplicateRemoval_Optimize completeBatch.
Proof.
  assert (H : ∀ tx, tx ∈ completeBatch -> no_colon (ID tx)).
  { intros tx Htx. unfold completeBatch in Htx.
    apply elem_of_cons in Htx as [->|Htx]; [reflexivity|].
    apply elem_of_cons in Htx as [->|Htx]; [reflexivity|].
    by apply elem_of_nil in Htx. }
  split; [exact H|]. apply (composite_pass_is_identity_without_colons completeBatch H).
Defined.

End DedupMore.

Module RatioFacts.
Import GoFloat FloatSpec FloatFacts.

Lemma SFdiv_self m e :
  SFdiv 53 1024 (S754_finite false m e) (S754_finite false m e)
  = S754_finite false 4503599627370496 (-52).
Proof.
  cbn [SFdiv xorb]. unfold SFdiv_core_binary.
  replace (Zdigits2 (Z.pos m) + e - (Zdigits2 (Z.pos m) + e)) with 0 by lia.
  replace (e - e) with 0 by lia.
  change (Z.min (SpecFloat.fexp 53 1024 0) 0) with (-53).
  change (0 - -53) with 53.
  assert (H : Z.div_eucl (Z.shiftl (Z.pos m) 53) (Z.pos m) = (2 ^ 53, 0)).
  { rewrite Z.shiftl_mul_pow2 by lia.
    pose proof (Z_div_mod (Z.pos m * 2 ^ 53) (Z.pos m) ltac:(lia)) as Hdm.
    destruct (Z.div_eucl (Z.pos m * 2 ^ 53) (Z.pos m)) as [q r].
    destruct Hdm as [Heq Hr].
    assert (r = 0).
    { assert (Hd : (Z.pos m | r)).
      { exists (2 ^ 53 - q). lia. }
      destruct Hd as [k Hk]. subst r. destruct (Z.eq_dec k 0) as [->|]; [lia|nia]. }
    subst r. f_equal. nia. }
  cbv beta iota. rewrite H.
  assert (Hl : new_location (Z.pos m) 0 = loc_Exact).
  { unfold new_location, new_location_even, new_location_odd.
    destruct (Z.even (Z.pos m)); reflexivity. }
  rewrite Hl. vm_compute. reflexivity.
Qed.

(** A canonical number below [1 - 2^-53] compares below one. *)
Lemma fle_below_one x :
  fle x (2 ^ 53 - 1) (-53) -> SFltb x (binary_normalize 53 1024 1 0 false) = true.
Proof.
  rewrite one_eq. intros [->|(m & e & -> & He & _)]; [reflexivity|].
  unfold SFltb, SFcompare.
  destruct (Z.compare_spec e (-52)); [lia | reflexivity | lia].
Qed.

Lemma fle_nonneg x mB eB : fle x mB eB -> SFleb (S754_zero false) x = true.
Proof. by intros [->|(m & e & -> & _)]. Qed.

(** The quotient of two integers below [2^53]: one when they are equal,
    strictly below one when the numerator is the smaller one. *)
Lemma ratio_one c :
  0 < c < 2 ^ 53 -> f64_div (f64_of_Z c) (f64_of_Z c) = f64_of_Z 1.
Proof.
  intros Hc. unfold f64_div, f64_of_Z, prec, emax.
  destruct (binary_normalize_exact c Hc) as (m & e & -> & _).
  rewrite SFdiv_self. symmetry. apply one_eq.
Qed.

Lemma ratio_fle c n :
  0 <= c < n -> n < 2 ^ 53 ->
  fle (f64_div (f64_of_Z c) (f64_of_Z n)) (2 ^ 53 - 1) (-53).
Proof.
  intros Hc Hn. unfold f64_div, f64_of_Z, prec, emax.
  destruct (binary_normalize_exact n ltac:(lia)) as (mn & en & -> & Hen & Hmn).
  destruct (Z.eq_dec c 0) as [->|Hc0]; [left; reflexivity|].
  destruct (binary_normalize_exact c ltac:(lia)) as (mc & ec & -> & Hec & Hmc).
  apply SFdiv_le; try lia.
  rewrite Hmc, Hmn, !sc_shift by lia.
  replace (ec + - ec) with 0 by lia. replace (en + - en) with 0 by lia.
  unfold sc. change (0 + 4000) with 4000. change (-53 + 4000) with 3947.
  replace (2 ^ 4000) with (2 ^ 53 * 2 ^ 3947) by (rewrite <- Z.pow_add_r by lia; reflexivity).
  set (P := 2 ^ 3947). assert (HP : 0 < P) by (apply pow2_pos; lia).
  set (Q := 2 ^ 53) in *. assert (HQ : 0 < Q) by (apply pow2_pos; lia).
  clearbody P Q.
  assert (H1 : c * Q <= (Q - 1) * n) by nia.
  replace (c * (Q * P) * (Q * P)) with (c * Q * (P * (Q * P))) by ring.
  replace ((Q - 1) * P * (n * (Q * P))) with ((Q - 1) * n * (P * (Q * P))) by ring.
  apply Z.mul_le_mono_nonneg_r; [nia | exact H1].
Qed.

Lemma ratio_lt_one c n :
  0 <= c < n -> n < 2 ^ 53 ->
  f64_ltb (f64_div (f64_of_Z c) (f64_of_Z n)) (f64_of_Z 1) = true.
Proof. intros Hc Hn. apply fle_below_one, ratio_fle; assumption. Qed.

End RatioFacts.

Module ScoreFacts.
Import GoFloat GoTime Models Optimizations Stages Quality Spec FloatSpec FloatFacts
       DedupFacts QualityFacts RatioFacts.

Lemma uniqueIDs_size_gen (l : list Transaction) (m : gmap string bool) ks :
  (∀ k, is_Some (m !! k) ↔ k ∈ ks) ->
  size (fold_left (fun m tx => <[ID tx := true]> m) l m)
  = (size m + length (keepFirst ID ks l))%nat.
Proof.
  revert m ks. induction l as [|tx l IH]; intros m ks Hm; cbn [fold_left keepFirst].
  - cbn. lia.
  - destruct (decide (ID tx ∈ ks)) as [Hin|Hnin].
    + rewrite (IH _ ks).
      * rewrite map_size_insert_Some by by apply Hm. done.
      * intros k. destruct (decide (k = ID tx)) as [->|Hne].
        -- rewrite lookup_insert_eq. split; [done | by eexists].
        -- rewrite lookup_insert_ne by done. apply Hm.
    + rewrite (IH _ (ID tx :: ks)).
      * rewrite map_size_insert_None.
        -- cbn [length]. lia.
        -- destruct (m !! ID tx) eqn:E; [|done]. exfalso. apply Hnin, Hm. by eexists.
      * intros k. rewrite elem_of_cons. destruct (decide (k = ID tx)) as [->|Hne].
        -- rewrite lookup_insert_eq. split; [by left | by eexists].
        -- rewrite lookup_insert_ne by done. rewrite Hm. split; [by right | by intros [?|?]].
Qed.

(** The number of distinct identifiers is the number of records that
    DuplicateRemoval keeps. *)
Lemma uniqueIDs_size txs :
  size (uniqueIDs txs) = length (DuplicateRemoval_Optimize txs).
Proof.
  unfold uniqueIDs. rewrite (uniqueIDs_size_gen txs ∅ []).
  - rewrite map_size_empty, DuplicateRemoval_keepFirst. done.
  - intros k. rewrite lookup_empty. split; [by intros [? ?] | by intros ?%elem_of_nil].
Qed.

Lemma DuplicateRemoval_length_NoDup txs :
  length (DuplicateRemoval_Optimize txs) = length txs ↔ NoDup (ID <$> txs).
Proof.
  rewrite DuplicateRemoval_keepFirst. split.
  - intros Hlen.
    assert (Hp : keepFirst ID [] txs ≡ₚ txs).
    { apply submseteq_length_Permutation; [apply sublist_submseteq, keepFirst_sublist | lia]. }
    rewrite <- Hp. apply keepFirst_NoDup.
  - intros Hnd. rewrite keepFirst_id; [done | done | by intros ? _ ?%elem_of_nil].
Qed.

Lemma validTransactions_gen txs acc :
  fold_left (fun n tx => if (0 <=? UnitPriceCents tx) && (0 <=? Quantity tx)
                         then n + 1 else n) txs acc
  = acc + Z.of_nat (length (List.filter
            (fun tx => (0 <=? UnitPriceCents tx) && (0 <=? Quantity tx)) txs)).
Proof.
  revert acc. induction txs as [|tx txs IH]; intros acc; cbn [fold_left List.filter].
  - cbn. lia.
  - rewrite IH. destruct ((0 <=? UnitPriceCents tx) && (0 <=? Quantity tx)); cbn [length]; lia.
Qed.

Lemma filter_length_all {A} (f : A -> bool) (l : list A) :
  length (List.filter f l) = length l ↔ Forall (fun x => f x = true) l.
Proof.
  induction l as [|x l IH]; cbn [List.filter]; [split; [constructor | done]|].
  pose proof (List.filter_length_le f l).
  destruct (f x) eqn:E; cbn [length].
  - split.
    + intros Hlen. constructor; [done|]. apply IH. lia.
    + intros Hall. apply Forall_cons in Hall as [_ Hall]. apply IH in Hall. lia.
  - split; [lia|]. intros Hall. apply Forall_cons in Hall as [Hx _]. congruence.
Qed.

Section Batch.

Variable order : list string.
Variable txs : list Transaction.
Hypothesis nonempty : txs ≠ [].
Hypothesis short : Z.of_nat (length txs) < 2 ^ 53.

#[local] Abbreviation metrics := (calculateDataQuality order txs).

Lemma Uniqueness_eq :
  Uniqueness metrics =
  f64_div (f64_of_Z (Z.of_nat (size (uniqueIDs txs)))) (f64_of_Z (Z.of_nat (length txs))).
Proof.
  unfold calculateDataQuality, calculateDataQuality_run.
  destruct txs as [|tx txs']; [done|].
  rewrite completenessLoop_spec. reflexivity.
Qed.

Lemma Validity_eq :
  Validity metrics =
  f64_div (f64_of_Z (validTransactions txs)) (f64_of_Z (Z.of_nat (length txs))).
Proof.
  unfold calculateDataQuality, calculateDataQuality_run.
  destruct txs as [|tx txs']; [done|].
  rewrite completenessLoop_spec. reflexivity.
Qed.

Lemma ratio_cases c :
  0 <= c <= Z.of_nat (length txs) ->
  (c = Z.of_nat (length txs) ->
   f64_div (f64_of_Z c) (f64_of_Z (Z.of_nat (length txs))) = f64_of_Z 1) ∧
  (c ≠ Z.of_nat (length txs) ->
   f64_ltb (f64_div (f64_of_Z c) (f64_of_Z (Z.of_nat (length txs)))) (f64_of_Z 1) = true).
Proof.
  intros Hc. pose proof (batch_length_bounds txs nonempty short) as Hn. split.
  - intros ->. by apply ratio_one.
  - intros Hne. apply ratio_lt_one; lia.
Qed.

End Batch.

Lemma Uniqueness_cases (order : list string) (txs : list Transaction) :
  txs ≠ [] -> Z.of_nat (length txs) < 2 ^ 53 ->
  Uniqueness (calculateDataQuality order txs)
    = f64_div (f64_of_Z (Z.of_nat (length (DuplicateRemoval_Optimize txs))))
              (f64_of_Z (Z.of_nat (length txs))) ∧
  (NoDup (ID <$> txs) ->
   Uniqueness (calculateDataQuality order txs) = f64_of_Z 1) ∧
  (¬ NoDup (ID <$> txs) ->
   f64_ltb (Uniqueness (calculateDataQuality order txs)) (f64_of_Z 1) = true).
Proof.
  intros Hne Hlen. rewrite Uniqueness_eq by done. rewrite uniqueIDs_size.
  split; [done|].
  pose proof (sublist_length _ _ (keepFirst_sublist ID [] txs)) as Hle.
  rewrite <- DuplicateRemoval_keepFirst in Hle.
  destruct (ratio_cases txs Hne Hlen (Z.of_nat (length (DuplicateRemoval_Optimize txs))))
    as [H1 H2]; [lia|].
  split.
  - intros Hnd. apply H1. apply DuplicateRemoval_length_NoDup in Hnd. lia.
  - intros Hnd. apply H2. intros Heq. apply Hnd, DuplicateRemoval_length_NoDup. lia.
Qed.

Lemma Validity_cases (order : list string) (txs : list Transaction) :
  txs ≠ [] -> Z.of_nat (length txs) < 2 ^ 53 ->
  let valid := fun tx => 0 <= UnitPriceCents tx ∧ 0 <= Quantity tx in
  (Forall valid txs -> Validity (calculateDataQuality order txs) = f64_of_Z 1) ∧
  (¬ Forall valid txs ->
   f64_ltb (Validity (calculateDataQuality order txs)) (f64_of_Z 1) = true).
Proof.
  intros Hne Hlen valid. rewrite Validity_eq by done.
  unfold validTransactions. rewrite validTransactions_gen, Z.add_0_l.
  set (f := fun tx => (0 <=? UnitPriceCents tx) && (0 <=? Quantity tx)).
  pose proof (List.filter_length_le f txs) as Hle.
  assert (Hall : Forall valid txs ↔ length (List.filter f txs) = length txs).
  { rewrite filter_length_all. apply Forall_iff. intros tx. unfold valid, f.
    rewrite andb_true_iff, !Z.leb_le. done. }
  destruct (ratio_cases txs Hne Hlen (Z.of_nat (length (List.filter f txs))))
    as [H1 H2]; [lia|].
  split.
  - intros Hv. apply H1. apply Hall in Hv. lia.
  - intros Hv. apply H2. intros Heq. apply Hv, Hall. lia.
Qed.

Lemma fieldMetric_cases (order : list string)
    (txs : list Transaction) (field : string) :
  txs ≠ [] -> Z.of_nat (length txs) < 2 ^ 53 ->
  let metric := fieldMetric (calculateDataQuality order txs) (field +:+ "_completeness") in
  (Forall (fun tx => present field tx = true) txs -> metric = f64_of_Z 1) ∧
  (¬ Forall (fun tx => present field tx = true) txs ->
   f64_ltb metric (f64_of_Z 1) = true).
Proof.
  intros Hne Hlen metric. unfold metric. rewrite fieldMetric_fraction by done.
  unfold fraction, presentCount.
  pose proof (List.filter_length_le (present field) txs) as Hle.
  destruct (ratio_cases txs Hne Hlen (Z.of_nat (length (List.filter (present field) txs))))
    as [H1 H2]; [lia|].
  split.
  - intros Hv. apply H1. apply filter_length_all in Hv. lia.
  - intros Hv. apply H2. intros Heq. apply Hv, filter_length_all. lia.
Qed.

Lemma Completeness_complete (order : list string) (txs : list Transaction) :
  txs ≠ [] -> Z.of_nat (length txs) < 2 ^ 53 ->
  (∀ field, field ∈ canonicalFields -> Forall (fun tx => present field tx = true) txs) ->
  Completeness (calculateDataQuality order txs) = f64_of_Z 1.
Proof.
  intros Hne Hlen Hall.
  destruct (Completeness_mean order txs Hne Hlen) as (fields & Hperm & ->).
  unfold meanOf.
  assert (Hfr : ∀ field, field ∈ fields -> fraction txs field = f64_of_Z 1).
  { intros field Hf. rewrite Hperm in Hf. unfold fraction, presentCount.
    pose proof (proj2 (filter_length_all (present field) txs) (Hall field Hf)) as Hc.
    rewrite Hc.
    apply ratio_one. by apply batch_length_bounds. }
  assert (Hlist : fraction txs <$> fields = replicate 7 (f64_of_Z 1)).
  { apply Permutation_length in Hperm. cbn [length canonicalFields] in Hperm.
    clear Hall. revert Hfr.
    do 8 (destruct fields as [|? fields]; [try discriminate Hperm|]);
      [|discriminate Hperm].
    intros Hfr. cbn [fmap list_fmap replicate].
    rewrite !Hfr by set_solver. reflexivity. }
  rewrite Hlist. vm_compute. reflexivity.
Qed.

(** X6. For a non-empty batch of fewer than 2^53 records, the uniqueness score
    of calculateDataQuality is the number of records that
    DuplicateRemoval.Optimize keeps divided by the number of records; it
    is exactly 1 when the identifiers are pairwise distinct and strictly
    below 1 otherwise. *)
Theorem Uniqueness_one_iff_distinct (order : list string) (txs : list Transaction) :
  txs ≠ [] -> Z.of_nat (length txs) < 2 ^ 53 ->
  Uniqueness (calculateDataQuality order txs)
    = f64_div (f64_of_Z (Z.of_nat (length (DuplicateRemoval_Optimize txs))))
              (f64_of_Z (Z.of_nat (length txs))) ∧
  (NoDup (ID <$> txs) ->
   Uniqueness (calculateDataQuality order txs) = f64_of_Z 1) ∧
  (¬ NoDup (ID <$> txs) ->
   f64_ltb (Uniqueness (calculateDataQuality order txs)) (f64_of_Z 1) = true).
Proof. apply Uniqueness_cases. Qed.

(** X7. For a non-empty batch of fewer than 2^53 records, the validity score
    of calculateDataQuality is exactly 1 when no record has a negative
    price or a negative quantity, and strictly below 1 otherwise. *)
Theorem Validity_one_iff_nonnegative (order : list string) (txs : list Transaction) :
  txs ≠ [] -> Z.of_nat (length txs) < 2 ^ 53 ->
  let valid := fun tx => 0 <= UnitPriceCents tx ∧ 0 <= Quantity tx in
  (Forall valid txs -> Validity (calculateDataQuality order txs) = f64_of_Z 1) ∧
  (¬ Forall valid txs ->
   f64_ltb (Validity (calculateDataQuality order txs)) (f64_of_Z 1) = true).
Proof. apply Validity_cases. Qed.

(** X8. For a non-empty batch of fewer than 2^53 records, the completeness
    that calculateDataQuality reports for a field is exactly 1 when the
    field is present in every record and strictly below 1 otherwise (a
    name that is none of the seven fields reads as 0). *)
Theorem field_completeness_one_iff_present (order : list string)
    (txs : list Transaction) (field : string) :
  txs ≠ [] -> Z.of_nat (length txs) < 2 ^ 53 ->
  let metric := fieldMetric (calculateDataQuality order txs) (field +:+ "_completeness") in
  (Forall (fun tx => present field tx = true) txs -> metric = f64_of_Z 1) ∧
  (¬ Forall (fun tx => present field tx = true) txs ->
   f64_ltb metric (f64_of_Z 1) = true).
Proof. apply fieldMetric_cases. Qed.

(** X9. For a non-empty batch of fewer than 2^53 records in which each of the
    seven fields is present in every record, the overall completeness of
    calculateDataQuality is exactly 1, in whatever order the counters are
    walked: the seven additions and the division by 7 lose nothing to
    rounding. *)
Theorem Completeness_one_of_complete (order : list string) (txs : list Transaction) :
  txs ≠ [] -> Z.of_nat (length txs) < 2 ^ 53 ->
  (∀ field, field ∈ canonicalFields -> Forall (fun tx => present field tx = true) txs) ->
  Completeness (calculateDataQuality order txs) = f64_of_Z 1.
Proof. apply Completeness_complete. Qed.

(** ** Instances *)

Lemma Uniqueness_one_iff_distinct_witness :
  completeBatch ≠ [] ∧ Z.of_nat (length completeBatch) < 2 ^ 53 ∧
  Uniqueness (calculateDataQuality [] completeBatch)
    = f64_div (f64_of_Z (Z.of_nat (length (DuplicateRemoval_Optimize completeBatch))))
              (f64_of_Z (Z.of_nat (length completeBatch))) ∧
  (NoDup (ID <$> completeBatch) ->
   Uniqueness (calculateDataQuality [] completeBatch) = f64_of_Z 1) ∧
  (¬ NoDup (ID <$> completeBatch) ->
   f64_ltb (Uniqueness (calculateDataQuality [] completeBatch)) (f64_of_Z 1) = true).
Proof.
  split; [discriminate|]. split; [reflexivity|].
  apply (Uniqueness_one_iff_distinct [] completeBatch); [discriminate | reflexivity].
Defined.

Lemma Validity_one_iff_nonnegative_witness :
  completeBatch ≠ [] ∧ Z.of_nat (length completeBatch) < 2 ^ 53 ∧
  Validity (calculateDataQuality [] completeBatch) = f64_of_Z 1.
Proof.
  split; [discriminate|]. split; [reflexivity|].
  refine (proj1 (Validity_one_iff_nonnegative [] completeBatch _ _) _);
    [discriminate | reflexivity |].
  repeat apply Forall_cons_2; [split; discriminate | split; discriminate | apply Forall_nil_2].
Defined.

Lemma field_completeness_one_iff_present_witness :
  completeBatch ≠ [] ∧ Z.of_nat (length completeBatch) < 2 ^ 53 ∧
  fieldMetric (calculateDataQuality [] completeBatch) "region_completeness" = f64_of_Z 1.
Proof.
  split; [discriminate|]. split; [reflexivity|].
  refine (proj1 (field_completeness_one_iff_present [] completeBatch "region" _ _) _);
    [discriminate | reflexivity |].
  repeat apply Forall_cons_2; [reflexivity | reflexivity | apply Forall_nil_2].
Defined.

Lemma Completeness_one_of_complete_witness :
  completeBatch ≠ [] ∧ Z.of_nat (length completeBatch) < 2 ^ 53 ∧
  (∀ field, field ∈ canonicalFields ->
            Forall (fun tx => present field tx = true) completeBatch) ∧
  Completeness (calculateDataQuality [] completeBatch) = f64_of_Z 1.
Proof.
  assert (H : ∀ field, field ∈ canonicalFields ->
                       Forall (fun tx => present field tx = true) completeBatch).
  { intros field Hf. unfold canonicalFields in Hf.
    repeat (apply elem_of_cons in Hf as [->|Hf];
            [repeat apply Forall_cons_2; [reflexivity | reflexivity | apply Forall_nil_2]|]).
    by apply elem_of_nil in Hf. }
  split; [discriminate|]. split; [reflexivity|]. split; [exact H|].
  apply (Completeness_one_of_complete [] completeBatch); [discriminate | reflexivity | exact H].
Defined.

End ScoreFacts.

Module EngineFacts.
Import GoStrings GoFloat Strconv GoTime Models Config Optimizations Stages Quality
       EngineM Handler Spec DedupFacts.

#[local] Ltac split_all := repeat (match goal with |- _ ∧ _ => split end).

Section Bookkeeping.
Variable unicode_ToLower : Z -> Z.
Variable strings_Title : string -> string.
Variable time_Parse : string -> string -> option Time.
Context {TS VS : Type}.
Variable e : Engine TS VS.

Lemma readAll_counts reads rawRecords result :
  let run := readAll reads rawRecords result in
  Z.of_nat (length run.1)
    = Z.of_nat (length rawRecords) + Z.of_nat (length (List.filter is_Ok reads)) ∧
  OriginalRecords run.2
    = OriginalRecords result + Z.of_nat (length (List.filter is_Ok reads)) ∧
  Z.of_nat (length (Errors run.2))
    = Z.of_nat (length (Errors result)) + Z.of_nat (length (List.filter failed reads)) ∧
  TransformedRecords run.2 = TransformedRecords result ∧
  SkippedRecords run.2 = SkippedRecords result ∧
  Warnings run.2 = Warnings result ∧
  Transformations run.2 = Transformations result.
Proof.
  revert rawRecords result. induction reads as [|[record|err] reads IH];
    intros rawRecords result; cbv zeta; cbn [readAll List.filter is_Ok failed negb].
  - cbn. repeat split; lia.
  - destruct (IH (rawRecords ++ [record]) (incr_original result))
      as (H1 & H2 & H3 & H4 & H5 & H6 & H7).
    rewrite H1, H2, H3, H4, H5, H6, H7, length_app. cbn. repeat split; lia.
  - destruct (IH rawRecords (add_error ("CSV read error: " +:+ err) result))
      as (H1 & H2 & H3 & H4 & H5 & H6 & H7).
    rewrite H1, H2, H3, H4, H5, H6, H7. cbn. rewrite length_app. cbn. repeat split; lia.
Qed.

Lemma processRecords_bookkeeping rawRecords columnMap acc result (ts : TS) (vs : VS) :
  let run := processRecords unicode_ToLower strings_Title time_Parse e
               rawRecords columnMap acc result ts vs in
  let r := ((run.1).1).2 in
  TransformedRecords r + SkippedRecords r
    = TransformedRecords result + SkippedRecords result + Z.of_nat (length rawRecords) ∧
  TransformedRecords result <= TransformedRecords r ∧
  Z.of_nat (length ((run.1).1).1) - Z.of_nat (length acc)
    = TransformedRecords r - TransformedRecords result ∧
  OriginalRecords r = OriginalRecords result ∧
  Z.of_nat (length (Errors r)) - Z.of_nat (length (Errors result))
    = SkippedRecords r - SkippedRecords result ∧
  Z.of_nat (length (Warnings r)) - Z.of_nat (length (Warnings result))
    <= TransformedRecords r - TransformedRecords result ∧
  Transformations r = Transformations result.
Proof.
  revert acc result ts vs.
  induction rawRecords as [|record rawRecords IH]; intros acc result ts vs; cbv zeta;
    cbn [processRecords].
  - cbn. repeat split; lia.
  - destruct (transformRecord _ _ _ _ _ _ _) as [[tx|err] ts'].
    + match goal with
      | |- context [if EnableValidation (e_config e) then ?a else ?b] =>
          destruct (if EnableValidation (e_config e) then a else b)
            as [[tx1 r1] vs1] eqn:E
      end.
      assert (Hr : SkippedRecords r1 = SkippedRecords result ∧
                   TransformedRecords r1 = TransformedRecords result ∧
                   OriginalRecords r1 = OriginalRecords result ∧
                   Errors r1 = Errors result ∧
                   Transformations r1 = Transformations result ∧
                   Z.of_nat (length (Warnings r1))
                     <= Z.of_nat (length (Warnings result)) + 1).
      { destruct (EnableValidation (e_config e)).
        - destruct (validateTransaction _ _ _) as [[tx2 [w|]] vs0];
            injection E as <- <- <-; cbn; rewrite ?length_app; cbn; repeat split; lia.
        - injection E as <- <- <-. cbn. repeat split; lia. }
      destruct Hr as (Hs & Ht & Ho & He & Htr & Hw).
      destruct (IH (acc ++ [tx1]) (incr_transformed r1) ts' vs1)
        as (H1 & H2 & H3 & H4 & H5 & H6 & H7).
      cbn [incr_transformed TransformedRecords SkippedRecords OriginalRecords
           Errors Warnings Transformations] in *.
      rewrite length_app in H3. cbn [length] in *.
      rewrite Hs, Ht in *. rewrite H4, Ho, H7, Htr. rewrite He in H5.
      repeat split; lia.
    + destruct (IH acc (incr_skipped (add_error err result)) ts' vs)
        as (H1 & H2 & H3 & H4 & H5 & H6 & H7).
      cbn [incr_skipped add_error TransformedRecords SkippedRecords OriginalRecords
           Errors Warnings Transformations] in *.
      rewrite length_app in H5. cbn [length] in *.
      rewrite H4, H7. repeat split; lia.
Qed.


(** X10. Once the header is read, TransformCSVData returns a result whatever
    the later reads and records are, and its counters add up:
    OriginalRecords counts the records that were read and equals
    TransformedRecords plus SkippedRecords; Errors holds one entry for
    each failed read and one for each skipped record; there is at most one
    warning for each transformed record, and one more only if an
    optimization fails; Transformations lists the names of the registered
    transformations; without optimization the number of returned records
    is TransformedRecords, and with the registered optimizations it is at
    most that. *)
Theorem TransformCSVData_bookkeeping (order : list string) (header : list string)
    (reads : list (Result (list string))) (ts : TS) (vs : VS) :
  ∃ out result ts' vs',
    TransformCSVData unicode_ToLower strings_Title time_Parse e order
                     (Ok header :: reads) ts vs = Ok (out, result, ts', vs') ∧
    OriginalRecords result = Z.of_nat (length (List.filter is_Ok reads)) ∧
    OriginalRecords result = TransformedRecords result + SkippedRecords result ∧
    Z.of_nat (length (Errors result))
      = Z.of_nat (length (List.filter failed reads)) + SkippedRecords result ∧
    Z.of_nat (length (Warnings result)) <= TransformedRecords result + 1 ∧
    Transformations result = T_Name <$> transformations e ∧
    (EnableOptimization (e_config e) = false ->
     Z.of_nat (length out) = TransformedRecords result) ∧
    (optimizations e = [DuplicateRemoval; DataDeduplication; IndexOptimization] ->
     Z.of_nat (length out) <= TransformedRecords result ∧
     Z.of_nat (length (Warnings result)) <= TransformedRecords result).
Proof.
  unfold TransformCSVData, TransformCSVData_records.
  pose proof (readAll_counts reads [] emptyResult) as Hread. cbv zeta in Hread.
  destruct (readAll reads [] emptyResult) as [rawRecords res0]. cbn [fst snd] in Hread.
  destruct Hread as (R1 & R2 & R3 & R4 & R5 & R6 & R7).
  cbn [emptyResult OriginalRecords TransformedRecords SkippedRecords Errors Warnings
       Transformations length] in R1, R2, R3, R4, R5, R6, R7.
  pose proof (processRecords_bookkeeping rawRecords (headerMap unicode_ToLower 0 header ∅)
                [] res0 ts vs) as Hproc. cbv zeta in Hproc.
  destruct (processRecords _ _ _ _ _ _ _ _ _ _) as [[[txs res1] ts'] vs'].
  cbn [fst snd] in Hproc. destruct Hproc as (P1 & P2 & P3 & P4 & P5 & P6 & P7).
  rewrite R6 in P6. cbn [length] in P3, P6.
  destruct (EnableOptimization (e_config e)) eqn:Hopt.
  - unfold optimizeData. destruct (optimize_loop (optimizations e) txs) as [opt|err] eqn:Ho.
    + eexists _, _, _, _. split; [reflexivity|].
      cbn [set_quality add_transformations OriginalRecords TransformedRecords
           SkippedRecords Errors Warnings Transformations].
      rewrite P7, R7. cbn [app].
      split_all; try lia; try done.
      * intros Hos. rewrite Hos in Ho. cbn in Ho. injection Ho as <-.
        pose proof (sublist_length _ _ (keepFirst_sublist compositeKey []
                      (DuplicateRemoval_Optimize txs))) as L1.
        pose proof (sublist_length _ _ (keepFirst_sublist ID [] txs)) as L2.
        unfold IndexOptimization_Optimize.
        rewrite DataDeduplication_keepFirst. rewrite DuplicateRemoval_keepFirst in *.
        split; lia.
    + eexists _, _, _, _. split; [reflexivity|].
      cbn [set_quality add_transformations add_warning OriginalRecords
           TransformedRecords SkippedRecords Errors Warnings Transformations].
      rewrite P7, R7, length_app. cbn [app length].
      split_all; try lia; try done.
      all: intros Hos; rewrite Hos in Ho; cbn in Ho; discriminate.
  - eexists _, _, _, _. split; [reflexivity|].
    cbn [set_quality add_transformations OriginalRecords TransformedRecords
         SkippedRecords Errors Warnings Transformations].
    rewrite P7, R7. cbn [app]. split_all; try lia; try done.
Qed.

End Bookkeeping.


Section Dates.
Variable time_Parse : string -> string -> option Time.
Context {TS VS : Type}.
Variable e : Engine TS VS.

Lemma parseDate_loop_spec formats s :
  match parseDate_loop time_Parse formats s with
  | Ok date =>
      ∃ i layout, formats !! i = Some layout ∧ time_Parse layout s = Some date ∧
                  ∀ j l, (j < i)%nat -> formats !! j = Some l -> time_Parse l s = None
  | Err msg =>
      msg = "unable to parse date with any format" ∧
      ∀ layout, layout ∈ formats -> time_Parse layout s = None
  end.
Proof.
  induction formats as [|f formats IH]; cbn [parseDate_loop].
  - split; [done|]. by intros ? ?%elem_of_nil.
  - destruct (time_Parse f s) as [d|] eqn:E.
    + exists 0%nat, f. split; [done|]. split; [done|]. intros j l Hj. lia.
    + destruct (parseDate_loop time_Parse formats s) as [d|msg].
      * destruct IH as (i & layout & Hi & Hp & Hfirst).
        exists (S i), layout. split; [done|]. split; [done|].
        intros [|j] l Hj Hl; cbn in Hl; [by injection Hl as <-|].
        apply (Hfirst j); [lia | done].
      * destruct IH as [-> Hall]. split; [done|].
        intros layout [->|Hin]%elem_of_cons; [done | by apply Hall].
Qed.

(** X11. parseDate tries the configured date formats in their order on the
    cleaned string and returns the time of the first format that accepts
    it; it fails, with the message 'unable to parse date with any format',
    exactly when no configured format accepts the cleaned string. *)
Theorem parseDate_first_matching_layout (dateStr : string) :
  let s := cleanString e dateStr in
  match parseDate time_Parse e dateStr with
  | Ok date =>
      ∃ i layout, DateFormats (e_config e) !! i = Some layout ∧
                  time_Parse layout s = Some date ∧
                  ∀ j l, (j < i)%nat -> DateFormats (e_config e) !! j = Some l ->
                         time_Parse l s = None
  | Err msg =>
      msg = "unable to parse date with any format" ∧
      ∀ layout, layout ∈ DateFormats (e_config e) -> time_Parse layout s = None
  end.
Proof. apply parseDate_loop_spec. Qed.

End Dates.

Section Validation.
Context {TS : Type}.
Variable StringCleaning CountryMapping RegionMapping ProductNameNormalization
  : Transformation TS.
Variable DataTypeValidator_Validate
  : Transaction -> gmap string bool -> option string * gmap string bool.
Variable config : TransformConfig.

(** The engine that NewDataTransformationEngine builds, and the handler
    around it. *)
Local Abbreviation newEngine :=
  (NewDataTransformationEngine StringCleaning CountryMapping RegionMapping
     ProductNameNormalization DataTypeValidator_Validate config).

(** X12. In the engine that NewDataTransformationEngine builds (its data type
    validator leaving the seen identifiers alone), validateTransaction
    leaves the record as it is and stops at the first validator that
    fails: when the required-field, data-type or range check fails, an
    error is returned and the identifier of the record is not recorded;
    when the three pass, the record is accepted exactly when its
    identifier was not seen before, and the identifier is seen afterwards. *)
Theorem engine_validation_stops_at_first_failure
    (tx : Transaction) (seenIDs : gmap string bool) :
  (∀ tx st, (DataTypeValidator_Validate tx st).2 = st) ->
  let stateless_ok :=
    RequiredFieldValidator_check tx = None ∧
    (DataTypeValidator_Validate tx seenIDs).1 = None ∧
    RangeValidator_check tx = None in
  let run := validateTransaction newEngine tx seenIDs in
  (run.1).1 = tx ∧
  (¬ stateless_ok -> (run.1).2 ≠ None ∧ run.2 = seenIDs) ∧
  (stateless_ok ->
   ((run.1).2 = None ↔ seen_get seenIDs (ID tx) = false) ∧
   seen_get run.2 (ID tx) = true).
Proof.
  intros Hdt. cbv zeta. unfold validateTransaction.
  cbn [NewDataTransformationEngine validators validateTransaction_loop DataTypeValidator
       RequiredFieldValidator RangeValidator UniquenessValidator V_Validate V_Name].
  pose proof (Hdt tx seenIDs) as Hst.
  destruct (RequiredFieldValidator_check tx) as [e1|];
    [cbn; split; [done|]; split; [done | intros (? & _); done]|].
  destruct (DataTypeValidator_Validate tx seenIDs) as [[e2|] st]; cbn [fst snd] in *;
    subst st; [cbn; split; [done|]; split; [done | intros (_ & ? & _); done]|].
  destruct (RangeValidator_check tx) as [e3|];
    [cbn; split; [done|]; split; [done | intros (_ & _ & ?); done]|].
  unfold UniquenessValidator_Validate.
  destruct (seen_get seenIDs (ID tx)) eqn:Hs; cbn [fst snd].
  - split; [done|]. split; [intros H; by destruct H|]. intros _. split; [done|]. done.
  - split; [done|]. split; [intros H; by destruct H|]. intros _. split; [done|].
    unfold seen_get. by rewrite lookup_insert_eq.
Qed.

(** X13. In ProcessDataFile the validation of a record by the registered
    validators leaves the record as it is and runs every validator,
    whatever the earlier ones answered: the warnings it adds, after the
    earlier warnings, number as many as the checks that fail among
    required fields, data types, ranges and uniqueness, and the identifier
    of the record is seen afterwards, also when an earlier validator
    failed. *)
Theorem handler_validation_runs_every_validator
    (i : Z) (tx : Transaction) (warnings : list string) (seenIDs : gmap string bool) :
  (∀ tx st, (DataTypeValidator_Validate tx st).2 = st) ->
  let run :=
    validateOne (validators (engine (mkHandler newEngine config))) i tx warnings seenIDs in
  let failures :=
    (if RequiredFieldValidator_check tx is Some _ then 1 else 0) +
    (if (DataTypeValidator_Validate tx seenIDs).1 is Some _ then 1 else 0) +
    (if RangeValidator_check tx is Some _ then 1 else 0) +
    (if seen_get seenIDs (ID tx) then 1 else 0) in
  (run.1).1 = tx ∧
  seen_get run.2 (ID tx) = true ∧
  (∃ added, (run.1).2 = warnings ++ added ∧ Z.of_nat (length added) = failures).
Proof.
  intros Hdt. cbv zeta.
  cbn [NewDataTransformationEngine validators engine validateOne RequiredFieldValidator
       DataTypeValidator RangeValidator UniquenessValidator V_Validate V_Name].
  pose proof (Hdt tx seenIDs) as Hst.
  destruct (DataTypeValidator_Validate tx seenIDs) as [r2 st]; cbn [fst snd] in *;
    subst st.
  unfold UniquenessValidator_Validate.
  destruct (RequiredFieldValidator_check tx) as [e1|], r2 as [e2|],
    (RangeValidator_check tx) as [e3|], (seen_get seenIDs (ID tx)) eqn:Hs;
    cbn [fst snd validateOne];
    (split; [reflexivity|]);
    (split; [first [exact Hs | unfold seen_get; by rewrite lookup_insert_eq]|]);
    rewrite <- ?app_assoc;
    first [ exists []; split; [by rewrite app_nil_r | reflexivity]
          | eexists; split; reflexivity ].
Qed.

End Validation.

(** ** Instances *)

Lemma engine_validation_stops_at_first_failure_witness :
  (∀ tx (st : gmap string bool), (RequiredFieldValidator_check tx, st).2 = st) ∧
  ((validateTransaction defaultEngine
      (mkTransaction "T1" "Kenya" "East" "Widget" 500 2 (mkTime 63000000000 0 UTC)) ∅).1).2
  = None.
Proof.
  split; [reflexivity|].
  apply (engine_validation_stops_at_first_failure (TS:=unit)
           CurrencyNormalization CurrencyNormalization CurrencyNormalization
           CurrencyNormalization (fun tx st => (RequiredFieldValidator_check tx, st))
           getDefaultConfig
           (mkTransaction "T1" "Kenya" "East" "Widget" 500 2 (mkTime 63000000000 0 UTC)) ∅
           (fun _ _ => eq_refl)).
  - split; [reflexivity|]. split; reflexivity.
  - reflexivity.
Defined.

Lemma handler_validation_runs_every_validator_witness :
  (∀ tx (st : gmap string bool), (RequiredFieldValidator_check tx, st).2 = st) ∧
  seen_get
    (validateOne (validators (engine defaultHandler)) 0
       (mkTransaction "T1" "Kenya" "East" "Widget" 500 2 (mkTime 63000000000 0 UTC))
       [] ∅).2 "T1" = true.
Proof.
  split; [reflexivity|].
  apply (handler_validation_runs_every_validator (TS:=unit)
           CurrencyNormalization CurrencyNormalization CurrencyNormalization
           CurrencyNormalization (fun tx st => (RequiredFieldValidator_check tx, st))
           getDefaultConfig 0
           (mkTransaction "T1" "Kenya" "East" "Widget" 500 2 (mkTime 63000000000 0 UTC))
           [] ∅ (fun _ _ => eq_refl)).
Defined.

End EngineFacts.

Module ConverterFacts.
Import GoStrings GoFloat Strconv GoTime Models Config Converter Spec.

Section Converter.
Variable unicode_ToLower : Z -> Z.
Variable time_Parse : string -> string -> option Time.
Variable Sprint_v : Value -> string.
Variable config : TransformConfig.

Local Abbreviation parse := (parseRecordToTransaction time_Parse config).

(** What a record that parses looks like. *)
Lemma parseRecordToTransaction_Ok record columnMap tx :
  parse record columnMap = Ok tx ->
  let get := getField record columnMap in
  ID tx = get "transaction_id" ∧ ID tx ≠ "" ∧
  ProductName tx = get "product_name" ∧ ProductName tx ≠ "" ∧
  Country tx = (if String.eqb (get "country") "" then DefaultCountry config
                else get "country") ∧
  Region tx = (if String.eqb (get "region") "" then DefaultRegion config
               else get "region") ∧
  parseFlexiblePrice config (get "price") = Ok (UnitPriceCents tx) ∧
  (get "quantity" = "" -> Quantity tx = 1) ∧
  (get "quantity" ≠ "" -> ParseInt (get "quantity") = Ok (Quantity tx)) ∧
  parseFlexibleDate time_Parse config (get "transaction_date") = Ok (TxTime tx).
Proof.
  unfold parseRecordToTransaction. cbv zeta.
  destruct (String.eqb_spec (getField record columnMap "transaction_id") "") as [|Hid];
    [done|].
  destruct (String.eqb_spec (getField record columnMap "product_name") "") as [|Hpn];
    [done|].
  destruct (String.eqb_spec (getField record columnMap "price") "") as [|Hpr]; [done|].
  destruct (parseFlexiblePrice config _) as [price|] eqn:Hprice; [|done].
  destruct (String.eqb_spec (getField record columnMap "quantity") "") as [Hq|Hq].
  - destruct (ParseInt "1") as [q|] eqn:Hq1; [|done].
    vm_compute in Hq1. injection Hq1 as <-.
    destruct (String.eqb_spec (getField record columnMap "transaction_date") "") as [|Hd];
      [done|].
    destruct (parseFlexibleDate _ _ _) as [date|] eqn:Hdate; [|done].
    intros [= <-]. cbn. repeat split; try done.
  - destruct (ParseInt _) as [q|] eqn:Hq1; [|done].
    destruct (String.eqb_spec (getField record columnMap "transaction_date") "") as [|Hd];
      [done|].
    destruct (parseFlexibleDate _ _ _) as [date|] eqn:Hdate; [|done].
    intros [= <-]. cbn. repeat split; try done.
Qed.

Lemma parseCSV_loop_Forall (P : Transaction -> Prop) columnMap reads txs lineNumber stdout :
  (∀ record tx, parse record columnMap = Ok tx -> P tx) ->
  Forall P txs ->
  match (parseCSV_loop time_Parse config columnMap reads txs lineNumber stdout).1 with
  | Ok out => Forall P out
  | Err _ => True
  end.
Proof.
  intros HP. revert txs lineNumber stdout.
  induction reads as [|[record|err] reads IH]; intros txs lineNumber stdout Htxs;
    cbn [parseCSV_loop fst]; [done | | done].
  destruct (parse record columnMap) as [tx|err] eqn:E.
  - apply IH. apply Forall_app. split; [done|]. constructor; [|constructor].
    by apply (HP record).
  - by apply IH.
Qed.

(** X14. Every record that parseCSV returns has a non-empty identifier and a
    non-empty product name; its country (its region) is non-empty when the
    configuration has a non-empty default country (region). *)
Theorem parseCSV_records_are_identified (reads : list (Result (list string)))
    (transactions : list Transaction) :
  (parseCSV unicode_ToLower time_Parse config reads).1 = Ok transactions ->
  Forall (fun tx =>
            ID tx ≠ "" ∧ ProductName tx ≠ "" ∧
            (DefaultCountry config ≠ "" -> Country tx ≠ "") ∧
            (DefaultRegion config ≠ "" -> Region tx ≠ "")) transactions.
Proof.
  unfold parseCSV. destruct reads as [|[header|err] reads]; [done| |done].
  intros Hrun.
  pose proof (parseCSV_loop_Forall
    (fun tx => ID tx ≠ "" ∧ ProductName tx ≠ "" ∧
               (DefaultCountry config ≠ "" -> Country tx ≠ "") ∧
               (DefaultRegion config ≠ "" -> Region tx ≠ ""))
    (createColumnMapping unicode_ToLower header) reads [] 1 []) as H.
  rewrite Hrun in H. apply H; [|constructor].
  intros record tx Htx. apply parseRecordToTransaction_Ok in Htx. cbv zeta in Htx.
  destruct Htx as (_ & Hid & _ & Hpn & Hc & Hr & _).
  split; [done|]. split; [done|]. split.
  - intros Hdef. rewrite Hc.
    by destruct (String.eqb_spec
      (getField record (createColumnMapping unicode_ToLower header) "country") "").
  - intros Hdef. rewrite Hr.
    by destruct (String.eqb_spec
      (getField record (createColumnMapping unicode_ToLower header) "region") "").
Qed.

Lemma wrap64_succ z : wrap64 (wrap64 z + 1) = wrap64 (z + 1).
Proof.
  unfold wrap64.
  replace ((z + 2 ^ 63) mod 2 ^ 64 - 2 ^ 63 + 1 + 2 ^ 63)
    with ((z + 2 ^ 63) mod 2 ^ 64 + 1) by lia.
  rewrite Zplus_mod_idemp_l. f_equal. f_equal. lia.
Qed.

Lemma parseCSV_loop_read_error columnMap rows err rest txs lineNumber stdout :
  let k := Z.of_nat (length (List.filter (fun row => is_Ok (parse row columnMap)) rows)) in
  (parseCSV_loop time_Parse config columnMap ((Ok <$> rows) ++ Err err :: rest)
                 txs (wrap64 lineNumber) stdout).1
  = Err ("error reading line " +:+ pretty (wrap64 (lineNumber + k)) +:+ ": " +:+ err).
Proof.
  revert txs lineNumber stdout. induction rows as [|row rows IH];
    intros txs lineNumber stdout; cbv zeta;
    cbn [fmap list_fmap app parseCSV_loop List.filter].
  - cbn. by rewrite Z.add_0_r.
  - destruct (parse row columnMap) as [tx|e]; cbn [is_Ok].
    + rewrite wrap64_succ. rewrite IH. cbn [length].
      replace (lineNumber + 1 +
               Z.of_nat (length (List.filter (fun row => is_Ok (parse row columnMap)) rows)))
        with (lineNumber +
              Z.of_nat (S (length (List.filter (fun row => is_Ok (parse row columnMap)) rows))))
        by lia.
      reflexivity.
    + apply IH.
Qed.

(** X15. A read error after the header makes parseCSV fail, whatever was
    parsed before and whatever follows; the line number in its message is
    one more than the number of records parsed before the error: the
    records that were skipped are not counted. *)
Theorem parseCSV_read_error_aborts (header : list string) (rows : list (list string))
    (err : string) (rest : list (Result (list string))) :
  let columnMap := createColumnMapping unicode_ToLower header in
  let k := Z.of_nat (length (List.filter (fun row => is_Ok (parse row columnMap)) rows)) in
  (parseCSV unicode_ToLower time_Parse config
            (Ok header :: (Ok <$> rows) ++ Err err :: rest)).1
  = Err ("error reading line " +:+ pretty (wrap64 (1 + k)) +:+ ": " +:+ err).
Proof.
  cbv zeta. cbn [parseCSV].
  change 1 with (wrap64 1) at 1. apply parseCSV_loop_read_error.
Qed.


Local Abbreviation toTx := (mapToTransaction time_Parse Sprint_v config).
Local Abbreviation extract := (extractTransactionsFromData time_Parse Sprint_v config).

(** The equation of [extractTransactionsFromData] on an object, in the
    shape of the Go code. *)
Lemma extractTransactionsFromData_map (v : gmap string Value) :
  extract (VMapS v) =
  match v !! "transactions" with
  | Some txArray => extract txArray
  | None =>
      match v !! "data" with
      | Some txArray => extract txArray
      | None =>
          match toTx v with
          | Err e => (Err e, [])
          | Ok tx => (Ok [tx], [])
          end
      end
  end.
Proof.
  cbn [extractTransactionsFromData]. rewrite !lookup_fmap.
  destruct (v !! "transactions"); [done|]. by destruct (v !! "data").
Qed.

Lemma mapToTransaction_Ok data tx :
  toTx data = Ok tx -> ID tx ≠ "" ∧ ProductName tx ≠ "".
Proof.
  unfold mapToTransaction. cbv zeta.
  destruct (String.eqb_spec (getFieldValue Sprint_v data (fieldMapping "id")) "") as [|Hid];
    [done|].
  destruct (String.eqb_spec (getFieldValue Sprint_v data (fieldMapping "product_name")) "")
    as [|Hpn]; [done|].
  destruct (getFieldNumericValue data (fieldMapping "price")); [|done].
  destruct (String.eqb_spec (getFieldValue Sprint_v data (fieldMapping "date")) "") as [|Hd];
    [done|].
  destruct (parseFlexibleDate _ _ _); [|done].
  intros [= <-]. cbn. done.
Qed.

Lemma extractItems_spec items i txs stdout :
  let run := extractItems time_Parse Sprint_v config items i txs stdout in
  (∃ more, run.1 = txs ++ more ∧ Forall (fun tx => ID tx ≠ "" ∧ ProductName tx ≠ "") more ∧
   ∃ lines, run.2 = stdout ++ lines ∧
     (length more + length lines = length (List.filter isObject items))%nat).
Proof.
  revert i txs stdout. induction items as [|item items IH]; intros i txs stdout; cbv zeta.
  - cbn. exists []. rewrite app_nil_r. split; [done|]. split; [constructor|].
    exists []. by rewrite app_nil_r.
  - cbn [extractItems].
    assert (Hconv : ∀ m,
      let run := match toTx m with
                 | Err e => extractItems time_Parse Sprint_v config items (i + 1) txs
                     (stdout ++ ["Warning: Failed to parse transaction " +:+ pretty i
                                 +:+ ": " +:+ e +:+ newline])
                 | Ok tx => extractItems time_Parse Sprint_v config items (i + 1)
                              (txs ++ [tx]) stdout
                 end in
      ∃ more, run.1 = txs ++ more ∧
        Forall (fun tx => ID tx ≠ "" ∧ ProductName tx ≠ "") more ∧
        ∃ lines, run.2 = stdout ++ lines ∧
          (length more + length lines = S (length (List.filter isObject items)))%nat).
    { intros m. cbv zeta. destruct (toTx m) as [tx|e] eqn:E.
      - destruct (IH (i + 1) (txs ++ [tx]) stdout) as (more & H1 & H2 & lines & H3 & H4).
        exists (tx :: more). rewrite H1, <- app_assoc. split; [done|].
        split; [constructor; [by apply mapToTransaction_Ok in E | done]|].
        exists lines. split; [done|]. cbn [length]. lia.
      - destruct (IH (i + 1) txs
          (stdout ++ ["Warning: Failed to parse transaction " +:+ pretty i
                      +:+ ": " +:+ e +:+ newline])) as (more & H1 & H2 & lines & H3 & H4).
        exists more. split; [done|]. split; [done|].
        eexists (_ :: lines). rewrite H3, <- app_assoc. split; [done|].
        cbn [length]. lia. }
    destruct item; cbn [List.filter isObject]; try apply IH; cbn [length]; apply Hconv.
Qed.

(** X16. extractTransactionsFromData never fails on an array: every item that
    is an object gives either a transaction or one warning line, every
    other item is passed over in silence, and the transactions returned
    have a non-empty identifier and a non-empty product name. *)
Theorem extract_array_skips_what_fails (items : list Value) :
  ∃ transactions lines,
    extract (VList items) = (Ok transactions, lines) ∧
    (length transactions + length lines = length (List.filter isObject items))%nat ∧
    Forall (fun tx => ID tx ≠ "" ∧ ProductName tx ≠ "") transactions.
Proof.
  cbn [extractTransactionsFromData].
  pose proof (extractItems_spec items 0 [] []) as H. cbv zeta in H.
  destruct (extractItems time_Parse Sprint_v config items 0 [] []) as [txs out].
  cbn [fst snd] in H. destruct H as (more & -> & Hall & lines & -> & Hlen).
  exists more, lines. cbn [app]. done.
Qed.

End Converter.

(** ** Instances *)

Lemma parseCSV_records_are_identified_witness :
  ∃ transactions,
    (parseCSV (fun r => r) noLayoutParses getDefaultConfig salesReads).1 = Ok transactions ∧
    length transactions = 1%nat ∧
    Forall (fun tx =>
              ID tx ≠ "" ∧ ProductName tx ≠ "" ∧
              (DefaultCountry getDefaultConfig ≠ "" -> Country tx ≠ "") ∧
              (DefaultRegion getDefaultConfig ≠ "" -> Region tx ≠ "")) transactions.
Proof.
  eexists. split; [vm_compute; reflexivity|]. split; [reflexivity|].
  apply (parseCSV_records_are_identified (fun r => r) noLayoutParses getDefaultConfig
           salesReads).
  vm_compute. reflexivity.
Defined.

End ConverterFacts.

Module ReportFacts.
Import GoStrings GoFloat GoTime Models Config Stages Quality Converter EngineM Handler
       Report Spec QualityFacts.

Lemma filter_length_none {A} (f : A -> bool) (l : list A) :
  length (List.filter f l) = 0%nat ↔ Forall (fun x => f x = false) l.
Proof.
  induction l as [|x l IH]; cbn [List.filter]; [split; [constructor | done]|].
  destruct (f x) eqn:E; cbn [length].
  - split; [lia|]. intros Hall. apply Forall_cons in Hall as [Hx _]. congruence.
  - rewrite IH. split; [by constructor | by intros [_ ?]%Forall_cons].
Qed.

Lemma fold_countIssues txs c :
  let r := fold_left countIssues txs c in
  invalidPrices r = invalidPrices c
    + Z.of_nat (length (List.filter (fun tx => UnitPriceCents tx <=? 0) txs)) ∧
  invalidQuantities r = invalidQuantities c
    + Z.of_nat (length (List.filter (fun tx => Quantity tx <=? 0) txs)) ∧
  invalidDates r = invalidDates c
    + Z.of_nat (length (List.filter (fun tx => IsZero (TxTime tx)) txs)) ∧
  missingCountries r = missingCountries c
    + Z.of_nat (length (List.filter (fun tx => String.eqb (Country tx) "") txs)) ∧
  missingRegions r = missingRegions c
    + Z.of_nat (length (List.filter (fun tx => String.eqb (Region tx) "") txs)) ∧
  missingFields r = fold_left missingStep txs (missingFields c) ∧
  duplicateIDs r = fold_left (fun m tx => incr (ID tx) m) txs (duplicateIDs c).
Proof.
  revert c. induction txs as [|tx txs IH]; intros c; cbv zeta; cbn [fold_left List.filter].
  - cbn. repeat (match goal with |- _ ∧ _ => split end); (lia || reflexivity).
  - destruct (IH (countIssues c tx)) as (H1 & H2 & H3 & H4 & H5 & H6 & H7).
    rewrite H1, H2, H3, H4, H5, H6, H7.
    cbn [countIssues invalidPrices invalidQuantities invalidDates missingCountries
         missingRegions missingFields duplicateIDs]. unfold bump, missingStep.
    destruct (UnitPriceCents tx <=? 0), (Quantity tx <=? 0), (IsZero (TxTime tx)),
      (String.eqb (Country tx) ""), (String.eqb (Region tx) ""); cbn [length];
      repeat (match goal with |- _ ∧ _ => split end); (lia || reflexivity).
Qed.

(** Counters are never removed and stay positive. *)
Lemma incr_pos k (m : gmap string Z) :
  map_Forall (fun _ v => 0 < v) m -> map_Forall (fun _ v => 0 < v) (incr k m).
Proof.
  intros Hm. unfold incr. apply map_Forall_insert_2; [|done].
  destruct (m !! k) as [v|] eqn:E; cbn; [apply Hm in E; lia | lia].
Qed.

Lemma when_incr_pos b k (m : gmap string Z) :
  map_Forall (fun _ v => 0 < v) m -> map_Forall (fun _ v => 0 < v) (when b (incr k) m).
Proof. destruct b; [apply incr_pos | done]. Qed.

Lemma when_incr_keeps b k k' (m : gmap string Z) :
  is_Some (m !! k') -> is_Some (when b (incr k) m !! k').
Proof.
  intros H. rewrite lookup_when_incr. destruct (decide (k' = k)) as [->|]; [|done].
  destruct b; [by eexists | done].
Qed.

Lemma missing_fold_pos txs m :
  map_Forall (fun _ v => 0 < v) m ->
  map_Forall (fun _ v => 0 < v) (fold_left missingStep txs m).
Proof.
  revert m. induction txs as [|tx txs IH]; intros m Hm; cbn [fold_left]; [done|].
  apply IH. unfold missingStep. by do 2 apply when_incr_pos.
Qed.

Lemma missing_fold_keeps txs m k :
  is_Some (m !! k) -> is_Some (fold_left missingStep txs m !! k).
Proof.
  revert m. induction txs as [|tx txs IH]; intros m Hm; cbn [fold_left]; [done|].
  apply IH. unfold missingStep. by do 2 apply when_incr_keeps.
Qed.

Lemma missing_fold_empty txs :
  fold_left missingStep txs ∅ = ∅ ↔
  Forall (fun tx => ID tx ≠ "" ∧ ProductName tx ≠ "") txs.
Proof.
  induction txs as [|tx txs IH]; cbn [fold_left]; [split; [constructor | done]|].
  unfold missingStep at 2.
  destruct (String.eqb_spec (ID tx) "") as [Hid|Hid];
    [|destruct (String.eqb_spec (ProductName tx) "") as [Hpn|Hpn]]; cbn [when].
  - split; [|by intros [[? _] _]%Forall_cons].
    intros Hempty. exfalso.
    assert (H : is_Some (fold_left missingStep txs
                 (when (String.eqb (ProductName tx) "") (incr "product_name")
                       (incr "transaction_id" ∅)) !! "transaction_id")).
    { apply missing_fold_keeps, when_incr_keeps. unfold incr.
      rewrite lookup_insert_eq. by eexists. }
    rewrite Hempty, lookup_empty in H. by destruct H.
  - split; [|by intros [[_ ?] _]%Forall_cons].
    intros Hempty. exfalso.
    assert (H : is_Some (fold_left missingStep txs (incr "product_name" ∅)
                         !! "product_name")).
    { apply missing_fold_keeps. unfold incr. rewrite lookup_insert_eq. by eexists. }
    rewrite Hempty, lookup_empty in H. by destruct H.
  - rewrite IH. split; [by constructor | by intros [_ ?]%Forall_cons].
Qed.

Lemma reportMissing_nil entries issues :
  (∀ kc, kc ∈ entries -> 0 < kc.2) ->
  reportMissing entries issues = [] ↔ issues = [] ∧ entries = [].
Proof.
  revert issues. induction entries as [|[k c] entries IH]; intros issues Hpos;
    cbn [reportMissing]; [split; [done | by intros [? _]]|].
  assert (Hc : 0 < c) by (apply (Hpos (k, c)); by left).
  apply Z.ltb_lt in Hc. rewrite Hc. rewrite IH by (intros; apply Hpos; by right).
  split; [|by intros [_ ?]]. intros [Happ _]. by destruct issues.
Qed.

Lemma reportIf_nil count issue issues :
  reportIf count issue issues = [] ↔ issues = [] ∧ count <= 0.
Proof.
  unfold reportIf. destruct (Z.ltb_spec 0 count) as [Hc|Hc].
  - split; [intros Happ; by destruct issues | lia].
  - split; [done | by intros [? _]].
Qed.

Lemma lookup_incr k' (m : gmap string Z) k :
  incr k' m !! k =
  if decide (k = k') then Some (default 0 (m !! k') + 1) else m !! k.
Proof. exact (lookup_when_incr true k' m k). Qed.

(** The counters of the identifiers. *)
Lemma duplicateIDs_lookup txs k :
  fold_left (fun m tx => incr (ID tx) m) txs ∅ !! k =
  let c := Z.of_nat (length (List.filter (String.eqb k) (ID <$> txs))) in
  if 0 <? c then Some c else None.
Proof.
  induction txs as [|tx txs IH] using rev_ind; [done|].
  rewrite fold_left_app. cbn [fold_left]. rewrite fmap_app, List.filter_app, length_app.
  cbn [fmap list_fmap List.filter]. cbv zeta in *.
  rewrite lookup_incr.
  destruct (decide (k = ID tx)) as [->|Hne].
  - rewrite IH, String.eqb_refl. cbn [length].
    destruct (Z.ltb_spec 0 (Z.of_nat (length (List.filter (String.eqb (ID tx)) (ID <$> txs)))));
      cbn [default];
      match goal with |- context [0 <? ?x] => destruct (Z.ltb_spec 0 x) end;
      [unfold id; f_equal; lia | lia | unfold id; f_equal; lia | lia].
  - rewrite IH. destruct (String.eqb_spec k (ID tx)); [done|]. cbn [length].
    by rewrite Nat.add_0_r.
Qed.

Lemma NoDup_iff_counts (l : list string) :
  NoDup l ↔ ∀ k, (length (List.filter (String.eqb k) l) <= 1)%nat.
Proof.
  induction l as [|a l IH]; [split; [by cbn; lia | constructor]|].
  rewrite NoDup_cons, IH. cbn [List.filter]. split.
  - intros [Ha Hl] k. destruct (String.eqb_spec k a) as [->|]; [|apply Hl].
    cbn [length]. enough (length (List.filter (String.eqb a) l) = 0%nat) by lia.
    apply filter_length_none, Forall_forall. intros x Hx.
    destruct (String.eqb_spec a x) as [->|]; [done|done].
  - intros H. split.
    + intros Ha. specialize (H a). rewrite String.eqb_refl in H. cbn [length] in H.
      assert (Hz : length (List.filter (String.eqb a) l) = 0%nat) by lia.
      apply filter_length_none in Hz. rewrite Forall_forall in Hz.
      specialize (Hz a Ha). by rewrite String.eqb_refl in Hz.
    + intros k. specialize (H k). destruct (String.eqb k a); cbn [length] in H; lia.
Qed.

Lemma countDuplicates_gen entries acc :
  0 <= acc ->
  let n := fold_left (fun n (kc : string * Z) => if 1 <? kc.2 then n + 1 else n) entries acc in
  acc <= n ∧ (n <= acc ↔ Forall (fun kc : string * Z => kc.2 <= 1) entries).
Proof.
  revert acc. induction entries as [|[k c] entries IH]; intros acc Hacc; cbv zeta;
    cbn [fold_left snd].
  - split; [lia|]. split; [constructor | lia].
  - destruct (Z.ltb_spec 1 c).
    + destruct (IH (acc + 1) ltac:(lia)) as [H1 H2]. split; [lia|].
      split; [lia|]. intros [Hc _]%Forall_cons. cbn in Hc. lia.
    + destruct (IH acc Hacc) as [H1 H2]. split; [lia|]. rewrite H2.
      split; [by constructor | by intros [_ ?]%Forall_cons].
Qed.

Lemma countDuplicates_zero order' txs :
  countDuplicates (iter_order order' (fold_left (fun m tx => incr (ID tx) m) txs ∅)) <= 0
  ↔ NoDup (ID <$> txs).
Proof.
  unfold countDuplicates.
  destruct (countDuplicates_gen
    (iter_order order' (fold_left (fun m tx => incr (ID tx) m) txs ∅)) 0 ltac:(lia))
    as [_ H]. rewrite H. clear H.
  rewrite NoDup_iff_counts, Forall_forall. split.
  - intros Hall k.
    pose proof (duplicateIDs_lookup txs k) as Hk. cbv zeta in Hk.
    destruct (Z.ltb_spec 0 (Z.of_nat (length (List.filter (String.eqb k) (ID <$> txs)))));
      [|lia].
    assert (Hin : (k, Z.of_nat (length (List.filter (String.eqb k) (ID <$> txs))))
                  ∈ iter_order order' (fold_left (fun m tx => incr (ID tx) m) txs ∅)).
    { rewrite (iter_order_perm order' _). by apply elem_of_map_to_list. }
    apply Hall in Hin. cbn in Hin. lia.
  - intros Hcount [k c] Hin. rewrite (iter_order_perm order' _) in Hin.
    apply elem_of_map_to_list in Hin. rewrite duplicateIDs_lookup in Hin. cbv zeta in Hin.
    destruct (Z.ltb_spec 0 (Z.of_nat (length (List.filter (String.eqb k) (ID <$> txs)))));
      [|done].
    injection Hin as <-. cbn. specialize (Hcount k). lia.
Qed.

Lemma issues_nil_iff_clean (order order' : list string) (transactions : list Transaction) :
  identifyDataQualityIssues order order' transactions = [] ↔ cleanBatch transactions.
Proof.
  unfold identifyDataQualityIssues. cbv zeta.
  destruct (fold_countIssues transactions noCounters) as (H1 & H2 & H3 & H4 & H5 & H6 & H7).
  cbv zeta in *. cbn [noCounters invalidPrices invalidQuantities invalidDates
    missingCountries missingRegions missingFields duplicateIDs] in *.
  rewrite !reportIf_nil. rewrite H1, H2, H3, H4, H5, H6, H7, !Z.add_0_l.
  rewrite reportMissing_nil.
  2:{ intros [k c] Hin. rewrite (iter_order_perm order _) in Hin.
      apply elem_of_map_to_list in Hin.
      by apply (missing_fold_pos transactions ∅ (map_Forall_empty _)) in Hin. }
  rewrite countDuplicates_zero.
  assert (Hempty : iter_order order (fold_left missingStep transactions ∅) = []
                   ↔ Forall (fun tx => ID tx ≠ "" ∧ ProductName tx ≠ "") transactions).
  { rewrite <- missing_fold_empty. split.
    - intros Hnil. apply map_to_list_empty_iff. apply Permutation_nil_r.
      rewrite <- Hnil. symmetry. apply iter_order_perm.
    - intros ->. apply Permutation_nil_r. rewrite (iter_order_perm order _).
      by rewrite map_to_list_empty. }
  rewrite Hempty. clear Hempty.
  assert (Hz : ∀ f : Transaction -> bool,
            Z.of_nat (length (List.filter f transactions)) <= 0
            ↔ Forall (fun tx => f tx = false) transactions).
  { intros f. rewrite <- filter_length_none. lia. }
  rewrite !Hz. unfold cleanBatch, cleanRecord. rewrite !Forall_forall. split.
  - intros [[[[[[[_ Hm] Hd] Hp] Hq] Ht] Hc] Hr]. split; [|done].
    intros tx Htx. specialize (Hm tx Htx). specialize (Hp tx Htx). specialize (Hq tx Htx).
    specialize (Ht tx Htx). specialize (Hc tx Htx). specialize (Hr tx Htx).
    cbn beta in *. apply Z.leb_gt in Hp, Hq.
    apply String.eqb_neq in Hc, Hr. tauto.
  - intros [Hall Hnd].
    repeat (match goal with |- _ ∧ _ => split end); try done; intros tx Htx;
      destruct (Hall tx Htx) as (? & ? & ? & ? & ? & ? & ?);
      first [ done | by apply Z.leb_gt | by apply String.eqb_neq ].
Qed.

(** X17. identifyDataQualityIssues reports no issue exactly when every record
    of the batch has an identifier, a country, a region, a product name, a
    positive price, a positive quantity and a non-zero date, and no
    identifier occurs twice; the orders in which its counter maps are
    walked make no difference. *)
Theorem no_issues_iff_clean (order order' : list string)
    (transactions : list Transaction) :
  identifyDataQualityIssues order order' transactions = [] ↔ cleanBatch transactions.
Proof. apply issues_nil_iff_clean. Qed.

End ReportFacts.

Module ReportMore.
Import GoStrings GoFloat GoTime Models Config Optimizations Stages Quality Converter
       EngineM Handler Report Spec DedupFacts QualityFacts RatioFacts ScoreFacts
       ReportFacts.

Lemma cleanRecord_present tx field :
  cleanRecord tx -> field ∈ canonicalFields -> present field tx = true.
Proof.
  intros (Hid & Hc & Hr & Hp & Hpr & Hq & Ht) Hf.
  apply String.eqb_neq in Hid, Hc, Hr, Hp. apply Z.ltb_lt in Hpr, Hq.
  unfold canonicalFields in Hf.
  repeat (apply elem_of_cons in Hf as [->|Hf];
          [unfold present; cbn [String.eqb Ascii.eqb Bool.eqb];
           by rewrite ?Hid, ?Hc, ?Hr, ?Hp, ?Hpr, ?Hq, ?Ht|]).
  by apply elem_of_nil in Hf.
Qed.

Lemma fieldBelow_one metrics key bound :
  fieldMetric metrics key = f64_of_Z 1 ->
  f64_ltb (f64_of_Z 1) bound = false ->
  fieldBelow metrics key bound = false.
Proof.
  unfold fieldMetric, fieldBelow. destruct (FieldMetrics metrics !! key) as [v|]; [|done].
  cbn. intros Hv. by rewrite Hv.
Qed.

Lemma clean_batch_report_holds (order order1 order2 : list string)
    (transactions : list Transaction) :
  transactions ≠ [] -> Z.of_nat (length transactions) < 2 ^ 53 ->
  cleanBatch transactions ->
  let report := GetDataQualityReport order order1 order2 transactions in
  R_Issues report = [] ∧
  R_Recommendations report =
    [ "Regular data quality monitoring should be implemented";
      "Consider implementing data lineage tracking for better data governance" ] ∧
  Completeness (R_Metrics report) = f64_of_Z 1 ∧
  Validity (R_Metrics report) = f64_of_Z 1 ∧
  Uniqueness (R_Metrics report) = f64_of_Z 1.
Proof.
  intros Hne Hlen Hclean. cbv zeta. unfold GetDataQualityReport.
  cbn [R_Issues R_Recommendations R_Metrics].
  pose proof Hclean as [Hall Hnd].
  assert (Hpresent : ∀ field, field ∈ canonicalFields ->
            Forall (fun tx => present field tx = true) transactions).
  { intros field Hf. eapply Forall_impl; [exact Hall|].
    intros tx Htx. by apply cleanRecord_present. }
  assert (HC : Completeness (calculateDataQuality order transactions) = f64_of_Z 1)
    by by apply Completeness_complete.
  assert (HV : Validity (calculateDataQuality order transactions) = f64_of_Z 1).
  { apply (Validity_cases order transactions Hne Hlen).
    eapply Forall_impl; [exact Hall|]. intros tx (_ & _ & _ & _ & ? & ? & _). lia. }
  assert (HU : Uniqueness (calculateDataQuality order transactions) = f64_of_Z 1)
    by by apply (Uniqueness_cases order transactions Hne Hlen).
  assert (Hcountry : fieldMetric (calculateDataQuality order transactions)
                       "country_completeness" = f64_of_Z 1).
  { apply (fieldMetric_cases order transactions "country" Hne Hlen).
    apply Hpresent. set_solver. }
  assert (Hregion : fieldMetric (calculateDataQuality order transactions)
                      "region_completeness" = f64_of_Z 1).
  { apply (fieldMetric_cases order transactions "region" Hne Hlen).
    apply Hpresent. set_solver. }
  split; [by apply issues_nil_iff_clean|].
  split; [|done].
  unfold generateRecommendations. rewrite HC, HV, HU.
  rewrite (fieldBelow_one _ _ _ Hcountry) by (vm_compute; reflexivity).
  rewrite (fieldBelow_one _ _ _ Hregion) by (vm_compute; reflexivity).
  vm_compute. reflexivity.
Qed.

(** X18. For a non-empty batch of fewer than 2^53 records in which every field
    of every record is present, prices and quantities are positive and
    identifiers are pairwise distinct, GetDataQualityReport lists no
    issue, gives exactly the two general recommendations, and reports
    completeness, validity and uniqueness of exactly 1. *)
Theorem clean_batch_report (order order1 order2 : list string)
    (transactions : list Transaction) :
  transactions ≠ [] -> Z.of_nat (length transactions) < 2 ^ 53 ->
  cleanBatch transactions ->
  let report := GetDataQualityReport order order1 order2 transactions in
  R_Issues report = [] ∧
  R_Recommendations report =
    [ "Regular data quality monitoring should be implemented";
      "Consider implementing data lineage tracking for better data governance" ] ∧
  Completeness (R_Metrics report) = f64_of_Z 1 ∧
  Validity (R_Metrics report) = f64_of_Z 1 ∧
  Uniqueness (R_Metrics report) = f64_of_Z 1.
Proof. apply clean_batch_report_holds. Qed.

(** X19. For the empty batch GetDataQualityReport returns the zero metrics, 0
    records and no issue, and recommends improving completeness, validity
    and uniqueness (the zero scores are below the three thresholds) before
    the two general recommendations; the country and region
    recommendations are not given, as the field metrics are missing. *)
Theorem empty_batch_report (order order1 order2 : list string) :
  let report := GetDataQualityReport order order1 order2 [] in
  R_Metrics report = zeroMetrics ∧
  R_TotalRecords report = 0 ∧
  R_Issues report = [] ∧
  R_Recommendations report =
    [ "Improve data completeness by implementing validation at data entry points";
      "Implement stricter data validation rules to improve data validity";
      "Review data collection process to eliminate duplicate entries";
      "Regular data quality monitoring should be implemented";
      "Consider implementing data lineage tracking for better data governance" ].
Proof.
  cbv zeta. split; [reflexivity|]. split; [reflexivity|]. split.
  - by apply issues_nil_iff_clean; split; constructor.
  - vm_compute. reflexivity.
Qed.

(** X20. For a non-empty batch of fewer than 2^53 records that all pass
    RequiredFieldValidator.Validate, calculateDataQuality reports a
    completeness of exactly 1 for the identifier, the country, the product
    name, the price, the quantity and the date (the region is not
    required). *)
Theorem required_fields_are_complete (order : list string)
    (transactions : list Transaction) (field : string) :
  transactions ≠ [] -> Z.of_nat (length transactions) < 2 ^ 53 ->
  Forall (fun tx => RequiredFieldValidator_check tx = None) transactions ->
  field ∈ ["id"; "country"; "product_name"; "price"; "quantity"; "date"] ->
  fieldMetric (calculateDataQuality order transactions) (field +:+ "_completeness")
  = f64_of_Z 1.
Proof.
  intros Hne Hlen Hall Hf.
  apply (fieldMetric_cases order transactions field Hne Hlen).
  eapply Forall_impl; [exact Hall|]. intros tx. unfold RequiredFieldValidator_check.
  destruct (String.eqb (ID tx) "") eqn:Hid; [done|].
  destruct (String.eqb (Country tx) "") eqn:Hc; [done|].
  destruct (String.eqb (ProductName tx) "") eqn:Hp; [done|].
  destruct (Z.leb_spec (UnitPriceCents tx) 0) as [|Hpr]; [done|].
  destruct (Z.leb_spec (Quantity tx) 0) as [|Hq]; [done|].
  destruct (IsZero (TxTime tx)) eqn:Ht; [done|]. intros _.
  apply Z.ltb_lt in Hpr, Hq.
  repeat (apply elem_of_cons in Hf as [->|Hf];
          [unfold present; cbn [String.eqb Ascii.eqb Bool.eqb];
           by rewrite ?Hid, ?Hc, ?Hp, ?Hpr, ?Hq, ?Ht|]).
  by apply elem_of_nil in Hf.
Qed.

(** ** Instances *)

Lemma clean_batch_report_witness :
  completeBatch ≠ [] ∧ Z.of_nat (length completeBatch) < 2 ^ 53 ∧
  cleanBatch completeBatch ∧
  R_Issues (GetDataQualityReport [] [] [] completeBatch) = [] ∧
  R_Recommendations (GetDataQualityReport [] [] [] completeBatch) =
    [ "Regular data quality monitoring should be implemented";
      "Consider implementing data lineage tracking for better data governance" ] ∧
  Completeness (R_Metrics (GetDataQualityReport [] [] [] completeBatch)) = f64_of_Z 1 ∧
  Validity (R_Metrics (GetDataQualityReport [] [] [] completeBatch)) = f64_of_Z 1 ∧
  Uniqueness (R_Metrics (GetDataQualityReport [] [] [] completeBatch)) = f64_of_Z 1.
Proof.
  assert (H : cleanBatch completeBatch).
  { split.
    - repeat apply Forall_cons_2; [| |apply Forall_nil_2];
        (split; [discriminate|]); (split; [discriminate|]); (split; [discriminate|]);
        (split; [discriminate|]); (split; [reflexivity|]); split; reflexivity.
    - apply NoDup_cons. split; [|apply NoDup_cons; split; [|apply NoDup_nil_2]].
      + intros Hin. apply elem_of_cons in Hin as [Hin|Hin]; [discriminate Hin|].
        by apply elem_of_nil in Hin.
      + intros Hin. by apply elem_of_nil in Hin. }
  split; [discriminate|]. split; [reflexivity|]. split; [exact H|].
  apply (clean_batch_report [] [] [] completeBatch); [discriminate | reflexivity | exact H].
Defined.

Lemma required_fields_are_complete_witness :
  completeBatch ≠ [] ∧ Z.of_nat (length completeBatch) < 2 ^ 53 ∧
  Forall (fun tx => RequiredFieldValidator_check tx = None) completeBatch ∧
  "price" ∈ ["id"; "country"; "product_name"; "price"; "quantity"; "date"] ∧
  fieldMetric (calculateDataQuality [] completeBatch) "price_completeness" = f64_of_Z 1.
Proof.
  assert (H : Forall (fun tx => RequiredFieldValidator_check tx = None) completeBatch).
  { repeat apply Forall_cons_2; [reflexivity | reflexivity | apply Forall_nil_2]. }
  assert (Hin : "price" ∈ ["id"; "country"; "product_name"; "price"; "quantity"; "date"]).
  { do 3 (apply elem_of_cons; right). apply elem_of_cons. by left. }
  split; [discriminate|]. split; [reflexivity|]. split; [exact H|]. split; [exact Hin|].
  apply (required_fields_are_complete [] completeBatch "price");
    [discriminate | reflexivity | exact H | exact Hin].
Defined.

End ReportMore.

Module HandlerFacts.
Import GoStrings GoFloat GoTime Models Config Optimizations Stages Quality Converter
       EngineM Handler Report Spec DedupFacts.

Section Handler.
Variable unicode_ToLower : Z -> Z.
Variable time_Parse : string -> string -> option Time.
Variable Sprint_v : Value -> string.
Context {TS VS : Type}.
Variable fdh : FlexibleDataHandler TS VS.

Lemma processParsed_bookkeeping (order : list string) (transactions : list Transaction)
    (ts : TS) (vs : VS) :
  let run := processParsed fdh order transactions ts vs in
  let out := ((run.1).1).1 in
  let result := ((run.1).1).2 in
  OriginalRecords result = Z.of_nat (length transactions) ∧
  TransformedRecords result = Z.of_nat (length out) ∧
  SkippedRecords result = 0 ∧
  Errors result = [] ∧
  Transformations result = T_Name <$> transformations (engine fdh) ∧
  DataQuality result = calculateDataQuality order out ∧
  (EnableOptimization (config fdh) = false -> length out = length transactions) ∧
  (optimizations (engine fdh) = [DuplicateRemoval; DataDeduplication; IndexOptimization] ->
   (length out <= length transactions)%nat ∧
   (EnableOptimization (config fdh) = true -> NoDup (ID <$> out))).
Proof.
  cbv zeta. unfold processParsed.
  pose proof (ValidationFacts.processTransactions_length fdh transactions 0 [] [] ts vs)
    as Hlen.
  destruct (processTransactions fdh transactions 0 [] [] ts vs) as [[[txs w] ts'] vs'].
  cbn [fst snd length] in Hlen. rewrite Nat.add_0_l in Hlen.
  destruct (EnableOptimization (config fdh)) eqn:Hopt.
  - unfold optimizeTransactions.
    destruct (optimize_loop (optimizations (engine fdh)) txs) as [opt|err] eqn:Ho;
      cbn [fst snd set_quality add_transformations add_warning set_transformed
           OriginalRecords TransformedRecords SkippedRecords Errors Transformations
           DataQuality app].
    + repeat (match goal with |- _ ∧ _ => split end); try done.
      intros Hos. rewrite Hos in Ho. cbn in Ho. injection Ho as <-.
      unfold IndexOptimization_Optimize.
      rewrite DataDeduplication_keepFirst, DuplicateRemoval_keepFirst. split.
      * pose proof (sublist_length _ _ (keepFirst_sublist compositeKey []
                      (keepFirst ID [] txs))) as L1.
        pose proof (sublist_length _ _ (keepFirst_sublist ID [] txs)) as L2. lia.
      * intros _.
        assert (Hs : sublist (ID <$> keepFirst compositeKey [] (keepFirst ID [] txs))
                             (ID <$> keepFirst ID [] txs))
          by apply fmap_sublist, keepFirst_sublist.
        eapply sublist_NoDup in Hs; [exact Hs | apply keepFirst_NoDup].
    + repeat (match goal with |- _ ∧ _ => split end); try done; try (by rewrite Hlen);
        try (intros Hos; rewrite Hos in Ho; cbn in Ho; discriminate).
  - cbn [fst snd set_quality add_transformations OriginalRecords TransformedRecords
         SkippedRecords Errors Transformations DataQuality app].
    repeat (match goal with |- _ ∧ _ => split end); try done; try (by rewrite Hlen).
Qed.

(** X21. When ProcessDataFile returns a result, TransformedRecords is the
    number of returned records, SkippedRecords is 0 and Errors is empty
    (whatever the parser dropped), Transformations lists the names of the
    registered transformations, and the quality metrics are those of the
    returned records; without optimization OriginalRecords equals the
    number of returned records; with the registered optimizations the
    returned records number at most OriginalRecords and, when optimization
    is enabled, have pairwise distinct identifiers. *)
Theorem ProcessDataFile_bookkeeping (order : list string) (filePath : string)
    (opened : Result OpenFile) (ts : TS) (vs : VS)
    (out : list Transaction) (result : TransformationResult) :
  (((ProcessDataFile unicode_ToLower time_Parse Sprint_v fdh order filePath opened ts vs).1).1).1
    = Ok (out, result) ->
  TransformedRecords result = Z.of_nat (length out) ∧
  SkippedRecords result = 0 ∧
  Errors result = [] ∧
  Transformations result = T_Name <$> transformations (engine fdh) ∧
  DataQuality result = calculateDataQuality order out ∧
  (EnableOptimization (config fdh) = false ->
   OriginalRecords result = Z.of_nat (length out)) ∧
  (optimizations (engine fdh) = [DuplicateRemoval; DataDeduplication; IndexOptimization] ->
   Z.of_nat (length out) <= OriginalRecords result ∧
   (EnableOptimization (config fdh) = true -> NoDup (ID <$> out))).
Proof.
  unfold ProcessDataFile. destruct opened as [file|err]; [|done].
  destruct (detectFileFormat unicode_ToLower filePath file) as [format|err]; [|done].
  destruct (ConvertToTransactions _ _ _ _ _ _) as [[transactions|err] stdout]; [|done].
  pose proof (processParsed_bookkeeping order transactions ts vs) as H. cbv zeta in H.
  destruct (processParsed fdh order transactions ts vs) as [[[out' result'] ts'] vs'].
  cbn [fst snd] in *. intros [= <- <-].
  destruct H as (H1 & H2 & H3 & H4 & H5 & H6 & H7 & H8).
  repeat (match goal with |- _ ∧ _ => split end); try done.
  - intros Hopt. rewrite H1, (H7 Hopt). done.
  - intros Hos. destruct (H8 Hos) as [L N]. split; [rewrite H1; lia | exact N].
Qed.

(** X22. A file whose format is detected as XML, by its extension or by its
    content, is rejected by ProcessDataFile with 'failed to convert data:
    unsupported format: xml'; nothing is printed and the states of the
    stages are untouched. *)
Theorem ProcessDataFile_rejects_XML (order : list string) (filePath : string)
    (file : OpenFile) (ts : TS) (vs : VS) :
  detectFileFormat unicode_ToLower filePath file = Ok FormatXML ->
  ProcessDataFile unicode_ToLower time_Parse Sprint_v fdh order filePath (Ok file) ts vs
  = (Err "failed to convert data: unsupported format: xml", ts, vs, []).
Proof. intros H. unfold ProcessDataFile. by rewrite H. Qed.

End Handler.

(** ** DateNormalization *)

Lemma keepFirst_fmap {A} (key : A -> string) (f : A -> A) ks l :
  (∀ x, key (f x) = key x) ->
  keepFirst key ks (f <$> l) = f <$> keepFirst key ks l.
Proof.
  intros Hk. revert ks. induction l as [|x l IH]; intros ks; cbn [fmap list_fmap keepFirst];
    [done|].
  rewrite Hk. destruct (decide (key x ∈ ks)); [apply IH|].
  cbn [fmap list_fmap]. f_equal. apply IH.
Qed.

Lemma DateNormalization_compositeKey tx :
  compositeKey (DateNormalization_apply tx) = compositeKey tx.
Proof. unfold DateNormalization_apply. by destruct (IsZero (TxTime tx)). Qed.

(** X23. DateNormalization.Transform changes nothing but the time zone: the
    text fields, price, quantity, Unix second, nanosecond and the zero
    test of the time are those of the input, a non-zero time is in UTC
    afterwards, and a second run changes nothing. Both deduplication
    passes therefore commute with it. *)
Theorem DateNormalization_keeps_the_instant (transactions : list Transaction) :
  (∀ tx,
     let tx' := DateNormalization_apply tx in
     ID tx' = ID tx ∧ Country tx' = Country tx ∧ Region tx' = Region tx ∧
     ProductName tx' = ProductName tx ∧ UnitPriceCents tx' = UnitPriceCents tx ∧
     Quantity tx' = Quantity tx ∧
     Unix_of (TxTime tx') = Unix_of (TxTime tx) ∧
     t_nsec (TxTime tx') = t_nsec (TxTime tx) ∧
     IsZero (TxTime tx') = IsZero (TxTime tx) ∧
     (IsZero (TxTime tx) = false -> t_loc (TxTime tx') = UTC) ∧
     DateNormalization_apply tx' = tx') ∧
  DuplicateRemoval_Optimize (DateNormalization_apply <$> transactions)
    = DateNormalization_apply <$> DuplicateRemoval_Optimize transactions ∧
  DataDeduplication_Optimize (DateNormalization_apply <$> transactions)
    = DateNormalization_apply <$> DataDeduplication_Optimize transactions.
Proof.
  split; [|split].
  - intros tx. cbv zeta. unfold DateNormalization_apply.
    destruct (IsZero (TxTime tx)) eqn:Hz; cbn [negb].
    + rewrite Hz. cbn [negb]. repeat (match goal with |- _ ∧ _ => split end); done.
    + cbn [ID Country Region ProductName UnitPriceCents Quantity TxTime].
      assert (Hz' : IsZero (toUTC (TxTime tx)) = false) by exact Hz.
      rewrite Hz'. cbn [negb].
      repeat (match goal with |- _ ∧ _ => split end); done.
  - rewrite !DuplicateRemoval_keepFirst. apply keepFirst_fmap.
    intros tx. unfold DateNormalization_apply. by destruct (IsZero (TxTime tx)).
  - rewrite !DataDeduplication_keepFirst. apply keepFirst_fmap.
    apply DateNormalization_compositeKey.
Qed.

(** ** Instances *)

Lemma ProcessDataFile_bookkeeping_witness :
  ∃ out result,
    (((ProcessDataFile (fun r => r) noLayoutParses (fun _ => "") defaultHandler []
                       "sales.csv" (Ok salesFile) tt ∅).1).1).1 = Ok (out, result) ∧
    length out = 1%nat ∧
    TransformedRecords result = Z.of_nat (length out) ∧
    SkippedRecords result = 0 ∧
    Errors result = [] ∧
    Transformations result = T_Name <$> transformations (engine defaultHandler) ∧
    DataQuality result = calculateDataQuality [] out ∧
    (EnableOptimization (config defaultHandler) = false ->
     OriginalRecords result = Z.of_nat (length out)) ∧
    (optimizations (engine defaultHandler)
     = [DuplicateRemoval; DataDeduplication; IndexOptimization] ->
     Z.of_nat (length out) <= OriginalRecords result ∧
     (EnableOptimization (config defaultHandler) = true -> NoDup (ID <$> out))).
Proof.
  eexists; eexists. split; [vm_compute; reflexivity|]. split; [reflexivity|].
  apply (ProcessDataFile_bookkeeping (fun r => r) noLayoutParses (fun _ => "")
           defaultHandler [] "sales.csv" (Ok salesFile) tt ∅).
  vm_compute. reflexivity.
Defined.

Lemma ProcessDataFile_rejects_XML_witness :
  detectFileFormat (fun r => r) "export.xml" commaFile = Ok FormatXML ∧
  ProcessDataFile (fun r => r) noLayoutParses (fun _ => "") defaultHandler []
                  "export.xml" (Ok commaFile) tt ∅
  = (Err "failed to convert data: unsupported format: xml", tt, ∅, []).
Proof.
  split; [reflexivity|].
  apply (ProcessDataFile_rejects_XML (fun r => r) noLayoutParses (fun _ => "")
           defaultHandler [] "export.xml" commaFile tt ∅).
  reflexivity.
Defined.

End HandlerFacts.

Module ConfigFacts.
Import GoStrings GoFloat GoTime Models Config Optimizations Stages Quality Converter
       EngineM Handler ConfigLoader Spec QualityFacts.

Lemma addDefaultMappings_lookup (entries : list (string * string))
    (m : gmap string string) (k : string) :
  NoDup entries.*1 ->
  addDefaultMappings entries m !! k =
    match m !! k with
    | Some v => Some v
    | None => (list_to_map entries : gmap string string) !! k
    end.
Proof.
  revert m. induction entries as [|[k' v'] entries IH]; intros m Hnd.
  - cbn. by destruct (m !! k).
  - apply NoDup_cons in Hnd as [Hk' Hnd]. cbn [addDefaultMappings fold_left fst snd].
    fold (addDefaultMappings entries
            match m !! k' with Some _ => m | None => <[k':=v']> m end).
    rewrite IH by done. cbn [list_to_map foldr uncurry fst snd curry].
    destruct (decide (k = k')) as [->|Hne].
    + rewrite lookup_insert_eq.
      destruct (m !! k') eqn:E; [by rewrite E|].
      rewrite lookup_insert_eq. done.
    + rewrite (lookup_insert_ne _ k' k) by done.
      destruct (m !! k') eqn:E; [done|].
      by rewrite lookup_insert_ne by done.
Qed.

Lemma iter_order_NoDup {V} (order : list string) (m : gmap string V) :
  NoDup (iter_order order m).*1.
Proof.
  rewrite (fmap_Permutation fst _ _ (iter_order_perm order m)).
  apply NoDup_fst_map_to_list.
Qed.

Lemma iter_order_to_map {V} (order : list string) (m : gmap string V) :
  (list_to_map (iter_order order m) : gmap string V) = m.
Proof.
  rewrite (list_to_map_proper _ _ (iter_order_NoDup order m) (iter_order_perm order m)).
  apply list_to_map_to_list.
Qed.

Lemma overrideEntries_lookup (entries : list (string * string))
    (m : gmap string string) (k : string) :
  NoDup entries.*1 ->
  overrideEntries entries m !! k =
    match (list_to_map entries : gmap string string) !! k with
    | Some v => Some v
    | None => m !! k
    end.
Proof.
  revert m. induction entries as [|[k' v'] entries IH]; intros m Hnd.
  - done.
  - apply NoDup_cons in Hnd as [Hk' Hnd]. cbn [overrideEntries fold_left fst snd].
    fold (overrideEntries entries (<[k':=v']> m)).
    rewrite IH by done. cbn [list_to_map foldr uncurry fst snd curry].
    destruct (decide (k = k')) as [->|Hne].
    + rewrite !lookup_insert_eq.
      by rewrite (not_elem_of_list_to_map_1 _ _ Hk').
    + by rewrite !(lookup_insert_ne _ k' k) by done.
Qed.

Lemma applyDefaults_mappings (order : list string) (nil : bool)
    (config : TransformConfig) (k : string) :
  CustomMappings (applyDefaults order nil config) !! k =
    match CustomMappings config !! k with
    | Some v => Some v
    | None => CustomMappings getDefaultConfig !! k
    end.
Proof.
  cbn [applyDefaults CustomMappings].
  rewrite addDefaultMappings_lookup by apply iter_order_NoDup.
  by rewrite iter_order_to_map.
Qed.

Lemma length_eqb_nil {A} (l : list A) : (length l =? 0)%nat = true <-> l = [].
Proof. destruct l; cbn; split; done. Qed.

Lemma applyDefaults_holds (order order' : list string) (nil : bool)
    (config : TransformConfig) :
  let loaded := applyDefaults order nil config in
  DateFormats loaded ≠ [] ∧ NullValues loaded ≠ [] ∧
  f64_eqb (PriceMultiplier loaded) f64_zero = false ∧
  (DateFormats config ≠ [] -> DateFormats loaded = DateFormats config) ∧
  (NullValues config ≠ [] -> NullValues loaded = NullValues config) ∧
  (f64_eqb (PriceMultiplier config) f64_zero = false ->
   PriceMultiplier loaded = PriceMultiplier config) ∧
  (∀ k, CustomMappings loaded !! k =
        match CustomMappings config !! k with
        | Some v => Some v
        | None => CustomMappings getDefaultConfig !! k
        end) ∧
  applyDefaults order' false loaded = loaded.
Proof.
  intros loaded.
  assert (Hd : DateFormats loaded ≠ []).
  { subst loaded. cbn [applyDefaults DateFormats].
    destruct (DateFormats config); cbn; done. }
  assert (Hn : NullValues loaded ≠ []).
  { subst loaded. cbn [applyDefaults NullValues].
    destruct (NullValues config); cbn; done. }
  assert (Hp : f64_eqb (PriceMultiplier loaded) f64_zero = false).
  { subst loaded. cbn [applyDefaults PriceMultiplier].
    destruct (f64_eqb (PriceMultiplier config) f64_zero) eqn:E; [done|exact E]. }
  repeat (match goal with |- _ ∧ _ => split end); try done.
  - subst loaded. cbn [applyDefaults DateFormats]. by destruct (DateFormats config).
  - subst loaded. cbn [applyDefaults NullValues]. by destruct (NullValues config).
  - subst loaded. cbn [applyDefaults PriceMultiplier]. by intros ->.
  - intros k. apply applyDefaults_mappings.
  - unfold applyDefaults at 1. rewrite Hp.
    destruct (DateFormats loaded) eqn:Ed; [done|].
    destruct (NullValues loaded) eqn:En; [done|].
    cbn [length Nat.eqb].
    replace (addDefaultMappings _ (CustomMappings loaded)) with (CustomMappings loaded).
    { destruct loaded; cbn in *. by rewrite Ed, En. }
    apply map_eq. intros k.
    rewrite addDefaultMappings_lookup by apply iter_order_NoDup.
    rewrite iter_order_to_map.
    destruct (CustomMappings loaded !! k) eqn:E; [done|].
    subst loaded. rewrite applyDefaults_mappings in E.
    destruct (CustomMappings config !! k); [done|]. by rewrite E.
Qed.

(** X24. applyDefaults returns a configuration with at least one date format,
    at least one null value and a price multiplier that is not zero; date
    formats, null values and a multiplier that were set are kept; in the
    custom mappings the entry of the given configuration wins and the
    default mappings fill the other keys; and applying it a second time
    changes nothing. *)
Theorem applyDefaults_fills_what_is_missing (order order' : list string) (nil : bool)
    (config : TransformConfig) :
  let loaded := applyDefaults order nil config in
  DateFormats loaded ≠ [] ∧ NullValues loaded ≠ [] ∧
  f64_eqb (PriceMultiplier loaded) f64_zero = false ∧
  (DateFormats config ≠ [] -> DateFormats loaded = DateFormats config) ∧
  (NullValues config ≠ [] -> NullValues loaded = NullValues config) ∧
  (f64_eqb (PriceMultiplier config) f64_zero = false ->
   PriceMultiplier loaded = PriceMultiplier config) ∧
  (∀ k, CustomMappings loaded !! k =
        match CustomMappings config !! k with
        | Some v => Some v
        | None => CustomMappings getDefaultConfig !! k
        end) ∧
  applyDefaults order' false loaded = loaded.
Proof. apply applyDefaults_holds. Qed.

Section Engine.
Context {TS : Type}.
Variable StringCleaning CountryMapping RegionMapping ProductNameNormalization
  : Transformation TS.
Variable DataTypeValidator_Validate
  : Transaction -> gmap string bool -> option string * gmap string bool.

(** X25. NewDataTransformationEngine keeps a configuration that went through
    applyDefaults as it is: the engine's own defaults for date formats,
    null values and the price multiplier are never used for it. *)
Theorem engine_keeps_a_loaded_config (order : list string) (nil : bool)
    (config : TransformConfig) :
  e_config
    (NewDataTransformationEngine StringCleaning CountryMapping RegionMapping
       ProductNameNormalization DataTypeValidator_Validate
       (applyDefaults order nil config)) =
  applyDefaults order nil config.
Proof.
  destruct (applyDefaults_holds order order nil config) as (Hd & Hn & Hp & _).
  cbv zeta in Hd, Hn, Hp.
  unfold NewDataTransformationEngine. cbn [e_config].
  rewrite Hp.
  destruct (applyDefaults order nil config) as [a b d c n dc dr p cm dt]; cbn in *.
  destruct d; [done|]. destruct n; [done|]. done.
Qed.

End Engine.

Lemma mergeConfigs_holds (order order' : list string) (base override : TransformConfig) :
  let merged := mergeConfigs order order' base override in
  EnableValidation merged = EnableValidation override ∧
  EnableOptimization merged = EnableOptimization override ∧
  (∀ k, CustomMappings merged !! k =
        match CustomMappings override !! k with
        | Some v => Some v
        | None => CustomMappings base !! k
        end) ∧
  (∀ k, DataTypes merged !! k =
        match DataTypes override !! k with
        | Some v => Some v
        | None => DataTypes base !! k
        end) ∧
  (DefaultCountry merged = "" <-> DefaultCountry override = "" ∧ DefaultCountry base = "") ∧
  (DefaultRegion merged = "" <-> DefaultRegion override = "" ∧ DefaultRegion base = "") ∧
  (DateFormats merged = [] <-> DateFormats override = [] ∧ DateFormats base = []) ∧
  mergeConfigs order order' base base = base.
Proof.
  intros merged. subst merged.
  repeat (match goal with |- _ ∧ _ => split end).
  - cbn. by destruct (EnableValidation override), (EnableValidation base).
  - cbn. by destruct (EnableOptimization override), (EnableOptimization base).
  - intros k. cbn [mergeConfigs CustomMappings].
    rewrite overrideEntries_lookup by apply iter_order_NoDup.
    by rewrite iter_order_to_map.
  - intros k. cbn [mergeConfigs DataTypes].
    rewrite overrideEntries_lookup by apply iter_order_NoDup.
    by rewrite iter_order_to_map.
  - cbn [mergeConfigs DefaultCountry].
    destruct (String.eqb_spec (DefaultCountry override) "") as [E|E]; cbn [negb].
    + split; [by intros ->|by intros [_ ->]].
    + split; [done|by intros [? _]].
  - cbn [mergeConfigs DefaultRegion].
    destruct (String.eqb_spec (DefaultRegion override) "") as [E|E]; cbn [negb].
    + split; [by intros ->|by intros [_ ->]].
    + split; [done|by intros [? _]].
  - cbn [mergeConfigs DateFormats].
    destruct (DateFormats override) as [|f fs]; cbn.
    + split; [by intros ->|by intros [_ ->]].
    + split; [done|by intros [? _]].
  - unfold mergeConfigs.
    rewrite !Bool.eqb_reflx. cbn [negb].
    replace (overrideEntries _ (CustomMappings base)) with (CustomMappings base).
    2:{ apply map_eq. intros k.
        rewrite overrideEntries_lookup by apply iter_order_NoDup.
        rewrite iter_order_to_map. by destruct (CustomMappings base !! k). }
    replace (overrideEntries _ (DataTypes base)) with (DataTypes base).
    2:{ apply map_eq. intros k.
        rewrite overrideEntries_lookup by apply iter_order_NoDup.
        rewrite iter_order_to_map. by destruct (DataTypes base !! k). }
    destruct base as [a b d c n dc dr p cm dt]; cbn [DateFormats CurrencyFormats
      NullValues DefaultCountry DefaultRegion PriceMultiplier EnableValidation
      EnableOptimization CustomMappings DataTypes].
    f_equal.
    + by destruct (0 <? length d)%nat.
    + by destruct (0 <? length c)%nat.
    + by destruct (0 <? length n)%nat.
    + by destruct (negb (dc =? "")%string).
    + by destruct (negb (dr =? "")%string).
    + by destruct (negb (f64_eqb p f64_zero)).
Qed.

(** X26. In the configuration that mergeConfigs returns, both flags are always
    those of the override (an override that leaves a flag out switches it
    off); in the custom mappings and the data types the entry of the
    override wins and the entries of the base are kept for the other keys;
    the default country, the default region and the date formats are empty
    only when they are empty in both; and merging a configuration with
    itself gives it back. *)
Theorem mergeConfigs_override_wins (order order' : list string)
    (base override : TransformConfig) :
  let merged := mergeConfigs order order' base override in
  EnableValidation merged = EnableValidation override ∧
  EnableOptimization merged = EnableOptimization override ∧
  (∀ k, CustomMappings merged !! k =
        match CustomMappings override !! k with
        | Some v => Some v
        | None => CustomMappings base !! k
        end) ∧
  (∀ k, DataTypes merged !! k =
        match DataTypes override !! k with
        | Some v => Some v
        | None => DataTypes base !! k
        end) ∧
  (DefaultCountry merged = "" <-> DefaultCountry override = "" ∧ DefaultCountry base = "") ∧
  (DefaultRegion merged = "" <-> DefaultRegion override = "" ∧ DefaultRegion base = "") ∧
  (DateFormats merged = [] <-> DateFormats override = [] ∧ DateFormats base = []) ∧
  mergeConfigs order order' base base = base.
Proof. apply mergeConfigs_holds. Qed.

Section Validate.
Variable Sprintf_f : float64 -> string.

Lemma isValidDateFormat_spec (format : string) :
  isValidDateFormat format = true <->
  Contains format "2006" = true ∧ Contains format "01" = true ∧
  Contains format "02" = true.
Proof.
  unfold isValidDateFormat. cbn [hasComponents].
  destruct (Contains format "2006"), (Contains format "01"), (Contains format "02");
    cbn; intuition congruence.
Qed.

Lemma validFormats_spec (formats : list string) (n : Z) :
  0 <= n ->
  let count := fold_left (fun n format => if isValidDateFormat format then n + 1 else n)
                         formats n in
  n <= count ∧
  (count = 0 <-> n = 0 ∧ Forall (fun f => isValidDateFormat f = false) formats).
Proof.
  revert n. induction formats as [|f fs IH]; intros n Hn; cbn [fold_left].
  - split; [lia|]. split; [intros ->; by split|by intros [-> _]].
  - destruct (isValidDateFormat f) eqn:E.
    + destruct (IH (n + 1) ltac:(lia)) as [Hle Hiff]. cbv zeta in Hle, Hiff.
      split; [lia|]. split; [lia|].
      intros [_ Hall]. apply Forall_cons in Hall as [Hf _]. congruence.
    + destruct (IH n Hn) as [Hle Hiff]. cbv zeta in Hle, Hiff.
      split; [done|]. rewrite Hiff. rewrite Forall_cons. tauto.
Qed.

Lemma ValidateConfig_None (config : TransformConfig) :
  ValidateConfig Sprintf_f config = None <->
  f64_leb (PriceMultiplier config) f64_zero = false ∧
  ∃ format, format ∈ DateFormats config ∧ Contains format "2006" = true ∧
            Contains format "01" = true ∧ Contains format "02" = true.
Proof.
  unfold ValidateConfig.
  destruct (f64_leb (PriceMultiplier config) f64_zero).
  { split; [done|by intros [? _]]. }
  destruct (DateFormats config) as [|f fs] eqn:Ed.
  { cbn. split; [done|]. intros [_ (x & Hx & _)]. by apply elem_of_nil in Hx. }
  cbn [length Nat.eqb].
  pose proof (validFormats_spec (f :: fs) 0 ltac:(lia)) as [Hle Hiff].
  cbv zeta in Hle, Hiff.
  destruct (Z.eqb_spec
    (fold_left (fun n format => if isValidDateFormat format then n + 1 else n)
       (f :: fs) 0) 0) as [E|E].
  - split; [done|]. intros [_ (x & Hx & Hc)].
    apply Hiff in E as [_ Hall]. rewrite Forall_forall in Hall.
    apply Hall in Hx. apply isValidDateFormat_spec in Hc. congruence.
  - split; [|done]. intros _. split; [done|].
    destruct (decide (Forall (fun f => isValidDateFormat f = false) (f :: fs)))
      as [Hall|Hex].
    + exfalso. apply E, Hiff. by split.
    + apply not_Forall_Exists in Hex; [|intros x; apply _].
      apply list.Exists_exists in Hex as (x & Hx & Hv).
      exists x. split; [done|]. apply isValidDateFormat_spec.
      change (isValidDateFormat x ≠ false) in Hv. destruct (isValidDateFormat x); [done|by exfalso; apply Hv].
Qed.

(** X27. ValidateConfig accepts a configuration exactly when its price
    multiplier is not less than or equal to zero (a NaN passes) and one of
    its date formats contains '2006', '01' and '02'. *)
Theorem ValidateConfig_accepts_iff (config : TransformConfig) :
  ValidateConfig Sprintf_f config = None <->
  f64_leb (PriceMultiplier config) f64_zero = false ∧
  ∃ format, format ∈ DateFormats config ∧ Contains format "2006" = true ∧
            Contains format "01" = true ∧ Contains format "02" = true.
Proof. apply ValidateConfig_None. Qed.

(** X28. ValidateConfig accepts the result of applyDefaults exactly when the
    given price multiplier is zero or not less than or equal to zero, and
    the given date formats are empty or hold a format that
    isValidDateFormat accepts: a negative multiplier and a list of
    unusable formats are not repaired by the defaults. *)
Theorem loaded_config_is_valid_iff (order : list string) (nil : bool)
    (config : TransformConfig) :
  ValidateConfig Sprintf_f (applyDefaults order nil config) = None <->
  (f64_eqb (PriceMultiplier config) f64_zero = true ∨
   f64_leb (PriceMultiplier config) f64_zero = false) ∧
  (DateFormats config = [] ∨
   ∃ format, format ∈ DateFormats config ∧ isValidDateFormat format = true).
Proof.
  rewrite ValidateConfig_None.
  cbn [applyDefaults PriceMultiplier DateFormats].
  assert (Hp : (if f64_eqb (PriceMultiplier config) f64_zero then f64_leb (f64_of_Z 100) f64_zero
                else f64_leb (PriceMultiplier config) f64_zero) = false <->
               (f64_eqb (PriceMultiplier config) f64_zero = true ∨
                f64_leb (PriceMultiplier config) f64_zero = false)).
  { destruct (f64_eqb (PriceMultiplier config) f64_zero).
    - split; [by left|]. intros _. by vm_compute.
    - split; [by right|]. by intros [?|?]. }
  replace (f64_leb (if f64_eqb (PriceMultiplier config) f64_zero then f64_of_Z 100
                    else PriceMultiplier config) f64_zero)
    with (if f64_eqb (PriceMultiplier config) f64_zero then f64_leb (f64_of_Z 100) f64_zero
          else f64_leb (PriceMultiplier config) f64_zero)
    by (by destruct (f64_eqb (PriceMultiplier config) f64_zero)).
  rewrite Hp. apply and_iff_compat_l.
  destruct (DateFormats config) as [|f fs]; cbn [length Nat.eqb].
  - split; [by left|]. intros _. exists "2006-01-02".
    split; [|by vm_compute]. cbn. apply elem_of_cons. right. apply elem_of_cons. by left.
  - split.
    + intros (x & Hx & Hc). right. exists x. split; [done|].
      by apply isValidDateFormat_spec.
    + intros [?|(x & Hx & Hc)]; [done|]. exists x. split; [done|].
      by apply isValidDateFormat_spec.
Qed.

Context {TS VS : Type}.

(** X29. Every configuration that ConfigLoader.ValidateConfig accepts is
    accepted by FlexibleDataHandler.ValidateConfiguration, which accepts
    exactly when the price multiplier is not less than or equal to zero
    and there is at least one date format: its loop over the date formats
    rejects nothing. *)
Theorem ValidateConfiguration_weaker (e : Engine TS VS) (config : TransformConfig) :
  (ValidateConfig Sprintf_f config = None ->
   ValidateConfiguration (mkHandler e config) = None) ∧
  (ValidateConfiguration (mkHandler e config) = None <->
   f64_leb (PriceMultiplier config) f64_zero = false ∧ DateFormats config ≠ []).
Proof.
  assert (H : ValidateConfiguration (mkHandler e config) = None <->
              f64_leb (PriceMultiplier config) f64_zero = false ∧ DateFormats config ≠ []).
  { unfold ValidateConfiguration. cbn [Handler.config].
    destruct (f64_leb (PriceMultiplier config) f64_zero); [split; [done|by intros [? _]]|].
    destruct (DateFormats config); cbn; [split; [done|by intros [_ ?]]|done]. }
  split; [|exact H].
  intros Hv. apply ValidateConfig_None in Hv as [Hp (x & Hx & _)].
  apply H. split; [done|]. intros E. rewrite E in Hx. by apply elem_of_nil in Hx.
Qed.

End Validate.

End ConfigFacts.
